(** * Ponder: event decoding, worker pool, handler engine and conversions

    A shallow embedding of
      - packages/graph-ts-ponder/src/common/conversion.ts
      - packages/core/src/sync/eventDecoderWorker.ts
      - packages/core/src/sync/workerPool.ts
      - packages/core/src/handlers/EventHandlerService.ts
    together with the properties of the natural-language specification that
    concern them.

    Conventions.  JavaScript strings are [string]s whose characters stand for
    code units below 256.  A JavaScript call that may throw returns an
    [Outcome]; [undefined] is [None]. *)

From Stdlib Require Import String Ascii.
From Stdlib Require Import ZArith NArith Arith Bool Lia.
From Stdlib Require Import List Sorted Permutation.
From Stdlib Require Init.Byte Strings.Byte.
Import ListNotations.

(* ===================================================================== *)
(** * JavaScript prelude: thrown values and results of calls              *)
(* ===================================================================== *)

(** Values that the modelled code throws or catches. *)
Inductive JsError : Type :=
| TypeError (message : string)
| Error (message : string)
| E_CANCELED.

(** The result of a call: it returns a value or it throws. *)
Inductive Outcome (A : Type) : Type :=
| Returned (a : A)
| Threw (e : JsError).

Arguments Returned {A} a.
Arguments Threw {A} e.

Definition bindO {A B} (o : Outcome A) (k : A -> Outcome B) : Outcome B :=
  match o with
  | Returned a => k a
  | Threw e => Threw e
  end.

Declare Scope outcome_scope.
Delimit Scope outcome_scope with outcome.
Notation "'let*' x ':=' o 'in' k" := (bindO o (fun x => k))
  (at level 10, x pattern, o at level 100, k at level 200) : outcome_scope.
Open Scope outcome_scope.

(** [try { body } catch { handler }] *)
Definition tryCatch {A} (body : Outcome A) (handler : JsError -> Outcome A)
  : Outcome A :=
  match body with
  | Returned a => Returned a
  | Threw e => handler e
  end.

(** [Promise.all] over calls that have all been started: the array of the
    results in order, or a rejection when one of them rejects. *)
Fixpoint Promise_all {A} (ps : list (Outcome A)) : Outcome (list A) :=
  match ps with
  | [] => Returned []
  | p :: ps' =>
      match p, Promise_all ps' with
      | Threw e, _ => Threw e
      | Returned _, Threw e => Threw e
      | Returned a, Returned l => Returned (a :: l)
      end
  end.

(** [Array.prototype.flat] on an array of arrays. *)
Definition Array_flat {A} (ls : list (list A)) : list A := concat ls.

(** [Array.prototype.slice(start, end)] for integer [0 <= start <= end]. *)
Definition Array_slice {A} (start end_ : nat) (l : list A) : list A :=
  firstn (end_ - start) (skipn start l).

(* ===================================================================== *)
(** * graph-ts-ponder/src/common/conversion.ts                            *)
(* ===================================================================== *)

Module Conversion.

Local Open Scope string_scope.

(** A [Uint8Array] is a list of bytes. *)
Definition Uint8Array := list Byte.byte.

(** The digit of [Number.prototype.toString] for a digit value below 36. *)
Definition digitChar (d : N) : ascii :=
  if (d <? 10)%N then ascii_of_N (48 + d) else ascii_of_N (87 + d).

Fixpoint toString16_aux (fuel : nat) (n : N) (acc : string) : string :=
  match fuel with
  | O => acc
  | S fuel' =>
      let acc' := String (digitChar (n mod 16)) acc in
      if (n / 16 =? 0)%N then acc' else toString16_aux fuel' (n / 16) acc'
  end.

(** [n.toString(16)] for a non-negative integer [n]. *)
Definition Number_toString16 (n : N) : string :=
  toString16_aux (S (N.to_nat (N.log2 n))) n "".

(** [padString] repeated and cut to [n] characters. *)
Fixpoint fillString (n : nat) (padString cur : string) : string :=
  match n with
  | O => ""
  | S n' =>
      match cur with
      | String c cur' => String c (fillString n' padString cur')
      | EmptyString =>
          match padString with
          | String c cur' => String c (fillString n' padString cur')
          | EmptyString => ""
          end
      end
  end.

(** [s.padStart(targetLength, padString)] *)
Definition String_padStart (targetLength : nat) (padString s : string) : string :=
  if (targetLength <=? String.length s)%nat then s
  else fillString (targetLength - String.length s) padString padString ++ s.

(** [s.slice(start)] for [start >= 0]. *)
Fixpoint String_slice (start : nat) (s : string) : string :=
  match start, s with
  | O, _ => s
  | S n, String _ s' => String_slice n s'
  | S _, EmptyString => ""
  end.

(** [bytes.reduce((str, byte) => str + byte.toString(16).padStart(2, '0'), '')] *)
Definition hexOfByte (byte : Byte.byte) : string :=
  String_padStart 2 "0" (Number_toString16 (Byte.to_N byte)).

Definition bytesToHex (bytes : Uint8Array) : string :=
  let hexString :=
    "0x" ++ fold_left (fun str byte => str ++ hexOfByte byte) bytes "" in
  hexString.

(** Line terminators, which [.] in a regular expression does not match. *)
Definition isLineTerminator (c : ascii) : bool :=
  let n := N_of_ascii c in ((n =? 10) || (n =? 13))%N.

(** All matches of [/.{1,2}/g], left to right. *)
Fixpoint matchAll_dot_1_2 (s : string) : list string :=
  match s with
  | EmptyString => []
  | String c1 rest =>
      if isLineTerminator c1 then matchAll_dot_1_2 rest
      else
        match rest with
        | EmptyString => [String c1 ""]
        | String c2 rest' =>
            if isLineTerminator c2 then String c1 "" :: matchAll_dot_1_2 rest'
            else String c1 (String c2 "") :: matchAll_dot_1_2 rest'
        end
  end.

(** [s.match(/.{1,2}/g)]: [null] when there is no match. *)
Definition String_match_dot_1_2 (s : string) : option (list string) :=
  match matchAll_dot_1_2 s with
  | [] => None
  | ms => Some ms
  end.

(** White space that [parseInt] skips. *)
Definition isStrWhiteSpaceChar (c : ascii) : bool :=
  let n := N_of_ascii c in
  (((9 <=? n) && (n <=? 13)) || (n =? 32) || (n =? 160))%N.

Fixpoint trimStart (s : string) : string :=
  match s with
  | String c s' => if isStrWhiteSpaceChar c then trimStart s' else s
  | EmptyString => ""
  end.

(** The value of a hexadecimal digit. *)
Definition hexDigitValue (c : ascii) : option Z :=
  let n := Z.of_N (N_of_ascii c) in
  if ((48 <=? n) && (n <=? 57))%Z then Some (n - 48)%Z
  else if ((97 <=? n) && (n <=? 102))%Z then Some (n - 87)%Z
  else if ((65 <=? n) && (n <=? 70))%Z then Some (n - 55)%Z
  else None.

(** The longest prefix of hexadecimal digits, as a number; [None] when the
    prefix is empty. *)
Fixpoint parseHexDigits (s : string) (acc : option Z) : option Z :=
  match s with
  | EmptyString => acc
  | String c s' =>
      match hexDigitValue c with
      | None => acc
      | Some d =>
          parseHexDigits s'
            (Some (match acc with None => d | Some a => 16 * a + d end)%Z)
      end
  end.

(** [parseInt(string, 16)]; [None] is [NaN]. *)
Definition parseInt16 (input : string) : option Z :=
  let s := trimStart input in
  let '(sign, s) :=
    match s with
    | String "-" s' => ((-1)%Z, s')
    | String "+" s' => (1%Z, s')
    | _ => (1%Z, s)
    end in
  let s :=
    match s with
    | String "0" (String "x" s') => s'
    | String "0" (String "X" s') => s'
    | _ => s
    end in
  match parseHexDigits s None with
  | None => None
  | Some v => Some (sign * v)%Z
  end.

(** The conversion of a number to an element of a [Uint8Array]. *)
Definition ToUint8 (v : option Z) : Byte.byte :=
  match v with
  | None => Byte.x00
  | Some z =>
      match Byte.of_N (Z.to_N (z mod 256)) with
      | Some b => b
      | None => Byte.x00
      end
  end.

Definition Uint8Array_from (numbers : list (option Z)) : Uint8Array :=
  map ToUint8 numbers.

Definition hexToBytes (hexString : string) : Outcome Uint8Array :=
  let hexString :=
    if String.prefix "0x" hexString then String_slice 2 hexString
    else hexString in
  match String_match_dot_1_2 hexString with
  | None => Threw (TypeError "Cannot read properties of null (reading 'map')")
  | Some ms => Returned (Uint8Array_from (map (fun byte => parseInt16 byte) ms))
  end.

(** [bytesToString], the first of the two functions with this body. *)
Definition bytesToString (bytes : Uint8Array) : string :=
  let hexString :=
    "0x" ++ fold_left (fun str byte => str ++ hexOfByte byte) bytes "" in
  hexString.

(** A digit that [toString(16)] writes: [0-9] or [a-f]. *)
Definition isLowerHexDigit (c : ascii) : bool :=
  let n := N_of_ascii c in
  (((48 <=? n) && (n <=? 57)) || ((97 <=? n) && (n <=? 102)))%N.

(** The string that [hexToBytes] matches against: its argument without a
    leading ["0x"]. *)
Definition hexBody (hexString : string) : string :=
  if String.prefix "0x" hexString then String_slice 2 hexString
  else hexString.

End Conversion.

(* ===================================================================== *)
(** * core/src/sync/eventDecoderWorker.ts                                 *)
(* ===================================================================== *)

Module EventDecoderWorker.

Local Open Scope string_scope.

Definition Hex := string.

(** An entry of the [inputs] of an ABI item.  [name] and [indexed] may be
    absent. *)
Record AbiParameter : Type := {
  param_name : option string;
  param_indexed : option bool;
  param_type : string
}.

(** An ABI item, as far as [decodeEventLog] looks into it. *)
Record AbiItem : Type := {
  inputs : option (list AbiParameter)
}.

(** The decoding functions imported from viem, and the types of the chain
    data that the worker passes through without inspecting it. *)
Class Viem : Type := {
  Block : Type;
  Transaction : Type;
  TransactionReceipt : Type;
  AbiValue : Type;
  decodeAbiParameters : list AbiParameter -> Hex -> Outcome (option (list AbiValue));
  decodeFunctionData : AbiItem -> Hex -> Outcome (option (list AbiValue) * string);
  decodeFunctionResult : AbiItem -> Hex -> string -> Outcome AbiValue
}.

Section Decoder.
Context {viem : Viem}.

(** A decoded argument: an undecoded topic, a decoded ABI value, or
    [undefined]. *)
Inductive Value : Type :=
| VTopic (value : Hex)
| VAbi (v : AbiValue)
| VUndefined.

(** A property key of the [args] object: a parameter name or an index. *)
Inductive PropertyKey : Type :=
| KeyName (name : string)
| KeyIndex (i : nat).

Definition PropertyKey_eqb (a b : PropertyKey) : bool :=
  match a, b with
  | KeyName x, KeyName y => String.eqb x y
  | KeyIndex i, KeyIndex j => Nat.eqb i j
  | _, _ => false
  end.

(** [args] is an array when some input is unnamed and an object otherwise. *)
Inductive Args : Type :=
| ArgsArray (elements : list Value)
| ArgsObject (properties : list (PropertyKey * Value)).

(** [array[i] = v]; the loops below only write at [i = array.length]. *)
Definition Array_set (i : nat) (v : Value) (l : list Value) : list Value :=
  (firstn i l ++ repeat VUndefined (i - length l) ++ v :: skipn (S i) l)%list.

(** [object[key] = v] *)
Fixpoint Object_set (key : PropertyKey) (v : Value)
    (props : list (PropertyKey * Value)) : list (PropertyKey * Value) :=
  match props with
  | [] => [(key, v)]
  | (k, w) :: props' =>
      if PropertyKey_eqb k key then (k, v) :: props'
      else (k, w) :: Object_set key v props'
  end.

Definition Args_set (key : PropertyKey) (i : nat) (v : Value) (args : Args) : Args :=
  match args with
  | ArgsArray l => ArgsArray (Array_set i v l)
  | ArgsObject props => ArgsObject (Object_set key v props)
  end.

(** [Object.values(args).length] *)
Definition Object_values_length (args : Args) : nat :=
  match args with
  | ArgsArray l => length l
  | ArgsObject props => length props
  end.

(** ["name" in x && x.name] as a condition. *)
Definition hasName (x : AbiParameter) : bool :=
  match param_name x with
  | Some n => negb (String.eqb n "")
  | None => false
  end.

(** ["indexed" in x && x.indexed] as a condition. *)
Definition isIndexed (x : AbiParameter) : bool :=
  match param_indexed x with
  | Some b => b
  | None => false
  end.

Definition isDigit (c : ascii) : bool :=
  let n := N_of_ascii c in ((48 <=? n) && (n <=? 57))%N.

Fixpoint dropDigits (l : list ascii) : list ascii :=
  match l with
  | c :: l' => if isDigit c then dropDigits l' else l
  | [] => []
  end.

(** The regular expression of [decodeTopic] as a condition: the type ends
    in an opening bracket, optional decimal digits and a closing bracket,
    after a prefix without line terminators. *)
Definition matchesArrayType (type : string) : bool :=
  match rev (list_ascii_of_string type) with
  | "]"%char :: l =>
      match dropDigits l with
      | "["%char :: prefix =>
          forallb (fun c => negb (Conversion.isLineTerminator c)) prefix
      | _ => false
      end
  | _ => false
  end.

Definition decodeTopic (param : AbiParameter) (value : Hex) : Outcome Value :=
  if String.eqb (param_type param) "string"
     || String.eqb (param_type param) "bytes"
     || String.eqb (param_type param) "tuple"
     || matchesArrayType (param_type param)
  then Returned (VTopic value)
  else
    let* decoded := decodeAbiParameters [param] value in
    let decodedArg := match decoded with Some l => l | None => [] end in
    Returned (match decodedArg with v :: _ => VAbi v | [] => VUndefined end)%outcome.

(** The loop over [indexedInputs], from index [i]. *)
Fixpoint decodeIndexed (isUnnamed : bool) (argTopics : list Hex)
    (indexedInputs : list AbiParameter) (i : nat) (args : Args) : Outcome Args :=
  match indexedInputs with
  | [] => Returned args
  | param :: rest =>
      match nth_error argTopics i with
      | None => Threw (Error "Missing topic")
      | Some topic =>
          if String.eqb topic "" then Threw (Error "Missing topic")
          else
            (let* v := decodeTopic param topic in
             let key :=
               if isUnnamed then KeyIndex i
               else if hasName param
                    then KeyName (match param_name param with Some n => n | None => "" end)
                    else KeyIndex i in
             decodeIndexed isUnnamed argTopics rest (S i) (Args_set key i v args))%outcome
      end
  end.

(** The loop that copies [decodedData] into the named [args]. *)
Fixpoint assignNamed (nonIndexedInputs : list AbiParameter)
    (decodedData : list AbiValue) (i : nat) (args : Args) : Args :=
  match nonIndexedInputs with
  | [] => args
  | param :: rest =>
      let key := KeyName (match param_name param with
                          | Some n => n
                          | None => "undefined"
                          end) in
      let v := match nth_error decodedData i with
               | Some d => VAbi d
               | None => VUndefined
               end in
      assignNamed rest decodedData (S i)
        (match args with
         | ArgsObject props => ArgsObject (Object_set key v props)
         | ArgsArray l => ArgsArray l
         end)
  end.

Definition decodeEventLog (abiItem : AbiItem) (topics : list Hex) (data : Hex)
  : Outcome (option Args) :=
  let isUnnamed :=
    match inputs abiItem with
    | Some l => existsb (fun x => negb (hasName x)) l
    | None => false
    end in
  let args := if isUnnamed then ArgsArray [] else ArgsObject [] in
  let argTopics := tl topics in
  match inputs abiItem with
  | None => Threw (TypeError "Cannot read properties of undefined (reading 'filter')")
  | Some inputs =>
      let indexedInputs := filter isIndexed inputs in
      (let* args := decodeIndexed isUnnamed argTopics indexedInputs 0 args in
       let nonIndexedInputs := filter (fun x => negb (isIndexed x)) inputs in
       let* args :=
         if (0 <? length nonIndexedInputs)%nat
            && (negb (String.eqb data "") && negb (String.eqb data "0x"))
         then
           let* decodedData := decodeAbiParameters nonIndexedInputs data in
           Returned
             match decodedData with
             | Some decodedData =>
                 if isUnnamed then
                   match args with
                   | ArgsArray l => ArgsArray (l ++ map VAbi decodedData)%list
                   | ArgsObject props => ArgsObject props
                   end
                 else assignNamed nonIndexedInputs decodedData 0 args
             | None => args
             end
         else Returned args in
       Returned (if (0 <? Object_values_length args)%nat then Some args else None)
      )%outcome
  end.

(** ** Sources and events *)

Record AbiEntry : Type := {
  safeName : string;
  item : AbiItem
}.

(** [bySelector]: an object from selectors to ABI entries. *)
Definition BySelector := list (Hex * AbiEntry).

Fixpoint lookupSelector (selector : Hex) (bySelector : BySelector) : option AbiEntry :=
  match bySelector with
  | [] => None
  | (k, v) :: rest =>
      if String.eqb k selector then Some v else lookupSelector selector rest
  end.

Inductive FilterType : Type := FilterLog | FilterCallTrace.

Inductive Source : Type :=
| BlockSource (name : string)
| ContractSource (name : string) (filter_type : FilterType)
    (abiEvents abiFunctions : BySelector).

Record Log : Type := {
  topics : list Hex;
  log_data : Hex
}.

Record Trace : Type := {
  input : Hex;
  output : Hex
}.

Record RawEvent : Type := {
  sourceIndex : nat;
  raw_chainId : Z;
  raw_checkpoint : string;
  raw_block : Block;
  raw_log : option Log;
  raw_trace : option Trace;
  raw_transaction : option Transaction;
  raw_transactionReceipt : option TransactionReceipt
}.

Inductive EventType : Type := TypeBlock | TypeLog | TypeCallTrace.

Inductive EventData : Type :=
| BlockData (block : Block)
| LogData (name : string) (args : option Args) (log : Log) (block : Block)
    (transaction : option Transaction)
    (transactionReceipt : option TransactionReceipt)
| CallTraceData (args : option (list AbiValue)) (result : AbiValue)
    (trace : Trace) (block : Block) (transaction : option Transaction)
    (transactionReceipt : option TransactionReceipt).

Record Event : Type := {
  type : EventType;
  chainId : Z;
  checkpoint : string;
  name : string;
  event : EventData
}.

(** [s.toLowerCase()] on code units below 256. *)
Definition toLowerChar (c : ascii) : ascii :=
  let n := N_of_ascii c in
  if (((65 <=? n) && (n <=? 90))
      || ((192 <=? n) && (n <=? 222) && negb (n =? 215)))%N
  then ascii_of_N (n + 32) else c.

Fixpoint toLowerCase (s : string) : string :=
  match s with
  | EmptyString => EmptyString
  | String c s' => String (toLowerChar c) (toLowerCase s')
  end.

(** The body of the [try] of the ["log"] case: the event to push. *)
Definition decodeLogRow (name : string) (abiEvents : BySelector) (ev : RawEvent)
  : Outcome Event :=
  match raw_log ev with
  | None => Threw (Error "Invalid log")
  | Some log =>
      match hd_error (topics log) with
      | None => Threw (Error "Invalid log")
      | Some topic0 =>
          if String.eqb topic0 "" then Threw (Error "Invalid log")
          else
            match lookupSelector topic0 abiEvents with
            | None => Threw (Error "Invalid log")
            | Some entry =>
                (let* args := decodeEventLog (item entry) (topics log) (log_data log) in
                 Returned {|
                   type := TypeLog;
                   chainId := raw_chainId ev;
                   checkpoint := raw_checkpoint ev;
                   name := name ++ ":" ++ safeName entry;
                   event := LogData (safeName entry) args log (raw_block ev)
                              (raw_transaction ev) (raw_transactionReceipt ev)
                 |})%outcome
            end
      end
  end.

(** The body of the [try] of the ["callTrace"] case: the event to push. *)
Definition decodeTraceRow (name : string) (abiFunctions : BySelector) (ev : RawEvent)
  : Outcome Event :=
  match raw_trace ev with
  | None => Threw (TypeError "Cannot read properties of undefined (reading 'input')")
  | Some trace =>
      let selector := toLowerCase (substring 0 10 (input trace)) in
      match lookupSelector selector abiFunctions with
      | None => Threw (Error "Invalid trace")
      | Some entry =>
          (let* (args, functionName) := decodeFunctionData (item entry) (input trace) in
           let* result := decodeFunctionResult (item entry) (output trace) functionName in
           Returned {|
             type := TypeCallTrace;
             chainId := raw_chainId ev;
             checkpoint := raw_checkpoint ev;
             name := name ++ "." ++ safeName entry;
             event := CallTraceData args result trace (raw_block ev)
                        (raw_transaction ev) (raw_transactionReceipt ev)
           |})%outcome
      end
  end.

(** One iteration of the loop of [processEvents]: the array [decodedEvents]
    after it.  A missing source is a [TypeError] outside every [try]. *)
Definition processEvent (sources : list Source) (decodedEvents : list Event)
    (ev : RawEvent) : Outcome (list Event) :=
  match nth_error sources (sourceIndex ev) with
  | None => Threw (TypeError "Cannot read properties of undefined (reading 'type')")
  | Some (BlockSource name) =>
      Returned (decodedEvents ++ [{|
        type := TypeBlock;
        chainId := raw_chainId ev;
        checkpoint := raw_checkpoint ev;
        name := name ++ ":block";
        event := BlockData (raw_block ev)
      |}])%list
  | Some (ContractSource name FilterLog abiEvents _) =>
      tryCatch
        (let* e := decodeLogRow name abiEvents ev in
         Returned (decodedEvents ++ [e])%list)
        (fun _ => Returned decodedEvents)
  | Some (ContractSource name FilterCallTrace _ abiFunctions) =>
      tryCatch
        (let* e := decodeTraceRow name abiFunctions ev in
         Returned (decodedEvents ++ [e])%list)
        (fun _ => Returned decodedEvents)
  end.

Fixpoint processEvents_loop (sources : list Source) (events : list RawEvent)
    (decodedEvents : list Event) : Outcome (list Event) :=
  match events with
  | [] => Returned decodedEvents
  | ev :: rest =>
      (let* decodedEvents := processEvent sources decodedEvents ev in
       processEvents_loop sources rest decodedEvents)%outcome
  end.

Definition processEvents (events : list RawEvent) (sources : list Source)
  : Outcome (list Event) :=
  processEvents_loop sources events [].

(** ** The rows that decode

    A row decodes when its source is a block source, or a log source whose
    [bySelector] has the row's first topic and [decodeEventLog] does not
    throw, or a call-trace source whose [bySelector] has the 4-byte selector
    of the trace and neither decoding throws. *)

Definition returns {A} (o : Outcome A) : bool :=
  match o with Returned _ => true | Threw _ => false end.

Definition successfullyDecoded (sources : list Source) (ev : RawEvent) : bool :=
  match nth_error sources (sourceIndex ev) with
  | None => false
  | Some (BlockSource _) => true
  | Some (ContractSource _ FilterLog abiEvents _) =>
      match raw_log ev with
      | None => false
      | Some log =>
          match topics log with
          | [] => false
          | topic0 :: _ =>
              negb (String.eqb topic0 "")
              && match lookupSelector topic0 abiEvents with
                 | None => false
                 | Some entry =>
                     returns (decodeEventLog (item entry) (topics log) (log_data log))
                 end
          end
      end
  | Some (ContractSource _ FilterCallTrace _ abiFunctions) =>
      match raw_trace ev with
      | None => false
      | Some trace =>
          match lookupSelector (toLowerCase (substring 0 10 (input trace)))
                  abiFunctions with
          | None => false
          | Some entry =>
              match decodeFunctionData (item entry) (input trace) with
              | Threw _ => false
              | Returned (_, functionName) =>
                  returns (decodeFunctionResult (item entry) (output trace) functionName)
              end
          end
      end
  end.

(** What identifies a row, and the event decoded from it. *)
Definition rawKey (ev : RawEvent) : Z * string :=
  (raw_chainId ev, raw_checkpoint ev).
Definition eventKey (e : Event) : Z * string := (chainId e, checkpoint e).

End Decoder.

(** A decoding library over integer values, for concrete runs: parameters
    decode to one value per parameter when the data is not ["0xbad"], function
    data decodes when it is longer than a selector. *)
Definition viemZ : Viem := {|
  Block := Z;
  Transaction := string;
  TransactionReceipt := string;
  AbiValue := Z;
  decodeAbiParameters := fun params data =>
    if String.eqb data "0xbad" then Threw (Error "AbiDecodingDataSizeTooSmallError")
    else Returned (Some (map (fun _ => Z.of_nat (String.length data)) params));
  decodeFunctionData := fun _ data =>
    if (String.length data <=? 10)%nat then Threw (Error "AbiDecodingZeroDataError")
    else Returned (Some [Z.of_nat (String.length data)], "transfer");
  decodeFunctionResult := fun _ data _ =>
    if String.eqb data "0xbad" then Threw (Error "AbiDecodingDataSizeTooSmallError")
    else Returned (Z.of_nat (String.length data))
|}.

(** A source list and a batch for concrete runs: a block row, a log row that
    decodes, a log row with an unknown selector, a log row with a missing
    topic, a call trace that decodes and a call-trace row without a trace. *)
Definition transferItem : AbiItem := {|
  inputs := Some [
    {| param_name := Some "from"; param_indexed := Some true;
       param_type := "address" |};
    {| param_name := Some "value"; param_indexed := None;
       param_type := "uint256" |} ]
|}.

(** An ABI item whose inputs have no names, the non-indexed one first. *)
Definition unnamedItem : AbiItem := {|
  inputs := Some [
    {| param_name := None; param_indexed := None; param_type := "uint256" |};
    {| param_name := None; param_indexed := Some true;
       param_type := "address" |} ]
|}.

Definition sampleSources : list Source := [
  BlockSource "Blocks";
  ContractSource "Pair" FilterLog
    [("0xddf2", {| safeName := "Transfer"; item := transferItem |})] [];
  ContractSource "Pair" FilterCallTrace
    [] [("0xa9059cbb", {| safeName := "transfer()"; item := transferItem |})]
].

Definition sampleRow (i : nat) (checkpoint : string)
    (log : option Log) (trace : option Trace) : RawEvent (viem := viemZ) :=
  @Build_RawEvent viemZ i 1%Z checkpoint 5%Z log trace None None.

Definition sampleBatch : list (RawEvent (viem := viemZ)) := [
  sampleRow 0 "a" None None;
  sampleRow 1 "b" (Some {| topics := ["0xddf2"; "0x01"]; log_data := "0x1234" |}) None;
  sampleRow 1 "c" (Some {| topics := ["0xffff"]; log_data := "0x" |}) None;
  sampleRow 1 "d" (Some {| topics := ["0xddf2"]; log_data := "0x" |}) None;
  sampleRow 2 "e" None (Some {| input := "0xA9059CBB0000"; output := "0x01" |});
  sampleRow 2 "f" None None
].

End EventDecoderWorker.

(* ===================================================================== *)
(** * core/src/sync/workerPool.ts                                         *)
(* ===================================================================== *)

Module WorkerPool.
Import EventDecoderWorker.

(** The [n] slices of width [size] that [execute] cuts from an array, and
    the test of its [filter]. *)
Definition slices {A} (size n : nat) (l : list A) : list (list A) :=
  map (fun i => Array_slice (i * size) ((i + 1) * size) l) (seq 0 n).

Definition nonEmpty {A} (c : list A) : bool := (0 <? length c)%nat.

Section Pool.
Context {viem : Viem}.

Record WorkerMessage : Type := {
  chunk : list RawEvent;
  sources : list Source
}.

(** [Math.ceil(a / b)] for non-negative integers.  For [b = 0] JavaScript
    gives [Infinity] or [NaN]; [execute] then builds no sub-chunk at all, so
    the value chosen here for that case is never used. *)
Definition Math_ceil_div (a b : nat) : nat :=
  if (a mod b =? 0)%nat then a / b else S (a / b).

(** The sub-chunks of [execute]; [coreCount] is [workers.length], the number
    of CPU cores found when the pool was created. *)
Definition workerChunks (coreCount : nat) (chunk : list RawEvent)
  : list (list RawEvent) :=
  let chunkSize := Math_ceil_div (length chunk) coreCount in
  filter nonEmpty (slices chunkSize coreCount chunk).

(** Worker [i] answers the message [{ chunk: workerChunk, sources }] with
    [processEvents(chunk, sources)]; an exception in the worker rejects the
    promise of its sub-chunk. *)
Definition execute (coreCount : nat) (message : WorkerMessage)
  : Outcome (list Event) :=
  let workerPromises :=
    map (fun workerChunk => processEvents workerChunk (sources message))
        (workerChunks coreCount (chunk message)) in
  let* results := Promise_all workerPromises in
  Returned (Array_flat results).

End Pool.

End WorkerPool.

(* ===================================================================== *)
(** * core/src/handlers/EventHandlerService.ts                            *)
(* ===================================================================== *)

Module EventHandlerService.

Local Open Scope string_scope.
Local Open Scope Z_scope.

Definition Hex := string.

(** ** Numbers

    Timestamps and block numbers are integers.  [Math.min()] of no argument
    is [Infinity], which can reach [toTimestamp] and the watermark. *)

Inductive JsNumber : Type :=
| Finite (z : Z)
| Infinity.

(** [a <= b] *)
Definition JsNumber_leb (a b : JsNumber) : bool :=
  match a, b with
  | Finite x, Finite y => x <=? y
  | _, Infinity => true
  | Infinity, Finite _ => false
  end.

(** [Math.min(...values)] *)
Fixpoint Math_min (values : list Z) : JsNumber :=
  match values with
  | [] => Infinity
  | v :: rest =>
      match Math_min rest with
      | Infinity => Finite v
      | Finite m => Finite (Z.min v m)
      end
  end.

(** [values.includes(x)] *)
Definition Array_includes (x : Z) (values : list Z) : bool :=
  existsb (Z.eqb x) values.

(** [array.sort(compare)]: a stable sort; an element goes before the first
    element that [compare] puts strictly after it. *)
Fixpoint insertSorted {A} (compare : A -> A -> Z) (x : A) (sorted : list A)
  : list A :=
  match sorted with
  | [] => [x]
  | y :: rest =>
      if compare x y <? 0 then x :: y :: rest
      else y :: insertSorted compare x rest
  end.

Definition Array_sort {A} (compare : A -> A -> Z) (l : list A) : list A :=
  fold_left (fun sorted x => insertSorted compare x sorted) l [].

(** A comparison function that orders by an integer key, and the order it
    induces. *)
Definition comparesBy {A} (key : A -> Z) (compare : A -> A -> Z) : Prop :=
  forall x y, (compare x y <? 0) = (key x <? key y).

Definition keyLe {A} (key : A -> Z) (x y : A) : Prop := key x <= key y.

(** [array.map(f)] for an [f] that may throw. *)
Fixpoint mapO {A B} (f : A -> Outcome B) (l : list A) : Outcome (list B) :=
  match l with
  | [] => Returned []
  | x :: rest =>
      let* y := f x in
      let* ys := mapO f rest in
      Returned (y :: ys)
  end.

(** [list[i] = x] for an index inside the list. *)
Fixpoint list_update {A} (i : nat) (x : A) (l : list A) : list A :=
  match l, i with
  | [], _ => []
  | _ :: rest, O => x :: rest
  | y :: rest, S i' => y :: list_update i' x rest
  end.

(** ** Chain data, configuration and the cache store *)

Record AbiItem : Type := {
  abi_type : string;
  abi_name : string
}.

Definition Abi := list AbiItem.

Record Contract : Type := {
  contract_name : string;
  contract_address : Hex;
  contract_abi : Abi;
  contract_startBlock : Z;
  contract_isIndexed : bool
}.

Record CachedInterval : Type := {
  startBlock : Z;
  endBlock : Z;
  endBlockTimestamp : Z
}.

Record Log : Type := {
  logSortKey : Z;
  log_address : Hex;
  log_data : Hex;
  topic0 : option Hex;
  topic1 : option Hex;
  topic2 : option Hex;
  topic3 : option Hex;
  blockHash : Hex;
  transactionHash : Hex
}.

Record Block : Type := {
  block_hash : Hex;
  block_number : Z;
  block_timestamp : Z
}.

Record Transaction : Type := {
  transaction_hash : Hex
}.

(** The cache store, at one state of the cache.  [getLogs] takes the
    contract address, the two timestamps and the optional [eventSigHashes]. *)
Record CacheStore : Type := {
  getCachedIntervals : Hex -> list CachedInterval;
  getLogs : Hex -> JsNumber -> JsNumber -> option (list (option Hex)) -> list Log;
  getBlock : Hex -> option Block;
  getTransaction : Hex -> option Transaction
}.

Record SchemaEntity : Type := {
  entity_name : string
}.

Record Schema : Type := {
  entities : list SchemaEntity
}.

(** What the service imports and does not define: viem's
    [encodeEventTopics] and [decodeEventLog], [getStackTraceAndCodeFrame],
    the decoded parameters of an event, the options and the entity store
    that handlers read and write. *)
Class Externals : Type := {
  Params : Type;
  EntityStore : Type;
  Options : Type;
  encodeEventTopics : Abi -> string -> Outcome (list Hex);
  decodeEventLog :
    Abi -> Hex -> list (option Hex) -> Outcome (option (string * Params));
  getStackTraceAndCodeFrame : JsError -> Options -> string * string
}.

Section Service.
Context {ext : Externals}.

(** ** Handlers, events and tasks *)

Record LogEvent : Type := {
  event_name : string;
  event_params : Params;
  event_log : Log;
  event_block : Block;
  event_transaction : Transaction
}.

(** The context given to handlers: the names of the injected contracts and
    of the entity models, whose methods all go to the entity store. *)
Record Context : Type := {
  context_contracts : list string;
  context_entities : list string
}.

(** User code.  A handler runs against the entity store and returns the
    store it leaves, and the value it throws if it throws. *)
Definition SetupHandler : Type :=
  Context -> EntityStore -> EntityStore * option JsError.

Definition LogHandler : Type :=
  LogEvent -> Context -> EntityStore -> EntityStore * option JsError.

(** [handlers.setup] and [handlers[contractName][eventName]]. *)
Record Handlers : Type := {
  setup : option SetupHandler;
  contractHandlers : list (string * list (string * LogHandler))
}.

Fixpoint lookup {V} (key : string) (object : list (string * V)) : option V :=
  match object with
  | [] => None
  | (k, v) :: rest => if String.eqb k key then Some v else lookup key rest
  end.

(** [Object.keys(object)] *)
Definition Object_keys {V} (object : list (string * V)) : list string :=
  map fst object.

Inductive EventHandlerTask : Type :=
| SETUP
| LOG (log : Log).

Record EventHandlerError : Type := {
  eventName : string;
  blockNumber : option Z;
  params : option Params;
  stackTrace : string;
  codeFrame : string;
  cause : JsError
}.

Inductive Emitted : Type :=
| taskStarted
| taskCompleted (timestamp : option Z)
| eventsAdded (handledCount totalCount : nat) (fromTimestamp toTimestamp : JsNumber)
| eventsProcessed (count : nat) (toTimestamp : JsNumber)
| eventQueueReset.

Inductive LogLevel : Type := Warn | Trace.

(** ** Collaborators that the repository defines outside this file *)

(** Modelled from the spec: the error sink [resources.errors], whose source
    is not part of the files modelled.  [submitHandlerError(error)] records
    the error and sets the flag that [isHandlerError] reports. *)
Record ErrorSink : Type := {
  handlerErrors : list EventHandlerError;
  isHandlerError : bool
}.

Definition submitHandlerError (error : EventHandlerError) (sink : ErrorSink)
  : ErrorSink :=
  {| handlerErrors := handlerErrors sink ++ [error]; isHandlerError := true |}.

(** Modelled from the spec: the queue of [createQueue], whose source is not
    part of the files modelled.  It holds the pending tasks in enqueue order
    and runs them one at a time (concurrency 1) while it is not paused; it is
    created paused (no auto start); [clear] drops every pending task;
    [onEmpty] settles when no task is pending; a task whose worker throws is
    fatal: it halts the queue and fails [onEmpty].  The worker closure of
    [createEventQueue] captures [handlers] and [context]. *)
Record Queue : Type := {
  queue_handlers : Handlers;
  queue_context : Context;
  queue_tasks : list EventHandlerTask;
  queue_isPaused : bool;
  queue_failure : option JsError
}.

Definition Queue_addTask (task : EventHandlerTask) (q : Queue) : Queue :=
  {| queue_handlers := queue_handlers q; queue_context := queue_context q;
     queue_tasks := queue_tasks q ++ [task];
     queue_isPaused := queue_isPaused q; queue_failure := queue_failure q |}.

Definition Queue_clear (q : Queue) : Queue :=
  {| queue_handlers := queue_handlers q; queue_context := queue_context q;
     queue_tasks := [];
     queue_isPaused := queue_isPaused q; queue_failure := queue_failure q |}.

Definition Queue_setPaused (paused : bool) (q : Queue) : Queue :=
  {| queue_handlers := queue_handlers q; queue_context := queue_context q;
     queue_tasks := queue_tasks q;
     queue_isPaused := paused; queue_failure := queue_failure q |}.

Definition Queue_start : Queue -> Queue := Queue_setPaused false.
Definition Queue_pause : Queue -> Queue := Queue_setPaused true.

Definition Queue_setTasks (tasks : list EventHandlerTask) (q : Queue) : Queue :=
  {| queue_handlers := queue_handlers q; queue_context := queue_context q;
     queue_tasks := tasks;
     queue_isPaused := queue_isPaused q; queue_failure := queue_failure q |}.

Definition Queue_fail (e : JsError) (q : Queue) : Queue :=
  {| queue_handlers := queue_handlers q; queue_context := queue_context q;
     queue_tasks := queue_tasks q;
     queue_isPaused := queue_isPaused q; queue_failure := Some e |}.

(** ** The mutex of async-mutex

    [acquire] hands out a ticket: the lock itself when the mutex is free, a
    place in the waiting line otherwise.  [release] passes the lock to the
    first ticket waiting.  [cancel] rejects every waiting ticket with
    [E_CANCELED]; it does not take the lock from its holder. *)
Record Mutex : Type := {
  mutex_holder : option nat;
  mutex_waiting : list nat;
  mutex_cancelled : list nat;
  mutex_issued : nat
}.

Definition Mutex_new : Mutex :=
  {| mutex_holder := None; mutex_waiting := [];
     mutex_cancelled := []; mutex_issued := 0 |}.

Definition Mutex_acquire (m : Mutex) : nat * Mutex :=
  let ticket := mutex_issued m in
  match mutex_holder m with
  | None =>
      (ticket, {| mutex_holder := Some ticket; mutex_waiting := mutex_waiting m;
                  mutex_cancelled := mutex_cancelled m;
                  mutex_issued := S ticket |})
  | Some _ =>
      (ticket, {| mutex_holder := mutex_holder m;
                  mutex_waiting := mutex_waiting m ++ [ticket];
                  mutex_cancelled := mutex_cancelled m;
                  mutex_issued := S ticket |})
  end.

Definition Mutex_release (m : Mutex) : Mutex :=
  match mutex_waiting m with
  | [] => {| mutex_holder := None; mutex_waiting := [];
             mutex_cancelled := mutex_cancelled m;
             mutex_issued := mutex_issued m |}
  | next :: rest =>
      {| mutex_holder := Some next; mutex_waiting := rest;
         mutex_cancelled := mutex_cancelled m;
         mutex_issued := mutex_issued m |}
  end.

Definition Mutex_cancel (m : Mutex) : Mutex :=
  {| mutex_holder := mutex_holder m; mutex_waiting := [];
     mutex_cancelled := mutex_cancelled m ++ mutex_waiting m;
     mutex_issued := mutex_issued m |}.

(** ** The service *)

Record Resources : Type := {
  contracts : list Contract;
  cacheStore : CacheStore;
  options : Options;
  errors : ErrorSink;
  logger : list (LogLevel * string);
  entityStore : EntityStore
}.

(** The fields of the class, the mutex and queue objects that exist (a field
    holds a reference into [mutexes] or [queues]), and the events emitted so
    far. *)
Record EventHandlerService : Type := {
  resources : Resources;
  handlers : option Handlers;
  schema : option Schema;
  queue : option nat;
  injectedContracts : list string;
  isBackfillStarted : bool;
  eventProcessingMutex : nat;
  eventsHandledToTimestamp : JsNumber;
  currentLogEventBlockNumber : Z;
  mutexes : list Mutex;
  queues : list Queue;
  emitted : list Emitted
}.


(** ** Field updates *)

Definition Resources_set_errors v (r : Resources) : Resources :=
  {| contracts := contracts r; cacheStore := cacheStore r;
     options := options r; errors := v; logger := logger r;
     entityStore := entityStore r |}.

Definition Resources_set_logger v (r : Resources) : Resources :=
  {| contracts := contracts r; cacheStore := cacheStore r;
     options := options r; errors := errors r; logger := v;
     entityStore := entityStore r |}.

Definition Resources_set_entityStore v (r : Resources) : Resources :=
  {| contracts := contracts r; cacheStore := cacheStore r;
     options := options r; errors := errors r; logger := logger r;
     entityStore := v |}.

Definition set_resources v (s : EventHandlerService) : EventHandlerService :=
  {| resources := v; handlers := handlers s; schema := schema s;
     queue := queue s; injectedContracts := injectedContracts s;
     isBackfillStarted := isBackfillStarted s;
     eventProcessingMutex := eventProcessingMutex s;
     eventsHandledToTimestamp := eventsHandledToTimestamp s;
     currentLogEventBlockNumber := currentLogEventBlockNumber s;
     mutexes := mutexes s; queues := queues s; emitted := emitted s |}.

Definition set_handlers v (s : EventHandlerService) : EventHandlerService :=
  {| resources := resources s; handlers := v; schema := schema s;
     queue := queue s; injectedContracts := injectedContracts s;
     isBackfillStarted := isBackfillStarted s;
     eventProcessingMutex := eventProcessingMutex s;
     eventsHandledToTimestamp := eventsHandledToTimestamp s;
     currentLogEventBlockNumber := currentLogEventBlockNumber s;
     mutexes := mutexes s; queues := queues s; emitted := emitted s |}.

Definition set_schema v (s : EventHandlerService) : EventHandlerService :=
  {| resources := resources s; handlers := handlers s; schema := v;
     queue := queue s; injectedContracts := injectedContracts s;
     isBackfillStarted := isBackfillStarted s;
     eventProcessingMutex := eventProcessingMutex s;
     eventsHandledToTimestamp := eventsHandledToTimestamp s;
     currentLogEventBlockNumber := currentLogEventBlockNumber s;
     mutexes := mutexes s; queues := queues s; emitted := emitted s |}.

Definition set_queue v (s : EventHandlerService) : EventHandlerService :=
  {| resources := resources s; handlers := handlers s; schema := schema s;
     queue := v; injectedContracts := injectedContracts s;
     isBackfillStarted := isBackfillStarted s;
     eventProcessingMutex := eventProcessingMutex s;
     eventsHandledToTimestamp := eventsHandledToTimestamp s;
     currentLogEventBlockNumber := currentLogEventBlockNumber s;
     mutexes := mutexes s; queues := queues s; emitted := emitted s |}.

Definition set_isBackfillStarted v (s : EventHandlerService) : EventHandlerService :=
  {| resources := resources s; handlers := handlers s; schema := schema s;
     queue := queue s; injectedContracts := injectedContracts s;
     isBackfillStarted := v; eventProcessingMutex := eventProcessingMutex s;
     eventsHandledToTimestamp := eventsHandledToTimestamp s;
     currentLogEventBlockNumber := currentLogEventBlockNumber s;
     mutexes := mutexes s; queues := queues s; emitted := emitted s |}.

Definition set_eventProcessingMutex v (s : EventHandlerService) : EventHandlerService :=
  {| resources := resources s; handlers := handlers s; schema := schema s;
     queue := queue s; injectedContracts := injectedContracts s;
     isBackfillStarted := isBackfillStarted s; eventProcessingMutex := v;
     eventsHandledToTimestamp := eventsHandledToTimestamp s;
     currentLogEventBlockNumber := currentLogEventBlockNumber s;
     mutexes := mutexes s; queues := queues s; emitted := emitted s |}.

Definition set_eventsHandledToTimestamp v (s : EventHandlerService) : EventHandlerService :=
  {| resources := resources s; handlers := handlers s; schema := schema s;
     queue := queue s; injectedContracts := injectedContracts s;
     isBackfillStarted := isBackfillStarted s;
     eventProcessingMutex := eventProcessingMutex s;
     eventsHandledToTimestamp := v;
     currentLogEventBlockNumber := currentLogEventBlockNumber s;
     mutexes := mutexes s; queues := queues s; emitted := emitted s |}.

Definition set_currentLogEventBlockNumber v (s : EventHandlerService) : EventHandlerService :=
  {| resources := resources s; handlers := handlers s; schema := schema s;
     queue := queue s; injectedContracts := injectedContracts s;
     isBackfillStarted := isBackfillStarted s;
     eventProcessingMutex := eventProcessingMutex s;
     eventsHandledToTimestamp := eventsHandledToTimestamp s;
     currentLogEventBlockNumber := v; mutexes := mutexes s;
     queues := queues s; emitted := emitted s |}.

Definition set_mutexes v (s : EventHandlerService) : EventHandlerService :=
  {| resources := resources s; handlers := handlers s; schema := schema s;
     queue := queue s; injectedContracts := injectedContracts s;
     isBackfillStarted := isBackfillStarted s;
     eventProcessingMutex := eventProcessingMutex s;
     eventsHandledToTimestamp := eventsHandledToTimestamp s;
     currentLogEventBlockNumber := currentLogEventBlockNumber s;
     mutexes := v; queues := queues s; emitted := emitted s |}.

Definition set_queues v (s : EventHandlerService) : EventHandlerService :=
  {| resources := resources s; handlers := handlers s; schema := schema s;
     queue := queue s; injectedContracts := injectedContracts s;
     isBackfillStarted := isBackfillStarted s;
     eventProcessingMutex := eventProcessingMutex s;
     eventsHandledToTimestamp := eventsHandledToTimestamp s;
     currentLogEventBlockNumber := currentLogEventBlockNumber s;
     mutexes := mutexes s; queues := v; emitted := emitted s |}.

Definition set_emitted v (s : EventHandlerService) : EventHandlerService :=
  {| resources := resources s; handlers := handlers s; schema := schema s;
     queue := queue s; injectedContracts := injectedContracts s;
     isBackfillStarted := isBackfillStarted s;
     eventProcessingMutex := eventProcessingMutex s;
     eventsHandledToTimestamp := eventsHandledToTimestamp s;
     currentLogEventBlockNumber := currentLogEventBlockNumber s;
     mutexes := mutexes s; queues := queues s; emitted := v |}.

Definition set_errors v (s : EventHandlerService) : EventHandlerService :=
  set_resources (Resources_set_errors v (resources s)) s.

Definition set_logger v (s : EventHandlerService) : EventHandlerService :=
  set_resources (Resources_set_logger v (resources s)) s.

Definition set_entityStore v (s : EventHandlerService) : EventHandlerService :=
  set_resources (Resources_set_entityStore v (resources s)) s.

(** [this.emit(event)] *)
Definition emit (e : Emitted) (s : EventHandlerService) : EventHandlerService :=
  set_emitted (emitted s ++ [e]) s.

(** [this.resources.logger.warn(message)] and [.trace(message)] *)
Definition logMessage (level : LogLevel) (message : string)
    (s : EventHandlerService) : EventHandlerService :=
  set_logger (logger (resources s) ++ [(level, message)]) s.

(** The mutex and queue objects behind references. *)
Definition getMutex (m : nat) (s : EventHandlerService) : Mutex :=
  nth m (mutexes s) Mutex_new.

Definition updateMutex (m : nat) (f : Mutex -> Mutex) (s : EventHandlerService)
  : EventHandlerService :=
  set_mutexes (list_update m (f (getMutex m s)) (mutexes s)) s.

Definition getQueue (q : nat) (s : EventHandlerService) : option Queue :=
  nth_error (queues s) q.

Definition updateQueue (q : nat) (f : Queue -> Queue) (s : EventHandlerService)
  : EventHandlerService :=
  match getQueue q s with
  | Some object => set_queues (list_update q (f object) (queues s)) s
  | None => s
  end.

(** ** The constructor *)

Definition new_EventHandlerService (resources : Resources) : EventHandlerService :=
  {| resources := resources;
     handlers := None;
     schema := None;
     queue := None;
     injectedContracts := map contract_name (contracts resources);
     isBackfillStarted := false;
     eventProcessingMutex := 0;
     eventsHandledToTimestamp := Finite 0;
     currentLogEventBlockNumber := 0;
     mutexes := [Mutex_new];
     queues := [];
     emitted := [] |}.

(** ** [killQueue], [buildContext], [createEventQueue], [resetEventQueue] *)


Definition buildContext (schema : Schema) (s : EventHandlerService) : Context :=
  {| context_contracts := injectedContracts s;
     context_entities := map entity_name (entities schema) |}.

Definition createEventQueue (handlers : Handlers) (schema : Schema)
    (s : EventHandlerService) : Queue :=
  let context := buildContext schema s in
  {| queue_handlers := handlers;
     queue_context := context;
     queue_tasks := [];
     queue_isPaused := true;
     queue_failure := None |}.

Definition resetEventQueue (newHandlers : option Handlers)
    (newSchema : option Schema) (s : EventHandlerService) : EventHandlerService :=
  let s := match newHandlers with
           | Some h => set_handlers (Some h) s
           | None => s
           end in
  let s := match newSchema with
           | Some sc => set_schema (Some sc) s
           | None => s
           end in
  match handlers s, schema s with
  | Some h, Some sc =>
      let s := updateMutex (eventProcessingMutex s) Mutex_cancel s in
      let s := set_eventProcessingMutex (length (mutexes s))
                 (set_mutexes (mutexes s ++ [Mutex_new]) s) in
      let s := set_eventsHandledToTimestamp (Finite 0) s in
      let q := length (queues s) in
      let s := set_queue (Some q)
                 (set_queues (queues s ++ [createEventQueue h sc s]) s) in
      let s := emit eventQueueReset s in
      match setup h with
      | Some _ =>
          let s := updateQueue q (Queue_addTask SETUP) s in
          emit (eventsAdded 1 1 (eventsHandledToTimestamp s)
                  (eventsHandledToTimestamp s)) s
      | None => s
      end
  | _, _ => s
  end.

(** ** [getNewEvents] *)

Record NewEvents : Type := {
  hasNewLogs : bool;
  toTimestamp : JsNumber;
  logs : list Log;
  totalLogCount : option nat
}.

(** The callback of the first [contracts.map]: the [endBlockTimestamp] of
    the cached interval that includes the start block, or [-1]. *)
Definition cachedToTimestamp (store : CacheStore) (contract : Contract) : Z :=
  let cachedIntervals := getCachedIntervals store (contract_address contract) in
  let startingCachedInterval :=
    find (fun interval =>
            (startBlock interval <=? contract_startBlock contract)
            && (endBlock interval >=? contract_startBlock contract))
         cachedIntervals in
  match startingCachedInterval with
  | None => -1
  | Some interval => endBlockTimestamp interval
  end.

(** The callback of the second [contracts.map]: the logs of the handled
    events of one contract, and the number of all its logs in the range. *)
Definition contractLogs (s : EventHandlerService)
    (fromTimestamp toTimestamp : JsNumber) (contract : Contract)
  : Outcome (list Log * nat) :=
  let handlers :=
    match handlers s with
    | Some h => contractHandlers h
    | None => []
    end in
  let contractHandlers :=
    match lookup (contract_name contract) handlers with
    | Some hs => hs
    | None => []
    end in
  let eventNames := Object_keys contractHandlers in
  let* eventSigHashes :=
    mapO (fun eventName =>
            let* eventTopics := encodeEventTopics (contract_abi contract) eventName in
            let eventSignatureTopic := hd_error eventTopics in
            Returned eventSignatureTopic)
         eventNames in
  let logs := getLogs (cacheStore (resources s)) (contract_address contract)
                fromTimestamp toTimestamp (Some eventSigHashes) in
  let totalLogs := getLogs (cacheStore (resources s)) (contract_address contract)
                     fromTimestamp toTimestamp None in
  Returned (logs, length totalLogs).

Definition compareLogSortKey (a b : Log) : Z :=
  if logSortKey a <? logSortKey b then -1
  else if logSortKey a >? logSortKey b then 1
  else 0.

Definition getNewEvents (fromTimestamp : JsNumber) (s : EventHandlerService)
  : Outcome NewEvents :=
  let contracts := filter contract_isIndexed (contracts (resources s)) in
  let cachedToTimestamps :=
    map (cachedToTimestamp (cacheStore (resources s))) contracts in
  if Array_includes (-1) cachedToTimestamps then
    Returned {| hasNewLogs := false; logs := []; toTimestamp := fromTimestamp;
                totalLogCount := None |}
  else
    let toTimestamp := Math_min cachedToTimestamps in
    if JsNumber_leb toTimestamp fromTimestamp then
      Returned {| hasNewLogs := false; logs := []; toTimestamp := fromTimestamp;
                  totalLogCount := None |}
    else
      let* rawLogs :=
        Promise_all (map (contractLogs s fromTimestamp toTimestamp) contracts) in
      let totalLogCount := fold_left (fun n r => (n + snd r)%nat) rawLogs 0%nat in
      let logs := Array_sort compareLogSortKey (Array_flat (map fst rawLogs)) in
      Returned {| hasNewLogs := true; toTimestamp := toTimestamp; logs := logs;
                  totalLogCount := Some totalLogCount |}.

(** ** [buildLogEvent] *)

(** [`${[topic0, topic1, topic2, topic3]}`]: the elements joined by commas,
    [undefined] as the empty string. *)
Definition joinTopics (topics : list (option Hex)) : string :=
  String.concat "," (map (fun t => match t with Some h => h | None => "" end) topics).

Definition buildLogEvent (log : Log) (handlers : Handlers)
    (s : EventHandlerService)
  : EventHandlerService * Outcome (option (LogHandler * LogEvent)) :=
  match find (fun contract => String.eqb (contract_address contract) (log_address log))
             (contracts (resources s)) with
  | None =>
      (logMessage Warn
         ("Contract not found for log with address: " ++ log_address log) s,
       Returned None)
  | Some contract =>
      match lookup (contract_name contract) (contractHandlers handlers) with
      | None =>
          (logMessage Warn
             ("Handlers not found for contract: " ++ contract_name contract) s,
           Returned None)
      | Some contractHandlers =>
          match decodeEventLog
                  (filter (fun item => negb (String.eqb (abi_type item) "constructor"))
                          (contract_abi contract))
                  (log_data log)
                  [topic0 log; topic1 log; topic2 log; topic3 log] with
          | Threw e => (s, Threw e)
          | Returned None =>
              (logMessage Warn
                 ("Event log not found in ABI, data: " ++ log_data log
                  ++ " topics: "
                  ++ joinTopics [topic0 log; topic1 log; topic2 log; topic3 log]) s,
               Returned None)
          | Returned (Some (eventName, args)) =>
              let params := args in
              match lookup eventName contractHandlers with
              | None =>
                  (logMessage Trace
                     ("Handler not found for event: " ++ contract_name contract
                      ++ "-" ++ eventName) s,
                   Returned None)
              | Some handler =>
                  let s := logMessage Trace
                             ("Handling event: " ++ contract_name contract
                              ++ "-" ++ eventName) s in
                  match getBlock (cacheStore (resources s)) (blockHash log) with
                  | None =>
                      (s, Threw (Error ("Block with hash not found: "
                                        ++ blockHash log)))
                  | Some block =>
                      match getTransaction (cacheStore (resources s))
                              (transactionHash log) with
                      | None =>
                          (s, Threw (Error ("Transaction with hash not found: "
                                            ++ transactionHash log)))
                      | Some transaction =>
                          let event :=
                            {| event_name := eventName; event_params := params;
                               event_log := log; event_block := block;
                               event_transaction := transaction |} in
                          (s, Returned (Some (handler, event)))
                      end
                  end
              end
          end
      end
  end.

(** ** The worker of [createEventQueue]

    [eventHandlerWorker q task]: the worker of the queue object [q], with the
    [handlers] and [context] that the queue was created with, on one task. *)

Definition reportHandlerError (q : nat) (error : EventHandlerError)
    (s : EventHandlerService) : EventHandlerService :=
  let s := updateQueue q Queue_clear s in
  set_errors (submitHandlerError error (errors (resources s))) s.

Definition eventHandlerWorker (q : nat) (task : EventHandlerTask)
    (s : EventHandlerService) : EventHandlerService * Outcome unit :=
  match getQueue q s with
  | None => (s, Returned tt)
  | Some object =>
      let handlers := queue_handlers object in
      let context := queue_context object in
      let s := emit taskStarted s in
      match task with
      | SETUP =>
          match setup handlers with
          | None =>
              (logMessage Warn "Handler not found for event: setup" s, Returned tt)
          | Some setupHandler =>
              let '(store, thrown) := setupHandler context (entityStore (resources s)) in
              let s := set_entityStore store s in
              let s :=
                match thrown with
                | None => s
                | Some error =>
                    let '(stackTrace, codeFrame) :=
                      getStackTraceAndCodeFrame error (options (resources s)) in
                    reportHandlerError q
                      {| eventName := "setup"; blockNumber := None; params := None;
                         stackTrace := stackTrace; codeFrame := codeFrame;
                         cause := error |} s
                end in
              (emit (taskCompleted None) s, Returned tt)
          end
      | LOG log =>
          let '(s, result) := buildLogEvent log handlers s in
          match result with
          | Threw e => (s, Threw e)
          | Returned None => (s, Returned tt)
          | Returned (Some (handler, event)) =>
              let s := set_currentLogEventBlockNumber
                         (block_number (event_block event)) s in
              let '(store, thrown) :=
                handler event context (entityStore (resources s)) in
              let s := set_entityStore store s in
              let s :=
                match thrown with
                | None => s
                | Some error =>
                    let '(stackTrace, codeFrame) :=
                      getStackTraceAndCodeFrame error (options (resources s)) in
                    reportHandlerError q
                      {| eventName := event_name event;
                         blockNumber := Some (block_number (event_block event));
                         params := Some (event_params event);
                         stackTrace := stackTrace; codeFrame := codeFrame;
                         cause := error |} s
                end in
              (emit (taskCompleted (Some (block_timestamp (event_block event)))) s,
               Returned tt)
          end
      end
  end.

(** The queue object [q] takes its next task, if it is running and has one. *)
Definition Queue_runNext (q : nat) (s : EventHandlerService) : EventHandlerService :=
  match getQueue q s with
  | None => s
  | Some object =>
      match queue_isPaused object, queue_failure object, queue_tasks object with
      | false, None, task :: rest =>
          let s := updateQueue q (Queue_setTasks rest) s in
          let '(s, result) := eventHandlerWorker q task s in
          match result with
          | Returned _ => s
          | Threw e => updateQueue q (Queue_fail e) s
          end
      | _, _, _ => s
      end
  end.

Fixpoint Queue_run (n : nat) (q : nat) (s : EventHandlerService)
  : EventHandlerService :=
  match n with
  | O => s
  | S n' => Queue_run n' q (Queue_runNext q s)
  end.

(** The queue object [q] works until no task is pending: one step for each
    task pending at the start is enough, since no task adds a task. *)
Definition Queue_drain (q : nat) (s : EventHandlerService) : EventHandlerService :=
  match getQueue q s with
  | None => s
  | Some object => Queue_run (length (queue_tasks object)) q s
  end.

(** ** [processEvents]

    One call of [processEvents] is a cycle.  It is suspended at its [await]s:
    for the lock, for [getNewEvents], for the queue to be empty.  Between two
    of its steps other calls of the service may run. *)

Inductive Cycle : Type :=
| AwaitingLock (m ticket : nat)
| AwaitingNewEvents (m : nat) (fromTimestamp : JsNumber)
| AwaitingQueueEmpty (m q : nat) (logs : list Log) (toTimestamp : JsNumber)
| Completed (result : Outcome unit).

(** The [catch] of [processEvents]: [E_CANCELED] is ignored, anything else
    is thrown again. *)
Definition catchCanceled (result : Outcome unit) : Outcome unit :=
  match result with
  | Threw E_CANCELED => Returned tt
  | _ => result
  end.

(** The call, up to the [await] inside [runExclusive]. *)
Definition processEvents_call (s : EventHandlerService)
  : Cycle * EventHandlerService :=
  if negb (isBackfillStarted s) then (Completed (Returned tt), s)
  else if isHandlerError (errors (resources s)) then (Completed (Returned tt), s)
  else
    let m := eventProcessingMutex s in
    let '(ticket, mutex) := Mutex_acquire (getMutex m s) in
    (AwaitingLock m ticket, updateMutex m (fun _ => mutex) s).

(** The callback of [runExclusive] returns or throws: the lock is released
    and the [catch] of [processEvents] sees the result. *)
Definition leaveExclusive (m : nat) (result : Outcome unit)
    (s : EventHandlerService) : Cycle * EventHandlerService :=
  (Completed (catchCanceled result), updateMutex m Mutex_release s).

(** The cycle goes on from where it is suspended, if what it waits for has
    happened. *)
Definition resume (cycle : Cycle) (s : EventHandlerService)
  : Cycle * EventHandlerService :=
  match cycle with
  | AwaitingLock m ticket =>
      let mutex := getMutex m s in
      if existsb (Nat.eqb ticket) (mutex_cancelled mutex) then
        (Completed (catchCanceled (Threw E_CANCELED)), s)
      else
        match mutex_holder mutex with
        | Some holder =>
            if Nat.eqb holder ticket then
              match queue s with
              | None => leaveExclusive m (Returned tt) s
              | Some _ => (AwaitingNewEvents m (eventsHandledToTimestamp s), s)
              end
            else (cycle, s)
        | None => (cycle, s)
        end
  | AwaitingNewEvents m fromTimestamp =>
      match getNewEvents fromTimestamp s with
      | Threw e => leaveExclusive m (Threw e) s
      | Returned newEvents =>
          if negb (hasNewLogs newEvents) then leaveExclusive m (Returned tt) s
          else
            match queue s with
            | None =>
                leaveExclusive m
                  (Threw (TypeError
                     "Cannot read properties of undefined (reading 'addTask')")) s
            | Some q =>
                let s := fold_left
                           (fun s log => updateQueue q (Queue_addTask (LOG log)) s)
                           (logs newEvents) s in
                let s := emit (eventsAdded
                                 (length (logs newEvents))
                                 (match totalLogCount newEvents with
                                  | Some n => n
                                  | None => length (logs newEvents)
                                  end)
                                 (eventsHandledToTimestamp s)
                                 (toTimestamp newEvents)) s in
                let s := updateQueue q Queue_start s in
                (AwaitingQueueEmpty m q (logs newEvents) (toTimestamp newEvents), s)
            end
      end
  | AwaitingQueueEmpty m q logs toTimestamp =>
      match getQueue q s with
      | None => (cycle, s)
      | Some object =>
          match queue_failure object, queue_tasks object with
          | Some e, _ => leaveExclusive m (Threw e) s
          | None, _ :: _ => (cycle, s)
          | None, [] =>
              match queue s with
              | None =>
                  leaveExclusive m
                    (Threw (TypeError
                       "Cannot read properties of undefined (reading 'pause')")) s
              | Some current =>
                  let s := updateQueue current Queue_pause s in
                  let s := set_eventsHandledToTimestamp toTimestamp s in
                  let s := emit (eventsProcessed (length logs) toTimestamp) s in
                  leaveExclusive m (Returned tt) s
              end
          end
      end
  | Completed _ => (cycle, s)
  end.

(** A call of [processEvents] that nothing interleaves with: the lock, then
    [getNewEvents], then the queue works until it is empty, then the rest. *)
Definition processEvents (s : EventHandlerService) : Cycle * EventHandlerService :=
  let '(cycle, s) := processEvents_call s in
  let '(cycle, s) := resume cycle s in
  let '(cycle, s) := resume cycle s in
  match cycle with
  | AwaitingQueueEmpty _ q _ _ => resume cycle (Queue_drain q s)
  | _ => (cycle, s)
  end.

(** ** Vocabulary of the specification *)

(** The interval contains the configured start block of the contract. *)
Definition covers (interval : CachedInterval) (contract : Contract) : Prop :=
  startBlock interval <= contract_startBlock contract <= endBlock interval.

Definition disjointIntervals (a b : CachedInterval) : Prop :=
  endBlock a < startBlock b \/ endBlock b < startBlock a.

Definition indexedContracts (s : EventHandlerService) : list Contract :=
  filter contract_isIndexed (contracts (resources s)).

Definition cachedIntervalsOf (s : EventHandlerService) (contract : Contract)
  : list CachedInterval :=
  getCachedIntervals (cacheStore (resources s)) (contract_address contract).

(** The cached intervals of every indexed source are pairwise disjoint and
    end at non-negative timestamps. *)
Definition cacheWellFormed (s : EventHandlerService) : Prop :=
  forall contract, In contract (indexedContracts s) ->
    ForallOrdPairs disjointIntervals (cachedIntervalsOf s contract)
    /\ Forall (fun interval => 0 <= endBlockTimestamp interval)
         (cachedIntervalsOf s contract).

(** [t] is the bound of the source: the [endBlockTimestamp] of a cached
    interval that contains its start block. *)
Definition sourceBound (s : EventHandlerService) (contract : Contract) (t : Z)
  : Prop :=
  exists interval,
    In interval (cachedIntervalsOf s contract)
    /\ covers interval contract
    /\ endBlockTimestamp interval = t.

(** No cached interval of the source contains its start block. *)
Definition uncovered (s : EventHandlerService) (contract : Contract) : Prop :=
  forall interval,
    In interval (cachedIntervalsOf s contract) -> ~ covers interval contract.

(** [m] is the minimum over the indexed sources of their bounds. *)
Definition minimumBound (s : EventHandlerService) (m : Z) : Prop :=
  (exists contract, In contract (indexedContracts s) /\ sourceBound s contract m)
  /\ (forall contract, In contract (indexedContracts s) ->
        exists t, sourceBound s contract t /\ m <= t).

(** What [getNewEvents] returns when there is nothing new. *)
Definition noNewEvents (fromTimestamp : JsNumber) : NewEvents :=
  {| hasNewLogs := false; logs := []; toTimestamp := fromTimestamp;
     totalLogCount := None |}.

(** Every event name that has a handler is an event of the ABI of its
    contract, so that [encodeEventTopics] returns its topics. *)
Definition handledEventsEncode (s : EventHandlerService) : Prop :=
  forall contract, In contract (indexedContracts s) ->
    forall eventName,
      In eventName
         (Object_keys
            (match lookup (contract_name contract)
                     (match handlers s with
                      | Some h => contractHandlers h
                      | None => []
                      end) with
             | Some hs => hs
             | None => []
             end)) ->
      exists topics,
        encodeEventTopics (contract_abi contract) eventName = Returned topics.

(** The log resolves to a handler: its contract is configured, the contract
    has handlers, the log decodes against the ABI and the decoded event has a
    handler. *)
Definition resolvesTo (s : EventHandlerService) (handlers : Handlers)
    (log : Log) (handler : LogHandler) (eventName : string) (args : Params)
  : Prop :=
  exists contract handlersOfContract,
    find (fun contract => String.eqb (contract_address contract) (log_address log))
         (contracts (resources s)) = Some contract
    /\ lookup (contract_name contract) (contractHandlers handlers)
       = Some handlersOfContract
    /\ decodeEventLog
         (filter (fun item => negb (String.eqb (abi_type item) "constructor"))
                 (contract_abi contract))
         (log_data log) [topic0 log; topic1 log; topic2 log; topic3 log]
       = Returned (Some (eventName, args))
    /\ lookup eventName handlersOfContract = Some handler.

(** The log misses its contract or the handlers of its contract, or
    [decodeEventLog] returns no event for it, or the event decoded has no
    handler.  A log for which [decodeEventLog] throws is not of these. *)
Definition missesHandler (s : EventHandlerService) (handlers : Handlers)
    (log : Log) : Prop :=
  match find (fun contract => String.eqb (contract_address contract) (log_address log))
             (contracts (resources s)) with
  | None => True
  | Some contract =>
      match lookup (contract_name contract) (contractHandlers handlers) with
      | None => True
      | Some handlersOfContract =>
          match decodeEventLog
                  (filter (fun item => negb (String.eqb (abi_type item) "constructor"))
                          (contract_abi contract))
                  (log_data log)
                  [topic0 log; topic1 log; topic2 log; topic3 log] with
          | Returned None => True
          | Returned (Some (eventName, _)) =>
              lookup eventName handlersOfContract = None
          | Threw _ => False
          end
      end
  end.


(** No cycle holds or waits for the current mutex. *)
Definition mutexIdle (s : EventHandlerService) : Prop :=
  (eventProcessingMutex s < length (mutexes s))%nat
  /\ mutex_holder (getMutex (eventProcessingMutex s) s) = None
  /\ mutex_waiting (getMutex (eventProcessingMutex s) s) = []
  /\ Forall (fun ticket =>
               (ticket < mutex_issued (getMutex (eventProcessingMutex s) s))%nat)
            (mutex_cancelled (getMutex (eventProcessingMutex s) s)).

(** The state after a cycle that took the lock and gave it back. *)
Definition lockTakenAndReleased (s : EventHandlerService) : EventHandlerService :=
  let m := eventProcessingMutex s in
  updateMutex m Mutex_release
    (updateMutex m (fun _ => snd (Mutex_acquire (getMutex m s))) s).

(** The error that the worker reports for a handler that throws. *)
Definition handlerErrorOf (s : EventHandlerService) (event : LogEvent)
    (error : JsError) : EventHandlerError :=
  {| eventName := event_name event;
     blockNumber := Some (block_number (event_block event));
     params := Some (event_params event);
     stackTrace := fst (getStackTraceAndCodeFrame error (options (resources s)));
     codeFrame := snd (getStackTraceAndCodeFrame error (options (resources s)));
     cause := error |}.

(** The queue that [resetEventQueue] builds, with its first task. *)
Definition freshQueue (h : Handlers) (sc : Schema) (s : EventHandlerService) : Queue :=
  {| queue_handlers := h;
     queue_context := buildContext sc s;
     queue_tasks := match setup h with Some _ => [SETUP] | None => [] end;
     queue_isPaused := true;
     queue_failure := None |}.

(** The handlers and the schema that a reset works with: the new ones, or
    else the ones that the service has. *)
Definition orElse {A} (new old : option A) : option A :=
  match new with
  | Some x => Some x
  | None => old
  end.

(** The number of tasks started among the events emitted. *)
Definition tasksStarted (events : list Emitted) : nat :=
  length (filter (fun e => match e with taskStarted => true | _ => false end) events).

(** Whether [eventsProcessed] is among the events emitted. *)
Definition emitsEventsProcessed (events : list Emitted) : bool :=
  existsb (fun e => match e with eventsProcessed _ _ => true | _ => false end) events.

(** What the tasks of a queue leave alone: the fields of the service other
    than the resources, the block number of the current log, the contents of
    the queue objects and the events emitted. *)
Definition sameControl (s s' : EventHandlerService) : Prop :=
  handlers s' = handlers s
  /\ schema s' = schema s
  /\ queue s' = queue s
  /\ injectedContracts s' = injectedContracts s
  /\ isBackfillStarted s' = isBackfillStarted s
  /\ eventProcessingMutex s' = eventProcessingMutex s
  /\ eventsHandledToTimestamp s' = eventsHandledToTimestamp s
  /\ mutexes s' = mutexes s
  /\ length (queues s') = length (queues s)
  /\ contracts (resources s') = contracts (resources s)
  /\ cacheStore (resources s') = cacheStore (resources s).


End Service.

(** ** A small deployment for concrete runs

    One indexed contract [Pair] from block 100 with the cached interval
    [100..200] ending at timestamp 5000, [Swap] logs given out of order, and
    a [Swap] handler that appends the data of the log to the store and throws
    on the data ["0xboom"]. *)

Definition sampleExternals : Externals := {|
  Params := Hex;
  EntityStore := list Hex;
  Options := unit;
  encodeEventTopics := fun abi eventName =>
    if existsb (fun item => String.eqb (abi_name item) eventName) abi
    then Returned ["0x" ++ eventName]
    else Threw (Error "AbiEventNotFoundError");
  decodeEventLog := fun abi data topics =>
    match topics with
    | Some t0 :: _ =>
        match find (fun item => String.eqb ("0x" ++ abi_name item) t0) abi with
        | Some item => Returned (Some (abi_name item, data))
        | None => Threw (Error "AbiEventSignatureNotFoundError")
        end
    | _ => Returned None
    end;
  getStackTraceAndCodeFrame := fun _ _ => ("stack", "frame")
|}.

Definition pairContract : Contract := {|
  contract_name := "Pair";
  contract_address := "0xpair";
  contract_abi := [ {| abi_type := "constructor"; abi_name := "" |};
                    {| abi_type := "event"; abi_name := "Swap" |};
                    {| abi_type := "event"; abi_name := "Sync" |} ];
  contract_startBlock := 100;
  contract_isIndexed := true
|}.

Definition swapLog (key : Z) (data blockHash : Hex) : Log := {|
  logSortKey := key;
  log_address := "0xpair";
  log_data := data;
  topic0 := Some "0xSwap";
  topic1 := None; topic2 := None; topic3 := None;
  blockHash := blockHash;
  transactionHash := "0xtx"
|}.


Definition sampleLogs : list Log := [
  swapLog 30 "0xboom" "0xb3";
  swapLog 10 "0x01" "0xb1";
  swapLog 50 "0x05" "0xb5";
  swapLog 20 "0x02" "0xb2";
  swapLog 40 "0x04" "0xb4"
].

Definition blockOf (hash : Hex) : option Block :=
  match find (fun b => String.eqb (fst b) hash)
          [("0xb1", 101); ("0xb2", 102); ("0xb3", 103); ("0xb4", 104);
           ("0xb5", 105)] with
  | Some (_, number) =>
      Some {| block_hash := hash; block_number := number;
              block_timestamp := 1000 + number |}
  | None => None
  end.

Definition sampleCacheStore (intervals : list CachedInterval) (logs : list Log)
  : CacheStore := {|
  getCachedIntervals := fun address =>
    if String.eqb address "0xpair" then intervals else [];
  getLogs := fun address _ _ eventSigHashes =>
    if String.eqb address "0xpair" then
      match eventSigHashes with
      | Some hashes =>
          filter (fun log =>
                    existsb (fun h => match h, topic0 log with
                                      | Some a, Some b => String.eqb a b
                                      | _, _ => false
                                      end) hashes)
                 logs
      | None => logs
      end
    else [];
  getBlock := blockOf;
  getTransaction := fun hash =>
    if String.eqb hash "0xtx" then Some {| transaction_hash := hash |} else None
|}.

Definition swapHandler : LogHandler (ext := sampleExternals) :=
  fun event _ (store : list Hex) =>
    ((store ++ [event_params event])%list,
     if String.eqb (event_params event) "0xboom"
     then Some (Error "boom") else None).

Definition setupHandler : SetupHandler (ext := sampleExternals) :=
  fun _ (store : list Hex) => ((store ++ ["setup"])%list, None).

Definition sampleHandlers : Handlers (ext := sampleExternals) := {|
  setup := Some setupHandler;
  contractHandlers := [("Pair", [("Swap", swapHandler)])]
|}.

Definition sampleSchema : Schema := {| entities := [ {| entity_name := "Trade" |} ] |}.

Definition sampleResources (intervals : list CachedInterval) (logs : list Log)
  : Resources (ext := sampleExternals) :=
  @Build_Resources sampleExternals
    [pairContract] (sampleCacheStore intervals logs) tt
    {| handlerErrors := []; isHandlerError := false |} [] [].

(** The service after construction, the start of the backfill and a first
    [resetEventQueue] with the handlers and the schema. *)
Definition sampleService (intervals : list CachedInterval) (logs : list Log)
  : EventHandlerService (ext := sampleExternals) :=
  resetEventQueue (Some sampleHandlers) (Some sampleSchema)
    (set_isBackfillStarted true
       (new_EventHandlerService (sampleResources intervals logs))).

(** The same deployment with no contract at all. *)
Definition sampleWithoutContracts : EventHandlerService (ext := sampleExternals) :=
  resetEventQueue (Some sampleHandlers) (Some sampleSchema)
    (set_isBackfillStarted true
       (new_EventHandlerService
          (@Build_Resources sampleExternals
             [] (sampleCacheStore [] []) tt
             {| handlerErrors := []; isHandlerError := false |} [] []))).

Definition sampleIntervals : list CachedInterval :=
  [ {| startBlock := 100; endBlock := 200; endBlockTimestamp := 5000 |} ].

(** Logs that no handler rejects. *)
Definition calmLogs : list Log := [
  swapLog 20 "0x02" "0xb2";
  swapLog 10 "0x01" "0xb1"
].

(** [sampleLogs] in the order of their sort keys. *)
Definition sortedSampleLogs : list Log := [
  swapLog 10 "0x01" "0xb1";
  swapLog 20 "0x02" "0xb2";
  swapLog 30 "0xboom" "0xb3";
  swapLog 40 "0x04" "0xb4";
  swapLog 50 "0x05" "0xb5"
].

(** The sample service in the middle of a cycle: the logs are on the queue
    behind the setup task, and the queue has been started. *)
Definition sampleStarted : EventHandlerService (ext := sampleExternals) :=
  let '(cycle, s) := processEvents_call (sampleService sampleIntervals sampleLogs) in
  let '(cycle, s) := resume cycle s in
  snd (resume cycle s).

(** The sample service after a whole cycle over the calm logs. *)
Definition sampleSettled : EventHandlerService (ext := sampleExternals) :=
  snd (processEvents (sampleService sampleIntervals calmLogs)).

(** The sample service after two calls of [processEvents]: the first call
    has the lock (ticket 0), the second waits for it (ticket 1). *)
Definition sampleContended : EventHandlerService (ext := sampleExternals) :=
  let '(_, s) := processEvents_call (sampleService sampleIntervals calmLogs) in
  snd (processEvents_call s).

(** The sample service before its first [resetEventQueue]. *)
Definition sampleFresh : EventHandlerService (ext := sampleExternals) :=
  set_isBackfillStarted true
    (new_EventHandlerService (sampleResources sampleIntervals sampleLogs)).

(** Handlers of which one is registered for [Burn], an event that the ABI
    of [Pair] does not have, and the sample service with them. *)
Definition strayHandlers : Handlers (ext := sampleExternals) := {|
  setup := None;
  contractHandlers := [("Pair", [("Swap", swapHandler); ("Burn", swapHandler)])]
|}.

Definition sampleStray : EventHandlerService (ext := sampleExternals) :=
  resetEventQueue (Some strayHandlers) (Some sampleSchema) sampleFresh.


End EventHandlerService.

(* ===================================================================== *)
(** * Properties of the conversion utilities                              *)
(* ===================================================================== *)

Module ConversionFacts.
Import Conversion.

Local Open Scope string_scope.

Lemma append_assoc (a b c : string) : (a ++ b) ++ c = a ++ (b ++ c).
Proof. induction a as [|x a IH]; simpl; [reflexivity | now rewrite IH]. Qed.

Lemma append_empty_r (a : string) : a ++ "" = a.
Proof. induction a as [|x a IH]; simpl; [reflexivity | now rewrite IH]. Qed.

(** The [reduce] of [bytesToHex] appends the digits of each byte in turn. *)
Lemma reduce_hexOfByte (bytes : Uint8Array) (acc : string) :
  fold_left (fun str byte => str ++ hexOfByte byte) bytes acc
  = acc ++ String.concat "" (map hexOfByte bytes) ++ ""
  /\ fold_left (fun str byte => str ++ hexOfByte byte) bytes acc
     = acc ++ fold_right (fun byte str => hexOfByte byte ++ str) "" bytes.
Proof.
  assert (H : fold_left (fun str byte => str ++ hexOfByte byte) bytes acc
              = acc ++ fold_right (fun byte str => hexOfByte byte ++ str) "" bytes).
  { revert acc. induction bytes as [|b bytes IH]; intros acc; simpl.
    - now rewrite append_empty_r.
    - rewrite IH. apply append_assoc. }
  split; [|exact H]. rewrite H. f_equal.
  clear H. induction bytes as [|b bytes IH]; simpl; [reflexivity|].
  destruct bytes as [|b' bytes].
  - simpl. reflexivity.
  - rewrite IH. cbn [map String.concat]. now rewrite !append_assoc.
Qed.

(** Each byte is written as exactly two characters, none a line terminator,
    from which [parseInt] reads the byte back. *)
Lemma hexOfByte_two_digits (b : Byte.byte) :
  exists c1 c2,
    hexOfByte b = String c1 (String c2 "")
    /\ isLineTerminator c1 = false /\ isLineTerminator c2 = false
    /\ ToUint8 (parseInt16 (String c1 (String c2 ""))) = b.
Proof.
  destruct b;
    (eexists; eexists; split; [vm_compute; reflexivity|];
     split; [reflexivity|]; split; reflexivity).
Qed.

Lemma matchAll_hexOfByte (b : Byte.byte) (rest : string) :
  matchAll_dot_1_2 (hexOfByte b ++ rest) = hexOfByte b :: matchAll_dot_1_2 rest.
Proof.
  destruct (hexOfByte_two_digits b) as (c1 & c2 & -> & H1 & H2 & _).
  simpl. now rewrite H1, H2.
Qed.

Lemma matchAll_digits (bytes : Uint8Array) :
  matchAll_dot_1_2 (fold_right (fun byte str => hexOfByte byte ++ str) "" bytes)
  = map hexOfByte bytes.
Proof.
  induction bytes as [|b bytes IH]; [reflexivity|].
  cbn [fold_right map]. now rewrite matchAll_hexOfByte, IH.
Qed.

Lemma ToUint8_parseInt16_hexOfByte (b : Byte.byte) :
  ToUint8 (parseInt16 (hexOfByte b)) = b.
Proof.
  destruct (hexOfByte_two_digits b) as (c1 & c2 & -> & _ & _ & H). exact H.
Qed.

Lemma bytesToHex_digits (bytes : Uint8Array) :
  bytesToHex bytes
  = "0x" ++ fold_right (fun byte str => hexOfByte byte ++ str) "" bytes.
Proof.
  unfold bytesToHex. now rewrite (proj2 (reduce_hexOfByte bytes "")).
Qed.

Lemma startsWith_0x (s : string) : String.prefix "0x" ("0x" ++ s) = true.
Proof. destruct s; reflexivity. Qed.

(** C10.  [hexToBytes] is a left inverse of [bytesToHex] on every non-empty
    [Uint8Array]: the two digits written for each byte are read back as that
    byte.  On the empty array [bytesToHex] yields ["0x"], the regular
    expression finds no match and [hexToBytes] throws instead of returning a
    value. *)
Theorem hexToBytes_bytesToHex :
  (forall bytes : Uint8Array,
      bytes <> [] -> hexToBytes (bytesToHex bytes) = Returned bytes)
  /\ (exists e, hexToBytes (bytesToHex []) = Threw e).
Proof.
  split.
  - intros bytes Hne. rewrite bytesToHex_digits. unfold hexToBytes.
    cbv beta zeta. rewrite startsWith_0x.
    change (String_slice 2 ("0x" ++ ?s)) with s.
    unfold String_match_dot_1_2. rewrite matchAll_digits.
    destruct bytes as [|b bytes]; [congruence|].
    cbn [map]. f_equal. unfold Uint8Array_from.
    change (map ToUint8 (map (fun byte => parseInt16 byte) (map hexOfByte (b :: bytes)))
            = b :: bytes).
    rewrite !map_map. rewrite <- (map_id (b :: bytes)) at 2.
    apply map_ext. intros a. apply ToUint8_parseInt16_hexOfByte.
  - eexists. reflexivity.
Qed.

Lemma hexToBytes_bytesToHex_witness :
  hexToBytes (bytesToHex [Byte.x00; Byte.xff; Byte.x0a])
  = Returned [Byte.x00; Byte.xff; Byte.x0a].
Proof.
  apply (proj1 hexToBytes_bytesToHex). discriminate.
Defined.

End ConversionFacts.

(* ===================================================================== *)
(** * Properties of the event decoder                                     *)
(* ===================================================================== *)

Module EventDecoderWorkerFacts.
Import EventDecoderWorker.

Local Open Scope string_scope.

Section Decoder.
Context {viem : Viem}.

Lemma decodeLogRow_key name abiEvents ev e :
  decodeLogRow name abiEvents ev = Returned e -> eventKey e = rawKey ev.
Proof.
  unfold decodeLogRow.
  destruct (raw_log ev) as [log|]; [|discriminate].
  destruct (hd_error (topics log)) as [topic0|]; [|discriminate].
  destruct (String.eqb topic0 ""); [discriminate|].
  destruct (lookupSelector topic0 abiEvents) as [entry|]; [|discriminate].
  destruct (decodeEventLog _ _ _); cbn; [|discriminate].
  intros [= <-]. reflexivity.
Qed.

Lemma decodeTraceRow_key name abiFunctions ev e :
  decodeTraceRow name abiFunctions ev = Returned e -> eventKey e = rawKey ev.
Proof.
  unfold decodeTraceRow.
  destruct (raw_trace ev) as [trace|]; [|discriminate].
  destruct (lookupSelector _ abiFunctions) as [entry|]; [|discriminate].
  destruct (decodeFunctionData _ _) as [[args functionName]|]; cbn; [|discriminate].
  destruct (decodeFunctionResult _ _ _); cbn; [|discriminate].
  intros [= <-]. reflexivity.
Qed.

Lemma decodeLogRow_returns name abiEvents ev sources filler :
  nth_error sources (sourceIndex ev)
    = Some (ContractSource name FilterLog abiEvents filler) ->
  returns (decodeLogRow name abiEvents ev) = successfullyDecoded sources ev.
Proof.
  intros Hsrc. unfold successfullyDecoded, decodeLogRow. rewrite Hsrc.
  destruct (raw_log ev) as [log|]; [|reflexivity].
  destruct (topics log) as [|topic0 rest]; [reflexivity|]. cbn [hd_error].
  destruct (String.eqb topic0 ""); [reflexivity|]. cbn [negb andb].
  destruct (lookupSelector topic0 abiEvents) as [entry|]; [|reflexivity].
  destruct (decodeEventLog _ _ _); reflexivity.
Qed.

Lemma decodeTraceRow_returns name abiFunctions ev sources filler :
  nth_error sources (sourceIndex ev)
    = Some (ContractSource name FilterCallTrace filler abiFunctions) ->
  returns (decodeTraceRow name abiFunctions ev) = successfullyDecoded sources ev.
Proof.
  intros Hsrc. unfold successfullyDecoded, decodeTraceRow. rewrite Hsrc.
  destruct (raw_trace ev) as [trace|]; [|reflexivity].
  destruct (lookupSelector _ abiFunctions) as [entry|]; [|reflexivity].
  destruct (decodeFunctionData _ _) as [[args functionName]|]; [|reflexivity].
  cbn. destruct (decodeFunctionResult _ _ _); reflexivity.
Qed.

(** One iteration pushes one event for a row that decodes and nothing for
    any other row whose source exists. *)
Lemma processEvent_in_range sources decodedEvents ev :
  sourceIndex ev < length sources ->
  exists out,
    processEvent sources decodedEvents ev = Returned (decodedEvents ++ out)%list
    /\ map eventKey out
       = if successfullyDecoded sources ev then [rawKey ev] else [].
Proof.
  intros Hlt. unfold processEvent.
  destruct (nth_error sources (sourceIndex ev)) as [source|] eqn:Hsrc.
  2:{ apply nth_error_None in Hsrc. lia. }
  destruct source as [name | name [|] abiEvents abiFunctions].
  - eexists. split; [reflexivity|].
    unfold successfullyDecoded. rewrite Hsrc. reflexivity.
  - rewrite <- (decodeLogRow_returns _ _ _ _ _ Hsrc).
    destruct (decodeLogRow name abiEvents ev) as [e|err] eqn:Hrow; cbn.
    + exists [e]. split; [reflexivity|].
      cbn. now rewrite (decodeLogRow_key _ _ _ _ Hrow).
    + exists []. now rewrite app_nil_r.
  - rewrite <- (decodeTraceRow_returns _ _ _ _ _ Hsrc).
    destruct (decodeTraceRow name abiFunctions ev) as [e|err] eqn:Hrow; cbn.
    + exists [e]. split; [reflexivity|].
      cbn. now rewrite (decodeTraceRow_key _ _ _ _ Hrow).
    + exists []. now rewrite app_nil_r.
Qed.

Lemma processEvents_loop_in_range sources events :
  Forall (fun ev => sourceIndex ev < length sources) events ->
  forall decodedEvents,
  exists out,
    processEvents_loop sources events decodedEvents
      = Returned (decodedEvents ++ out)%list
    /\ map eventKey out
       = map rawKey (filter (successfullyDecoded sources) events).
Proof.
  induction 1 as [|ev events Hev _ IH]; intros decodedEvents.
  - exists []. cbn. now rewrite app_nil_r.
  - destruct (processEvent_in_range sources decodedEvents ev Hev)
      as (out1 & Hstep & Hkey1).
    destruct (IH (decodedEvents ++ out1)%list) as (out2 & Hloop & Hkey2).
    exists (out1 ++ out2)%list. cbn [processEvents_loop]. rewrite Hstep. cbn [bindO].
    rewrite Hloop, app_assoc. split; [reflexivity|].
    rewrite map_app, Hkey1, Hkey2. cbn [filter].
    destruct (successfullyDecoded sources ev); reflexivity.
Qed.

(** Splitting a batch splits its decoding, as long as the first part
    decodes. *)
Lemma processEvents_loop_app sources events1 events2 decodedEvents :
  processEvents_loop sources (events1 ++ events2) decodedEvents
  = (let* d := processEvents_loop sources events1 decodedEvents in
     processEvents_loop sources events2 d).
Proof.
  revert decodedEvents. induction events1 as [|ev events1 IH]; intros d; cbn.
  - reflexivity.
  - destruct (processEvent sources d ev); cbn; [apply IH | reflexivity].
Qed.

Lemma processEvent_acc sources ev decodedEvents :
  processEvent sources decodedEvents ev
  = (let* o := processEvent sources [] ev in Returned (decodedEvents ++ o)%list).
Proof.
  unfold processEvent.
  destruct (nth_error sources (sourceIndex ev)) as [[name|name [|] a f]|];
    cbn; try reflexivity.
  - destruct (decodeLogRow name a ev); cbn; [reflexivity | now rewrite app_nil_r].
  - destruct (decodeTraceRow name f ev); cbn; [reflexivity | now rewrite app_nil_r].
Qed.

(** The loop only appends to [decodedEvents]. *)
Lemma processEvents_loop_acc sources events :
  forall decodedEvents,
  processEvents_loop sources events decodedEvents
  = (let* o := processEvents_loop sources events [] in
     Returned (decodedEvents ++ o)%list).
Proof.
  induction events as [|ev events IH]; intros d; cbn.
  - now rewrite app_nil_r.
  - rewrite (processEvent_acc sources ev d).
    destruct (processEvent sources [] ev) as [o|]; cbn; [|reflexivity].
    rewrite (IH (d ++ o)%list), (IH o).
    destruct (processEvents_loop sources events []) as [r|]; cbn; [|reflexivity].
    now rewrite app_assoc.
Qed.

(** Decoding a batch in two parts and concatenating gives the decoding of
    the whole batch. *)
Lemma processEvents_app sources events1 events2 :
  processEvents (events1 ++ events2) sources
  = (let* o1 := processEvents events1 sources in
     let* o2 := processEvents events2 sources in
     Returned (o1 ++ o2)%list).
Proof.
  unfold processEvents. rewrite processEvents_loop_app.
  destruct (processEvents_loop sources events1 []) as [o1|]; cbn; [|reflexivity].
  apply processEvents_loop_acc.
Qed.

(** C4 (as amended).  For every source list and every batch whose rows all
    carry a [sourceIndex] inside the source list, [processEvents] returns, and
    the events returned are, in order, one per row that decodes, each with the
    [chainId] and [checkpoint] of its row: a row whose selector has no ABI
    entry or whose decoding throws contributes nothing, no row contributes
    twice, and the number of events is the number of rows that decode. *)
Theorem processEvents_one_event_per_decoded_row
    (events : list RawEvent) (sources : list Source) :
  Forall (fun ev => sourceIndex ev < length sources) events ->
  exists out,
    processEvents events sources = Returned out
    /\ map eventKey out = map rawKey (filter (successfullyDecoded sources) events)
    /\ length out = length (filter (successfullyDecoded sources) events).
Proof.
  intros Hrange.
  destruct (processEvents_loop_in_range sources events Hrange [])
    as (out & Hrun & Hkeys).
  exists out. split; [exact Hrun|]. split; [exact Hkeys|].
  rewrite <- (length_map eventKey out), Hkeys. apply length_map.
Qed.

(** A row whose [sourceIndex] is outside the source list makes the whole
    call throw, whatever the other rows are. *)
Lemma processEvents_missing_source (events : list RawEvent) (sources : list Source) :
  Exists (fun ev => length sources <= sourceIndex ev) events ->
  exists e, processEvents events sources = Threw e.
Proof.
  unfold processEvents. generalize (@nil Event).
  induction events as [|ev events IH]; intros d Hex.
  - inversion Hex.
  - cbn. destruct (processEvent sources d ev) as [d'|e] eqn:Hstep; cbn.
    + apply IH. inversion Hex as [? ? Hbad|]; [|assumption]. exfalso.
      unfold processEvent in Hstep.
      apply nth_error_None in Hbad. rewrite Hbad in Hstep. discriminate.
    + now exists e.
Qed.

End Decoder.

Lemma processEvents_one_event_per_decoded_row_witness :
  exists out,
    processEvents (viem := viemZ) sampleBatch sampleSources = Returned out
    /\ map eventKey out
       = map rawKey (filter (successfullyDecoded sampleSources) sampleBatch)
    /\ length out
       = length (filter (successfullyDecoded sampleSources) sampleBatch).
Proof.
  apply processEvents_one_event_per_decoded_row.
  repeat (constructor; [cbn; lia|]). constructor.
Defined.

(** The batch of one block row with source index 0, decoded against the
    empty source list: [processEvents] throws, so it returns no event list at
    all, let alone one event per decoded row. *)
Lemma processEvents_missing_source_counterexample :
  processEvents (viem := viemZ) [sampleRow 0 "a" None None] []
  = Threw (TypeError "Cannot read properties of undefined (reading 'type')")
  /\ ~ (exists out,
          processEvents (viem := viemZ) [sampleRow 0 "a" None None] []
          = Returned out
          /\ length out
             = length (filter (successfullyDecoded (viem := viemZ) [])
                         [sampleRow 0 "a" None None])).
Proof.
  split; [reflexivity|]. intros (out & Hrun & _). discriminate Hrun.
Qed.

End EventDecoderWorkerFacts.

(* ===================================================================== *)
(** * Properties of the worker pool                                       *)
(* ===================================================================== *)

Module WorkerPoolFacts.
Import EventDecoderWorker WorkerPool.

(** [Math_ceil_div a b] is the least [n] with [a <= n * b]. *)
Lemma Math_ceil_div_least (a b : nat) :
  0 < b ->
  a <= Math_ceil_div a b * b
  /\ forall n, a <= n * b -> Math_ceil_div a b <= n.
Proof.
  intros Hb. unfold Math_ceil_div.
  pose proof (Nat.div_mod_eq a b) as Hdm.
  pose proof (Nat.mod_upper_bound a b ltac:(lia)) as Hmod.
  destruct (Nat.eqb_spec (a mod b) 0) as [Hz|Hnz];
    (split; [nia | intros n Hn; nia]).
Qed.

Section Chunks.
Context {A : Type}.

Lemma Array_slice_window (i size : nat) (l : list A) :
  Array_slice (i * size) ((i + 1) * size) l = firstn size (skipn (i * size) l).
Proof. unfold Array_slice. f_equal. nia. Qed.

(** The slices of [l] are its first [size] elements followed by the slices
    of the remainder. *)
Lemma slices_succ (size n : nat) (l : list A) :
  slices size (S n) l = firstn size l :: slices size n (skipn size l).
Proof.
  unfold slices. cbn [seq map]. rewrite Array_slice_window. cbn [Nat.mul skipn].
  f_equal. rewrite <- seq_shift, map_map. apply map_ext. intros i.
  rewrite !Array_slice_window, skipn_skipn. do 2 f_equal. lia.
Qed.

Lemma firstn_plus (a b : nat) (l : list A) :
  firstn (a + b) l = firstn a l ++ firstn b (skipn a l).
Proof.
  revert l. induction a as [|a IH]; intros [|x l]; cbn;
    rewrite ?firstn_nil; try reflexivity.
  now rewrite IH.
Qed.

Lemma concat_slices (size n : nat) (l : list A) :
  concat (slices size n l) = firstn (n * size) l.
Proof.
  revert l. induction n as [|n IH]; intros l.
  - reflexivity.
  - rewrite slices_succ. cbn [concat Nat.mul]. now rewrite IH, firstn_plus.
Qed.

Lemma concat_filter_nonEmpty (ls : list (list A)) :
  concat (filter nonEmpty ls) = concat ls.
Proof.
  induction ls as [|c ls IH]; [reflexivity|]. cbn.
  destruct c as [|x c]; cbn; [exact IH | now rewrite IH].
Qed.

Lemma filter_slices_nil (size n : nat) :
  filter nonEmpty (slices size n (@nil A)) = [].
Proof.
  induction n as [|n IH]; [reflexivity|].
  rewrite slices_succ, firstn_nil, skipn_nil. exact IH.
Qed.

(** Every sub-chunk kept has between one and [size] elements, and every one
    that is followed by another has exactly [size]. *)
Lemma filter_slices_shape (size n : nat) (l : list A) :
  let chunks := filter nonEmpty (slices size n l) in
  Forall (fun c => 1 <= length c <= size) chunks
  /\ forall i, S i < length chunks -> length (nth i chunks []) = size.
Proof.
  revert l. induction n as [|n IH]; intros l; cbn zeta.
  - split; [constructor | cbn; lia].
  - rewrite slices_succ. cbn [filter].
    destruct (IH (skipn size l)) as [IHall IHfull]. cbn zeta in IHall, IHfull.
    destruct (nonEmpty (firstn size l)) eqn:Hne.
    + assert (Hpos : 0 < length (firstn size l)) by now apply Nat.ltb_lt.
      split.
      * constructor; [|exact IHall]. split; [lia | apply firstn_le_length].
      * intros [|i] Hi; cbn [nth length] in *.
        -- rewrite length_firstn.
           destruct (Nat.le_gt_cases size (length l)); [lia|].
           rewrite skipn_all2, filter_slices_nil in Hi by lia. cbn in Hi. lia.
        -- apply IHfull. lia.
    + split; [exact IHall | exact IHfull].
Qed.

End Chunks.

Lemma Promise_all_returned {A} (ps : list (Outcome A)) (rs : list A) :
  Forall2 (fun p r => p = Returned r) ps rs -> Promise_all ps = Returned rs.
Proof.
  induction 1 as [|p r ps rs Hp _ IH]; [reflexivity|].
  cbn. now rewrite Hp, IH.
Qed.

Section Pool.
Context {viem : Viem}.

(** Decoding sub-chunk by sub-chunk and flattening is decoding the
    concatenation of the sub-chunks. *)
Lemma Promise_all_processEvents (chunks : list (list RawEvent)) (sources : list Source) :
  (let* results :=
     Promise_all (map (fun c => processEvents c sources) chunks) in
   Returned (Array_flat results))
  = processEvents (concat chunks) sources.
Proof.
  induction chunks as [|c chunks IH]; [reflexivity|].
  cbn [map Promise_all concat].
  rewrite EventDecoderWorkerFacts.processEvents_app, <- IH.
  destruct (processEvents c sources) as [o1|]; cbn; [|reflexivity].
  destruct (Promise_all _) as [rs|]; reflexivity.
Qed.

Lemma workerChunks_concat (coreCount : nat) (chunk : list RawEvent) :
  1 <= coreCount -> concat (workerChunks coreCount chunk) = chunk.
Proof.
  intros Hcores. unfold workerChunks.
  change (concat (filter nonEmpty
            (slices (Math_ceil_div (length chunk) coreCount) coreCount chunk))
          = chunk).
  rewrite concat_filter_nonEmpty, concat_slices.
  apply firstn_all2.
  destruct (Math_ceil_div_least (length chunk) coreCount ltac:(lia)) as [Hle _].
  lia.
Qed.

(** C6.  With [coreCount >= 1] workers, [execute] cuts the batch into at most
    [coreCount] sub-chunks; the width [chunkSize] is the ceiling of
    [K / coreCount]; no sub-chunk is empty or longer than [chunkSize], and
    every sub-chunk but the last has exactly [chunkSize] rows; the sub-chunks
    are contiguous and in order, that is, their concatenation is the batch;
    and the result of [execute] is the concatenation, in sub-chunk order, of
    what the workers return for the sub-chunks. *)
Theorem execute_splits_and_concatenates
    (coreCount : nat) (message : WorkerMessage) :
  1 <= coreCount ->
  let K := length (chunk message) in
  let chunkSize := Math_ceil_div K coreCount in
  let chunks := workerChunks coreCount (chunk message) in
  (K <= chunkSize * coreCount /\ forall n, K <= n * coreCount -> chunkSize <= n)
  /\ length chunks <= coreCount
  /\ Forall (fun c => 1 <= length c <= chunkSize) chunks
  /\ (forall i, S i < length chunks -> length (nth i chunks []) = chunkSize)
  /\ concat chunks = chunk message
  /\ (forall results,
        Forall2 (fun c r => processEvents c (sources message) = Returned r)
          chunks results ->
        execute coreCount message = Returned (concat results)).
Proof.
  intros Hcores K chunkSize chunks.
  split; [apply Math_ceil_div_least; lia|].
  split.
  { unfold chunks, workerChunks.
    etransitivity; [apply filter_length_le|].
    unfold slices. now rewrite length_map, length_seq. }
  pose proof (filter_slices_shape chunkSize coreCount (chunk message)) as Hshape.
  cbn zeta in Hshape. destruct Hshape as [Hall Hfull].
  split; [exact Hall|]. split; [exact Hfull|].
  split; [now apply workerChunks_concat|].
  intros results Hres. unfold execute.
  rewrite (Promise_all_returned _ results); [reflexivity|].
  fold chunks. clear -Hres.
  induction Hres; cbn; constructor; assumption.
Qed.

(** For the caller the split is invisible: [execute] returns what one call
    of [processEvents] on the whole batch returns. *)
Lemma execute_processEvents (coreCount : nat) (message : WorkerMessage) :
  1 <= coreCount ->
  execute coreCount message = processEvents (chunk message) (sources message).
Proof.
  intros Hcores. unfold execute.
  rewrite Promise_all_processEvents. f_equal. now apply workerChunks_concat.
Qed.

End Pool.

Lemma execute_splits_and_concatenates_witness :
  let message := {| chunk := sampleBatch; sources := sampleSources |} in
  let chunks := workerChunks 4 (chunk message) in
  (6 <= Math_ceil_div 6 4 * 4 /\ forall n, 6 <= n * 4 -> Math_ceil_div 6 4 <= n)
  /\ length chunks <= 4
  /\ Forall (fun c => 1 <= length c <= Math_ceil_div 6 4) chunks
  /\ (forall i, S i < length chunks
                -> length (nth i chunks []) = Math_ceil_div 6 4)
  /\ concat chunks = chunk message
  /\ (forall results,
        Forall2 (fun c r => processEvents c (sources message) = Returned r)
          chunks results ->
        execute 4 message = Returned (concat results)).
Proof.
  apply (execute_splits_and_concatenates (viem := viemZ) 4
           {| chunk := sampleBatch; sources := sampleSources |}).
  lia.
Defined.

End WorkerPoolFacts.

(* ===================================================================== *)
(** * Properties of the event handler service                             *)
(* ===================================================================== *)

Module EventHandlerServiceFacts.
Import EventHandlerService.

Local Open Scope string_scope.
Local Open Scope Z_scope.

(** ** Sorting *)

Section Sorting.
Context {A : Type} (key : A -> Z).

Lemma insertSorted_In (compare : A -> A -> Z) (x : A) (l : list A) (y : A) :
  In y (insertSorted compare x l) <-> y = x \/ In y l.
Proof.
  induction l as [|z l IH]; cbn.
  - intuition.
  - destruct (compare x z <? 0); cbn; [intuition | rewrite IH; intuition].
Qed.

Lemma insertSorted_sorted (compare : A -> A -> Z) (x : A) (l : list A) :
  comparesBy key compare ->
  StronglySorted (keyLe key) l -> StronglySorted (keyLe key) (insertSorted compare x l).
Proof.
  intros Hcmp. induction 1 as [|z l Hl IH Hz]; cbn.
  - repeat constructor.
  - rewrite Hcmp. destruct (Z.ltb_spec (key x) (key z)) as [Hlt|Hge].
    + constructor; [now constructor|].
      constructor; [unfold keyLe in *; lia|].
      eapply Forall_impl; [|exact Hz]. unfold keyLe. intros; lia.
    + constructor; [exact IH|].
      apply Forall_forall. intros y Hy.
      apply insertSorted_In in Hy. destruct Hy as [->|Hy]; [exact Hge|].
      rewrite Forall_forall in Hz. now apply Hz.
Qed.

Lemma insertSorted_permutation (compare : A -> A -> Z) (x : A) (l : list A) :
  Permutation (insertSorted compare x l) (x :: l).
Proof.
  induction l as [|z l IH]; cbn; [reflexivity|].
  destruct (compare x z <? 0); [reflexivity|].
  rewrite IH. apply perm_swap.
Qed.

Lemma Array_sort_sorted (compare : A -> A -> Z) (l : list A) :
  comparesBy key compare -> StronglySorted (keyLe key) (Array_sort compare l).
Proof.
  intros Hcmp. unfold Array_sort.
  assert (H : forall acc, StronglySorted (keyLe key) acc ->
              StronglySorted (keyLe key)
                (fold_left (fun sorted x => insertSorted compare x sorted) l acc)).
  { induction l as [|x l IH]; intros acc Hacc; cbn; [exact Hacc|].
    apply IH. now apply insertSorted_sorted. }
  apply H. constructor.
Qed.

Lemma Array_sort_permutation (compare : A -> A -> Z) (l : list A) :
  Permutation (Array_sort compare l) l.
Proof.
  unfold Array_sort.
  assert (H : forall acc,
              Permutation
                (fold_left (fun sorted x => insertSorted compare x sorted) l acc)
                (acc ++ l)).
  { induction l as [|x l IH]; intros acc; cbn.
    - now rewrite app_nil_r.
    - rewrite IH, insertSorted_permutation. apply Permutation_middle. }
  exact (H []).
Qed.

Lemma StronglySorted_nth_error (l : list A) :
  StronglySorted (keyLe key) l ->
  forall i j a b,
    (i < j)%nat -> nth_error l i = Some a -> nth_error l j = Some b ->
    key a <= key b.
Proof.
  induction 1 as [|x l Hl IH Hx]; intros i j a b Hij Ha Hb.
  - destruct i; discriminate.
  - destruct j as [|j]; [lia|]. cbn in Hb. destruct i as [|i]; cbn in Ha.
    + injection Ha as <-. rewrite Forall_forall in Hx.
      apply Hx. eapply nth_error_In; eassumption.
    + eapply IH; [|eassumption|eassumption]. lia.
Qed.

End Sorting.

Lemma compareLogSortKey_comparesBy : comparesBy logSortKey compareLogSortKey.
Proof.
  intros x y. unfold compareLogSortKey.
  destruct (Z.ltb_spec (logSortKey x) (logSortKey y)); [reflexivity|].
  destruct (logSortKey x >? logSortKey y); reflexivity.
Qed.

(** ** [getNewEvents]: the watermark *)

Lemma Array_includes_In (x : Z) (values : list Z) :
  Array_includes x values = true <-> In x values.
Proof.
  unfold Array_includes. rewrite existsb_exists. split.
  - intros (y & Hy & Heq). apply Z.eqb_eq in Heq. now subst.
  - intros Hx. exists x. split; [exact Hx | apply Z.eqb_refl].
Qed.

(** [Math.min] of a non-empty list is its least element. *)
Lemma Math_min_least (values : list Z) (m : Z) :
  In m values -> (forall x, In x values -> m <= x) -> Math_min values = Finite m.
Proof.
  revert m. induction values as [|v rest IH]; intros m Hin Hle; [contradiction|].
  cbn. destruct rest as [|w rest].
  - cbn. destruct Hin as [->|[]]. reflexivity.
  - assert (Hmin : exists m', In m' (w :: rest) /\ (forall x, In x (w :: rest) -> m' <= x)).
    { clear. induction rest as [|u rest IHr].
      - exists w. split; [now left|]. intros x [->|[]]. lia.
      - destruct IHr as (m' & Hin' & Hle').
        destruct (Z.le_gt_cases m' u).
        + exists m'. split.
          * destruct Hin' as [->|Hin']; [now left | right; now right].
          * intros x [->|[->|Hx]]; [apply Hle'; now left | lia |].
            apply Hle'. now right.
        + exists u. split; [right; now left|].
          intros x [->|[->|Hx]].
          * assert (m' <= x) by (apply Hle'; now left). lia.
          * lia.
          * assert (m' <= x) by (apply Hle'; now right). lia. }
    destruct Hmin as (m' & Hin' & Hle').
    rewrite (IH m' Hin' Hle'). f_equal.
    assert (m <= v) by (apply Hle; now left).
    assert (m <= m') by (apply Hle; now right).
    destruct Hin as [->|Hin]; [lia|].
    assert (m' <= m) by now apply Hle'. lia.
Qed.

Lemma find_covering (contract : Contract) (intervals : list CachedInterval) :
  match find (fun interval =>
                (startBlock interval <=? contract_startBlock contract)
                && (endBlock interval >=? contract_startBlock contract))
             intervals with
  | Some interval => In interval intervals /\ covers interval contract
  | None => forall interval, In interval intervals -> ~ covers interval contract
  end.
Proof.
  destruct (find _ intervals) as [interval|] eqn:Hfind.
  - apply find_some in Hfind. destruct Hfind as [Hin Htest].
    apply andb_true_iff in Htest. destruct Htest as [H1 H2].
    apply Z.leb_le in H1. apply Z.geb_le in H2. split; [exact Hin|].
    unfold covers. lia.
  - intros interval Hin Hcov.
    pose proof (find_none _ _ Hfind interval Hin) as Htest. cbn in Htest.
    unfold covers in Hcov.
    apply andb_false_iff in Htest. destruct Htest as [H|H].
    + apply Z.leb_gt in H. lia.
    + rewrite Z.geb_leb in H. apply Z.leb_gt in H. lia.
Qed.

Section Service.
Context {ext : Externals}.

(** [getNewEvents] reads the contracts, the cache store and the handlers,
    and nothing else. *)
Lemma getNewEvents_frame
    (fromTimestamp : JsNumber) (s1 s2 : EventHandlerService) :
  contracts (resources s1) = contracts (resources s2) ->
  cacheStore (resources s1) = cacheStore (resources s2) ->
  handlers s1 = handlers s2 ->
  getNewEvents fromTimestamp s1 = getNewEvents fromTimestamp s2.
Proof.
  intros Hc Hs Hh. unfold getNewEvents. rewrite Hc, Hs.
  destruct (Array_includes _ _); [reflexivity|].
  destruct (JsNumber_leb _ _); [reflexivity|].
  f_equal. f_equal. apply map_ext. intros contract.
  unfold contractLogs. now rewrite Hh, Hs.
Qed.


(** A source without a covering interval contributes the sentinel [-1]. *)
Lemma cachedToTimestamp_uncovered (s : EventHandlerService) (contract : Contract) :
  uncovered s contract ->
  cachedToTimestamp (cacheStore (resources s)) contract = -1.
Proof.
  intros Hunc. unfold cachedToTimestamp.
  pose proof (find_covering contract
                (getCachedIntervals (cacheStore (resources s))
                   (contract_address contract))) as Hfind.
  destruct (find _ _) as [interval|]; [|reflexivity].
  destruct Hfind as [Hin Hcov]. exfalso. exact (Hunc interval Hin Hcov).
Qed.

(** With disjoint intervals the interval found is the one that contains the
    start block, so a source contributes its bound. *)
Lemma cachedToTimestamp_bound (s : EventHandlerService) (contract : Contract) (t : Z) :
  ForallOrdPairs disjointIntervals (cachedIntervalsOf s contract) ->
  sourceBound s contract t ->
  cachedToTimestamp (cacheStore (resources s)) contract = t.
Proof.
  intros Hdisj (interval & Hin & Hcov & <-). unfold cachedToTimestamp.
  pose proof (find_covering contract
                (getCachedIntervals (cacheStore (resources s))
                   (contract_address contract))) as Hfind.
  destruct (find _ _) as [found|].
  - destruct Hfind as [Hin' Hcov'].
    destruct (ForallOrdPairs_In Hdisj _ _ Hin' Hin) as [->|[Hd|Hd]];
      [reflexivity| |]; unfold disjointIntervals, covers in *; lia.
  - exfalso. exact (Hfind interval Hin Hcov).
Qed.

(** The two early returns of [getNewEvents]. *)
Lemma getNewEvents_uncovered (fromTimestamp : JsNumber) (s : EventHandlerService)
    (contract : Contract) :
  In contract (indexedContracts s) -> uncovered s contract ->
  getNewEvents fromTimestamp s = Returned (noNewEvents fromTimestamp).
Proof.
  intros Hin Hunc. unfold getNewEvents.
  replace (Array_includes _ _) with true; [reflexivity|].
  symmetry. apply Array_includes_In.
  rewrite <- (cachedToTimestamp_uncovered s contract Hunc).
  now apply in_map.
Qed.

(** When every source is covered, the list of per-source values is the list
    of the bounds, and [Math.min] gives their minimum. *)
Lemma Math_min_cachedToTimestamps (s : EventHandlerService) (m : Z) :
  cacheWellFormed s -> minimumBound s m ->
  Math_min (map (cachedToTimestamp (cacheStore (resources s))) (indexedContracts s))
  = Finite m
  /\ 0 <= m.
Proof.
  intros Hwf [(c0 & Hin0 & Hb0) Hall].
  split.
  - apply Math_min_least.
    + rewrite <- (cachedToTimestamp_bound s c0 m (proj1 (Hwf c0 Hin0)) Hb0).
      now apply in_map.
    + intros x Hx. apply in_map_iff in Hx. destruct Hx as (c & <- & Hc).
      destruct (Hall c Hc) as (t & Hb & Hle).
      now rewrite (cachedToTimestamp_bound s c t (proj1 (Hwf c Hc)) Hb).
  - destruct Hb0 as (interval & Hin & _ & <-).
    destruct (Hwf c0 Hin0) as [_ Hnn]. rewrite Forall_forall in Hnn.
    now apply Hnn.
Qed.

Lemma getNewEvents_behind (fromTimestamp : JsNumber) (s : EventHandlerService) (m : Z) :
  cacheWellFormed s -> minimumBound s m ->
  JsNumber_leb (Finite m) fromTimestamp = true ->
  getNewEvents fromTimestamp s = Returned (noNewEvents fromTimestamp).
Proof.
  intros Hwf Hmin Hle. unfold getNewEvents.
  destruct (Array_includes _ _); [reflexivity|].
  fold (indexedContracts s).
  rewrite (proj1 (Math_min_cachedToTimestamps s m Hwf Hmin)), Hle. reflexivity.
Qed.

Lemma mapO_returns {A B} (f : A -> Outcome B) (l : list A) :
  (forall x, In x l -> exists y, f x = Returned y) ->
  exists ys, mapO f l = Returned ys.
Proof.
  induction l as [|x l IH]; intros Hf; cbn.
  - now exists [].
  - destruct (Hf x (or_introl eq_refl)) as (y & ->).
    destruct IH as (ys & ->); [intros; apply Hf; now right|].
    cbn. now eexists.
Qed.

Lemma Promise_all_returns {A} (ps : list (Outcome A)) :
  (forall p, In p ps -> exists a, p = Returned a) ->
  exists l, Promise_all ps = Returned l.
Proof.
  induction ps as [|p ps IH]; intros Hps; cbn.
  - now exists [].
  - destruct (Hps p (or_introl eq_refl)) as (a & ->).
    destruct IH as (l & ->); [intros; apply Hps; now right|].
    now eexists.
Qed.

(** The logs are fetched when every handled event name encodes. *)
Lemma contractLogs_returns (s : EventHandlerService) (fromTimestamp toTimestamp : JsNumber) :
  handledEventsEncode s ->
  exists rawLogs,
    Promise_all (map (contractLogs s fromTimestamp toTimestamp) (indexedContracts s))
    = Returned rawLogs.
Proof.
  intros Henc. apply Promise_all_returns. intros p Hp.
  apply in_map_iff in Hp. destruct Hp as (contract & <- & Hc).
  unfold contractLogs.
  destruct (mapO_returns
              (fun eventName =>
                 let* eventTopics :=
                   encodeEventTopics (contract_abi contract) eventName in
                 Returned (hd_error eventTopics))
              (Object_keys
                 (match lookup (contract_name contract)
                          (match handlers s with
                           | Some h => contractHandlers h
                           | None => []
                           end) with
                  | Some hs => hs
                  | None => []
                  end))) as (hashes & Hhashes).
  { intros eventName Hname.
    destruct (Henc contract Hc eventName Hname) as (topics & ->).
    cbn. now eexists. }
  rewrite Hhashes. cbn. now eexists.
Qed.

Lemma getNewEvents_ahead (fromTimestamp : JsNumber) (s : EventHandlerService) (m : Z) :
  cacheWellFormed s -> minimumBound s m ->
  JsNumber_leb (Finite m) fromTimestamp = false ->
  handledEventsEncode s ->
  exists newEvents,
    getNewEvents fromTimestamp s = Returned newEvents
    /\ hasNewLogs newEvents = true
    /\ toTimestamp newEvents = Finite m.
Proof.
  intros Hwf Hmin Hgt Henc. unfold getNewEvents.
  fold (indexedContracts s).
  destruct (Math_min_cachedToTimestamps s m Hwf Hmin) as [Hm Hnn].
  destruct (Array_includes _ _) eqn:Hinc.
  { exfalso. apply Array_includes_In in Hinc.
    apply in_map_iff in Hinc. destruct Hinc as (c & Hval & Hc).
    destruct Hmin as [_ Hall]. destruct (Hall c Hc) as (t & Hb & Hle).
    rewrite (cachedToTimestamp_bound s c t (proj1 (Hwf c Hc)) Hb) in Hval. lia. }
  rewrite Hm, Hgt.
  destruct (contractLogs_returns s fromTimestamp (Finite m) Henc) as (rawLogs & ->).
  cbn. eexists. split; [reflexivity|]. split; reflexivity.
Qed.

(** C1 (as amended).  Let the cached intervals of every indexed source be
    pairwise disjoint, with non-negative end timestamps.  If some indexed
    source has no cached interval that contains its start block,
    [getNewEvents] returns [hasNewLogs = false], whatever the other sources
    have cached.  Otherwise let [m] be the minimum over the indexed sources of
    the [endBlockTimestamp] of the interval that contains the start block:
    when [m] is greater than [fromTimestamp], and every handled event name
    encodes against its ABI, [getNewEvents] returns [hasNewLogs = true] and
    [toTimestamp = m]; when [m <= fromTimestamp] it returns
    [hasNewLogs = false] and [toTimestamp = fromTimestamp]. *)
Theorem getNewEvents_watermark (fromTimestamp : JsNumber) (s : EventHandlerService) :
  cacheWellFormed s ->
  (forall contract,
      In contract (indexedContracts s) -> uncovered s contract ->
      getNewEvents fromTimestamp s = Returned (noNewEvents fromTimestamp))
  /\ (forall m,
        minimumBound s m ->
        (JsNumber_leb (Finite m) fromTimestamp = false ->
         handledEventsEncode s ->
         exists newEvents,
           getNewEvents fromTimestamp s = Returned newEvents
           /\ hasNewLogs newEvents = true
           /\ toTimestamp newEvents = Finite m)
        /\ (JsNumber_leb (Finite m) fromTimestamp = true ->
            getNewEvents fromTimestamp s = Returned (noNewEvents fromTimestamp))).
Proof.
  intros Hwf. split.
  - intros contract Hin Hunc. now apply (getNewEvents_uncovered _ _ contract).
  - intros m Hmin. split.
    + intros Hgt Henc. now apply getNewEvents_ahead.
    + intros Hle. now apply (getNewEvents_behind _ _ m).
Qed.

(** ** The cycle without new data *)

Lemma length_list_update {A} (i : nat) (x : A) (l : list A) :
  length (list_update i x l) = length l.
Proof.
  revert i. induction l as [|y l IH]; intros [|i]; cbn; auto.
Qed.

Lemma nth_list_update_eq {A} (i : nat) (x d : A) (l : list A) :
  (i < length l)%nat -> nth i (list_update i x l) d = x.
Proof.
  revert i. induction l as [|y l IH]; intros [|i] Hi; cbn in *; try lia.
  - reflexivity.
  - apply IH. lia.
Qed.

Lemma nth_error_list_update_eq {A} (i : nat) (x : A) (l : list A) :
  (i < length l)%nat -> nth_error (list_update i x l) i = Some x.
Proof.
  revert i. induction l as [|y l IH]; intros [|i] Hi; cbn in *; try lia.
  - reflexivity.
  - apply IH. lia.
Qed.


Lemma getMutex_updateMutex (m : nat) (f : Mutex -> Mutex) (s : EventHandlerService) :
  (m < length (mutexes s))%nat ->
  getMutex m (updateMutex m f s) = f (getMutex m s).
Proof.
  intros Hm. unfold getMutex, updateMutex. cbn. now apply nth_list_update_eq.
Qed.

Lemma length_mutexes_updateMutex (m : nat) (f : Mutex -> Mutex)
    (s : EventHandlerService) :
  length (mutexes (updateMutex m f s)) = length (mutexes s).
Proof. unfold updateMutex. cbn. apply length_list_update. Qed.

Lemma resume_lock_granted (m ticket : nat) (s : EventHandlerService) :
  existsb (Nat.eqb ticket) (mutex_cancelled (getMutex m s)) = false ->
  mutex_holder (getMutex m s) = Some ticket ->
  resume (AwaitingLock m ticket) s
  = match queue s with
    | None => leaveExclusive m (Returned tt) s
    | Some _ => (AwaitingNewEvents m (eventsHandledToTimestamp s), s)
    end.
Proof.
  intros Hc Hh. unfold resume. now rewrite Hc, Hh, Nat.eqb_refl.
Qed.

Lemma resume_nothing_new (m : nat) (fromTimestamp : JsNumber)
    (s : EventHandlerService) (newEvents : NewEvents) :
  getNewEvents fromTimestamp s = Returned newEvents ->
  hasNewLogs newEvents = false ->
  resume (AwaitingNewEvents m fromTimestamp) s = leaveExclusive m (Returned tt) s.
Proof.
  intros Hrun Hno. unfold resume. now rewrite Hrun, Hno.
Qed.

Lemma fresh_ticket_not_cancelled (ticket : nat) (cancelled : list nat) :
  Forall (fun t => (t < ticket)%nat) cancelled ->
  existsb (Nat.eqb ticket) cancelled = false.
Proof.
  induction 1 as [|t l Ht _ IH]; [reflexivity|].
  cbn. rewrite IH. destruct (Nat.eqb_spec ticket t); [lia | reflexivity].
Qed.

Lemma lockTakenAndReleased_idle (s : EventHandlerService) :
  mutexIdle s -> mutexIdle (lockTakenAndReleased s).
Proof.
  intros (Hm & Hholder & Hwaiting & Hcancelled).
  unfold mutexIdle, lockTakenAndReleased.
  change (eventProcessingMutex (updateMutex _ _ _)) with (eventProcessingMutex s).
  rewrite getMutex_updateMutex
    by (rewrite length_mutexes_updateMutex; exact Hm).
  rewrite getMutex_updateMutex by exact Hm.
  split.
  { rewrite !length_mutexes_updateMutex. exact Hm. }
  unfold Mutex_acquire. rewrite Hholder. cbn.
  unfold Mutex_release. cbn. rewrite Hwaiting. cbn.
  repeat split.
  eapply Forall_impl; [|exact Hcancelled]. cbn. intros; lia.
Qed.

(** A cycle that finds nothing new changes nothing but the mutex, which it
    takes and gives back. *)
Lemma processEvents_nothing_new (s : EventHandlerService) (newEvents : NewEvents) :
  mutexIdle s ->
  getNewEvents (eventsHandledToTimestamp s) s = Returned newEvents ->
  hasNewLogs newEvents = false ->
  processEvents s = (Completed (Returned tt), s)
  \/ processEvents s = (Completed (Returned tt), lockTakenAndReleased s).
Proof.
  intros (Hm & Hholder & Hwaiting & Hcancelled) Hrun Hno.
  unfold processEvents, processEvents_call.
  destruct (negb (isBackfillStarted s)); [now left|].
  destruct (isHandlerError (errors (resources s))); [now left|].
  right. unfold Mutex_acquire at 1. rewrite Hholder.
  set (ticket := mutex_issued (getMutex (eventProcessingMutex s) s)).
  set (held := {| mutex_holder := Some ticket;
                  mutex_waiting := mutex_waiting (getMutex (eventProcessingMutex s) s);
                  mutex_cancelled := mutex_cancelled (getMutex (eventProcessingMutex s) s);
                  mutex_issued := S ticket |}).
  set (s1 := updateMutex (eventProcessingMutex s) (fun _ => held) s).
  assert (Hheld : getMutex (eventProcessingMutex s) s1 = held).
  { unfold s1. now rewrite getMutex_updateMutex. }
  assert (Hlast : s1 = updateMutex (eventProcessingMutex s)
                         (fun _ => snd (Mutex_acquire (getMutex (eventProcessingMutex s) s))) s).
  { unfold s1, Mutex_acquire. now rewrite Hholder. }
  rewrite resume_lock_granted;
    [| rewrite Hheld; now apply fresh_ticket_not_cancelled
     | now rewrite Hheld ].
  change (queue s1) with (queue s).
  change (eventsHandledToTimestamp s1) with (eventsHandledToTimestamp s).
  destruct (queue s) as [q|].
  - rewrite (resume_nothing_new _ _ _ newEvents); [| exact Hrun | exact Hno].
    unfold leaveExclusive, lockTakenAndReleased. now rewrite Hlast.
  - unfold leaveExclusive. cbn [resume catchCanceled].
    unfold lockTakenAndReleased. now rewrite Hlast.
Qed.

(** C7.  When some indexed source has no usable cached interval, or the
    minimum of the bounds is not greater than the watermark, the cycle finds
    [hasNewLogs = false] and ends without side effects: all queues keep their
    tasks, no event is emitted (no [eventsAdded], no [eventsProcessed]), the
    watermark [eventsHandledToTimestamp] and everything else the service
    holds are unchanged, and the mutex is free again. *)
Theorem processEvents_without_new_data (s : EventHandlerService) :
  cacheWellFormed s ->
  mutexIdle s ->
  (exists contract, In contract (indexedContracts s) /\ uncovered s contract)
  \/ (exists m, minimumBound s m
                /\ JsNumber_leb (Finite m) (eventsHandledToTimestamp s) = true) ->
  (exists newEvents,
      getNewEvents (eventsHandledToTimestamp s) s = Returned newEvents
      /\ hasNewLogs newEvents = false)
  /\ exists s',
      processEvents s = (Completed (Returned tt), s')
      /\ queues s' = queues s
      /\ emitted s' = emitted s
      /\ eventsHandledToTimestamp s' = eventsHandledToTimestamp s
      /\ resources s' = resources s
      /\ queue s' = queue s
      /\ handlers s' = handlers s
      /\ schema s' = schema s
      /\ currentLogEventBlockNumber s' = currentLogEventBlockNumber s
      /\ mutexIdle s'.
Proof.
  intros Hwf Hidle Hcase.
  assert (Hrun : getNewEvents (eventsHandledToTimestamp s) s
                 = Returned (noNewEvents (eventsHandledToTimestamp s))).
  { destruct Hcase as [(contract & Hin & Hunc) | (m & Hmin & Hle)].
    - now apply (getNewEvents_uncovered _ _ contract).
    - now apply (getNewEvents_behind _ _ m). }
  split; [eexists; split; [exact Hrun | reflexivity]|].
  destruct (processEvents_nothing_new s _ Hidle Hrun eq_refl) as [-> | ->].
  - exists s. repeat (split; [reflexivity|]). exact Hidle.
  - exists (lockTakenAndReleased s). repeat (split; [reflexivity|]).
    now apply lockTakenAndReleased_idle.
Qed.

(** ** Running the queue *)

Lemma tasksStarted_app (l1 l2 : list Emitted) :
  tasksStarted (l1 ++ l2) = (tasksStarted l1 + tasksStarted l2)%nat.
Proof. unfold tasksStarted. now rewrite filter_app, length_app. Qed.

Lemma getQueue_updateQueue (q : nat) (f : Queue -> Queue)
    (s : EventHandlerService) (object : Queue) :
  getQueue q s = Some object ->
  getQueue q (updateQueue q f s) = Some (f object)
  /\ updateQueue q f s = set_queues (list_update q (f object) (queues s)) s.
Proof.
  intros Hq. unfold updateQueue. rewrite Hq. split; [|reflexivity].
  unfold getQueue in *. cbn. apply nth_error_list_update_eq.
  apply nth_error_Some. congruence.
Qed.

(** What [buildLogEvent] returns depends on the contracts and the cache
    only, and all it changes is the log of the logger. *)
Lemma buildLogEvent_frame (log : Log) (handlers : Handlers) (s : EventHandlerService) :
  exists lines, fst (buildLogEvent log handlers s) = set_logger lines s.
Proof.
  unfold buildLogEvent.
  destruct (find _ (contracts (resources s))) as [contract|];
    [|eexists; reflexivity].
  destruct (lookup (contract_name contract) (contractHandlers handlers)) as [hs|];
    [|eexists; reflexivity].
  destruct (decodeEventLog _ _ _) as [[[eventName args]|]|e];
    [|eexists; reflexivity|].
  - destruct (lookup eventName hs) as [handler|]; [|eexists; reflexivity].
    cbn. destruct (getBlock _ _); [|eexists; reflexivity].
    destruct (getTransaction _ _); eexists; reflexivity.
  - exists (logger (resources s)). destruct s as [[] ]. reflexivity.
Qed.

Lemma buildLogEvent_resolved (log : Log) (handlers : Handlers)
    (s : EventHandlerService) (handler : LogHandler) (eventName : string)
    (args : Params) (block : Block) (transaction : Transaction) :
  resolvesTo s handlers log handler eventName args ->
  getBlock (cacheStore (resources s)) (blockHash log) = Some block ->
  getTransaction (cacheStore (resources s)) (transactionHash log) = Some transaction ->
  snd (buildLogEvent log handlers s)
  = Returned (Some (handler,
                    {| event_name := eventName; event_params := args;
                       event_log := log; event_block := block;
                       event_transaction := transaction |})).
Proof.
  intros (contract & hs & Hfind & Hhs & Hdec & Hh) Hblock Htx.
  unfold buildLogEvent. rewrite Hfind, Hhs, Hdec, Hh. cbn.
  now rewrite Hblock, Htx.
Qed.

(** Rewrites the first [updateQueue q f X] of the goal into the update of
    the list of queues, given the queue that [q] refers to. *)
Ltac unfold_updateQueue Hq :=
  match goal with
  | |- context [updateQueue ?q ?f ?X] =>
      rewrite (proj2 (getQueue_updateQueue q f X _ Hq))
  end.

Lemma getQueue_set_queues_eq (q : nat) (x : Queue) (s s0 : EventHandlerService)
    (object : Queue) :
  getQueue q s0 = Some object ->
  queues s = list_update q x (queues s0) ->
  getQueue q s = Some x.
Proof.
  intros Hq Hs. unfold getQueue in *. rewrite Hs.
  apply nth_error_list_update_eq. apply nth_error_Some. congruence.
Qed.

(** The worker on any task: it emits one [taskStarted]; it leaves the
    configuration alone; it either leaves the pending tasks and the error sink
    as they are, or clears the tasks and submits one error. *)
Lemma eventHandlerWorker_step (q : nat) (task : EventHandlerTask)
    (s : EventHandlerService) (object : Queue) :
  getQueue q s = Some object ->
  let s' := fst (eventHandlerWorker q task s) in
  contracts (resources s') = contracts (resources s)
  /\ cacheStore (resources s') = cacheStore (resources s)
  /\ options (resources s') = options (resources s)
  /\ tasksStarted (emitted s') = S (tasksStarted (emitted s))
  /\ exists object',
      getQueue q s' = Some object'
      /\ queue_handlers object' = queue_handlers object
      /\ queue_context object' = queue_context object
      /\ queue_isPaused object' = queue_isPaused object
      /\ queue_failure object' = queue_failure object
      /\ ((queue_tasks object' = queue_tasks object
           /\ errors (resources s') = errors (resources s))
          \/ (snd (eventHandlerWorker q task s) = Returned tt
              /\ queue_tasks object' = []
              /\ exists e,
                  errors (resources s')
                  = submitHandlerError e (errors (resources s)))).
Proof.
  intros Hq. unfold eventHandlerWorker. rewrite Hq.
  destruct task as [|log].
  - destruct (setup (queue_handlers object)) as [setupHandler|].
    + destruct (setupHandler _ _) as [store [error|]].
      * destruct (getStackTraceAndCodeFrame _ _) as [stackTrace codeFrame].
        unfold reportHandlerError.
        unfold_updateQueue Hq. cbn -[tasksStarted]. rewrite !tasksStarted_app. cbn.
        repeat (split; [reflexivity || lia|]).
        exists (Queue_clear object). split.
        { eapply getQueue_set_queues_eq; [exact Hq | reflexivity]. }
        repeat (split; [reflexivity|]). right.
        split; [reflexivity|]. split; [reflexivity|]. eexists. reflexivity.
      * cbn -[tasksStarted]. rewrite !tasksStarted_app. cbn.
        repeat (split; [reflexivity || lia|]).
        exists object. split; [exact Hq|].
        repeat (split; [reflexivity|]). left. split; reflexivity.
    + cbn -[tasksStarted]. rewrite !tasksStarted_app. cbn.
      repeat (split; [reflexivity || lia|]).
      exists object. split; [exact Hq|].
      repeat (split; [reflexivity|]). left. split; reflexivity.
  - destruct (buildLogEvent_frame log (queue_handlers object) (emit taskStarted s))
      as (lines & Hframe).
    destruct (buildLogEvent log (queue_handlers object) (emit taskStarted s))
      as [s1 result]. cbn in Hframe. subst s1.
    destruct result as [[[handler event]|]|e].
    + destruct (handler _ _ _) as [store [error|]].
      * destruct (getStackTraceAndCodeFrame _ _) as [stackTrace codeFrame].
        unfold reportHandlerError.
        unfold_updateQueue Hq. cbn -[tasksStarted]. rewrite !tasksStarted_app. cbn.
        repeat (split; [reflexivity || lia|]).
        exists (Queue_clear object). split.
        { eapply getQueue_set_queues_eq; [exact Hq | reflexivity]. }
        repeat (split; [reflexivity|]). right.
        split; [reflexivity|]. split; [reflexivity|]. eexists. reflexivity.
      * cbn -[tasksStarted]. rewrite !tasksStarted_app. cbn.
        repeat (split; [reflexivity || lia|]).
        exists object. split; [exact Hq|].
        repeat (split; [reflexivity|]). left. split; reflexivity.
    + cbn -[tasksStarted]. rewrite !tasksStarted_app. cbn.
      repeat (split; [reflexivity || lia|]).
      exists object. split; [exact Hq|].
      repeat (split; [reflexivity|]). left. split; reflexivity.
    + cbn -[tasksStarted]. rewrite !tasksStarted_app. cbn.
      repeat (split; [reflexivity || lia|]).
      exists object. split; [exact Hq|].
      repeat (split; [reflexivity|]). left. split; reflexivity.
Qed.

(** One step of a running queue: the head task is taken and run.  The step
    is normal (the rest of the tasks stay, no error is submitted), or a handler
    has thrown (no task stays, one error is submitted), or the worker itself
    has thrown (the queue has failed). *)
Lemma Queue_runNext_step (q : nat) (s : EventHandlerService) (object : Queue)
    (task : EventHandlerTask) (rest : list EventHandlerTask) :
  getQueue q s = Some object ->
  queue_isPaused object = false ->
  queue_failure object = None ->
  queue_tasks object = task :: rest ->
  let s' := Queue_runNext q s in
  contracts (resources s') = contracts (resources s)
  /\ cacheStore (resources s') = cacheStore (resources s)
  /\ options (resources s') = options (resources s)
  /\ tasksStarted (emitted s') = S (tasksStarted (emitted s))
  /\ exists object',
      getQueue q s' = Some object'
      /\ queue_handlers object' = queue_handlers object
      /\ queue_context object' = queue_context object
      /\ queue_isPaused object' = false
      /\ ((queue_failure object' = None /\ queue_tasks object' = rest
           /\ errors (resources s') = errors (resources s))
          \/ (queue_failure object' = None /\ queue_tasks object' = []
              /\ exists e,
                  errors (resources s')
                  = submitHandlerError e (errors (resources s)))
          \/ (queue_failure object' <> None
              /\ errors (resources s') = errors (resources s))).
Proof.
  intros Hq Hpaused Hfailure Htasks. unfold Queue_runNext.
  rewrite Hq, Hpaused, Hfailure, Htasks.
  destruct (getQueue_updateQueue q (Queue_setTasks rest) s object Hq)
    as [Hq1 Hupd].
  pose proof (eventHandlerWorker_step q task _ _ Hq1) as Hstep.
  cbn zeta in Hstep.
  destruct (eventHandlerWorker q task (updateQueue q (Queue_setTasks rest) s))
    as [s1 result].
  cbn [fst snd] in Hstep.
  destruct Hstep as (Hc & Hs & Ho & Hstarted & object1 & Hq2 & Hh & Hctx & Hp & Hf & Hcases).
  rewrite Hupd in Hc, Hs, Ho, Hstarted.
  cbn -[tasksStarted] in Hc, Hs, Ho, Hstarted, Hh, Hctx, Hp, Hf.
  rewrite Hpaused in Hp. rewrite Hfailure in Hf.
  assert (Herr : errors (resources (updateQueue q (Queue_setTasks rest) s))
                 = errors (resources s)) by now rewrite Hupd.
  destruct result as [[]|e].
  - repeat (split; [assumption|]). exists object1.
    repeat (split; [first [assumption | congruence]|]).
    destruct Hcases as [[Ht He] | (_ & Ht & e & He)].
    + left. cbn in Ht. repeat split; congruence.
    + right. left. repeat split; [congruence | assumption |].
      exists e. congruence.
  - destruct (getQueue_updateQueue q (Queue_fail e) s1 object1 Hq2)
      as [Hq3 Hupd3].
    rewrite Hupd3. cbn -[tasksStarted]. repeat (split; [assumption|]).
    exists (Queue_fail e object1). split.
    { eapply getQueue_set_queues_eq; [exact Hq2 | reflexivity]. }
    repeat (split; [cbn; first [assumption | congruence]|]).
    right. right. split; [cbn; discriminate|].
    destruct Hcases as [[_ He] | (Hret & _)]; [congruence | discriminate].
Qed.

(** A queue that is paused, has failed or has no task does nothing. *)
Lemma Queue_run_idle (n q : nat) (s : EventHandlerService) (object : Queue) :
  getQueue q s = Some object ->
  queue_isPaused object = true \/ queue_failure object <> None
  \/ queue_tasks object = [] ->
  Queue_run n q s = s.
Proof.
  intros Hq Hidle. induction n as [|n IH]; [reflexivity|].
  cbn. replace (Queue_runNext q s) with s; [exact IH|].
  unfold Queue_runNext. rewrite Hq.
  destruct (queue_isPaused object); [reflexivity|].
  destruct (queue_failure object); [reflexivity|].
  destruct (queue_tasks object); [reflexivity|].
  destruct Hidle as [|[|]]; congruence.
Qed.

Lemma handlerErrors_submit (e : EventHandlerError) (sink : ErrorSink) :
  length (handlerErrors (submitHandlerError e sink))
  = S (length (handlerErrors sink)).
Proof. cbn. rewrite length_app. cbn. lia. Qed.

(** The error sink never loses an error while the queue runs. *)
Lemma Queue_run_errors_monotone (n q : nat) (s : EventHandlerService) :
  (length (handlerErrors (errors (resources s)))
   <= length (handlerErrors (errors (resources (Queue_run n q s)))))%nat.
Proof.
  revert s. induction n as [|n IH]; intros s; [cbn; lia|].
  cbn [Queue_run]. etransitivity; [|apply IH].
  destruct (getQueue q s) as [object|] eqn:Hq.
  2:{ unfold Queue_runNext. rewrite Hq. lia. }
  destruct (queue_isPaused object) eqn:Hp.
  { unfold Queue_runNext. rewrite Hq, Hp. lia. }
  destruct (queue_failure object) eqn:Hf.
  { unfold Queue_runNext. rewrite Hq, Hp, Hf. lia. }
  destruct (queue_tasks object) as [|task rest] eqn:Ht.
  { unfold Queue_runNext. rewrite Hq, Hp, Hf, Ht. lia. }
  destruct (Queue_runNext_step q s object task rest Hq Hp Hf Ht)
    as (_ & _ & _ & _ & object' & _ & _ & _ & _ & Hcases).
  destruct Hcases as [(_ & _ & ->) | [(_ & _ & e & ->) | (_ & ->)]];
    rewrite ?handlerErrors_submit; lia.
Qed.

(** While the first tasks run without a handler error and without a
    failure of the worker, they are taken one by one. *)
Lemma Queue_run_prefix (pre rest : list EventHandlerTask) (q : nat) :
  forall (s s1 : EventHandlerService) (object : Queue),
  getQueue q s = Some object ->
  queue_isPaused object = false ->
  queue_failure object = None ->
  queue_tasks object = (pre ++ rest)%list ->
  s1 = Queue_run (length pre) q s ->
  errors (resources s1) = errors (resources s) ->
  (forall object1, getQueue q s1 = Some object1 -> queue_failure object1 = None) ->
  contracts (resources s1) = contracts (resources s)
  /\ cacheStore (resources s1) = cacheStore (resources s)
  /\ options (resources s1) = options (resources s)
  /\ tasksStarted (emitted s1) = (tasksStarted (emitted s) + length pre)%nat
  /\ exists object1,
      getQueue q s1 = Some object1
      /\ queue_handlers object1 = queue_handlers object
      /\ queue_context object1 = queue_context object
      /\ queue_isPaused object1 = false
      /\ queue_failure object1 = None
      /\ queue_tasks object1 = rest.
Proof.
  induction pre as [|task pre IH]; intros s s1 object Hq Hp Hf Ht Hs1 Herr Hok.
  - cbn in Hs1, Ht. subst s1. cbn [length].
    repeat (split; [reflexivity || lia|]). now exists object.
  - cbn [length Queue_run] in Hs1. cbn [app] in Ht.
    destruct (Queue_runNext_step q s object task (pre ++ rest)%list Hq Hp Hf Ht)
      as (Hc & Hs & Ho & Hstarted & object' & Hq' & Hh & Hctx & Hp' & Hcases).
    destruct Hcases as [(Hf' & Ht' & He) | [(Hf' & Ht' & e & He) | (Hf' & He)]].
    + destruct (IH (Queue_runNext q s) s1 object' Hq' Hp' Hf' Ht' Hs1)
        as (Hc1 & Hs1' & Ho1 & Hstarted1 & object1 & Hq1 & Hh1 & Hctx1 & Hrest).
      * congruence.
      * exact Hok.
      * cbn [length]. repeat (split; [congruence || lia|]).
        exists object1. repeat (split; [congruence|]). exact Hrest.
    + exfalso.
      pose proof (Queue_run_errors_monotone (length pre) q (Queue_runNext q s)) as Hmono.
      rewrite <- Hs1, Herr, He, handlerErrors_submit in Hmono. lia.
    + exfalso.
      assert (Hstuck : s1 = Queue_runNext q s).
      { rewrite Hs1. apply (Queue_run_idle _ _ _ object' Hq'). right. now left. }
      apply Hf'. apply Hok. now rewrite Hstuck.
Qed.

Lemma resolvesTo_contracts (s s' : EventHandlerService) (handlers : Handlers)
    (log : Log) (handler : LogHandler) (eventName : string) (args : Params) :
  contracts (resources s) = contracts (resources s') ->
  resolvesTo s handlers log handler eventName args ->
  resolvesTo s' handlers log handler eventName args.
Proof.
  intros Heq (contract & hs & Hfind & Hrest). exists contract, hs.
  rewrite <- Heq. now split.
Qed.

Lemma resolvesTo_resources (s s' : EventHandlerService) (handlers : Handlers)
    (log : Log) (handler : LogHandler) (eventName : string) (args : Params) :
  resources s = resources s' ->
  resolvesTo s handlers log handler eventName args ->
  resolvesTo s' handlers log handler eventName args.
Proof. intros Heq. apply resolvesTo_contracts. now rewrite Heq. Qed.

Lemma Queue_run_add (n1 n2 q : nat) (s : EventHandlerService) :
  Queue_run (n1 + n2) q s = Queue_run n2 q (Queue_run n1 q s).
Proof.
  revert s. induction n1 as [|n1 IH]; intros s; [reflexivity|].
  cbn. apply IH.
Qed.

(** The step of a running queue whose head is a log that reaches its
    handler, when the handler throws. *)
Lemma Queue_runNext_handler_throws (q : nat) (s : EventHandlerService)
    (object : Queue) (log : Log) (post : list EventHandlerTask)
    (handler : LogHandler) (eventName : string) (args : Params)
    (block : Block) (transaction : Transaction)
    (store' : EntityStore) (error : JsError) :
  let event := {| event_name := eventName; event_params := args;
                  event_log := log; event_block := block;
                  event_transaction := transaction |} in
  getQueue q s = Some object ->
  queue_isPaused object = false ->
  queue_failure object = None ->
  queue_tasks object = LOG log :: post ->
  resolvesTo s (queue_handlers object) log handler eventName args ->
  getBlock (cacheStore (resources s)) (blockHash log) = Some block ->
  getTransaction (cacheStore (resources s)) (transactionHash log) = Some transaction ->
  handler event (queue_context object) (entityStore (resources s)) = (store', Some error) ->
  exists object',
    getQueue q (Queue_runNext q s) = Some object'
    /\ queue_tasks object' = []
    /\ queue_failure object' = None
    /\ errors (resources (Queue_runNext q s))
       = submitHandlerError (handlerErrorOf s event error) (errors (resources s))
    /\ entityStore (resources (Queue_runNext q s)) = store'
    /\ tasksStarted (emitted (Queue_runNext q s)) = S (tasksStarted (emitted s)).
Proof.
  intros event Hq Hp Hf Ht Hres Hblock Htx Hthrow.
  unfold Queue_runNext. rewrite Hq, Hp, Hf, Ht.
  destruct (getQueue_updateQueue q (Queue_setTasks post) s object Hq) as [Hq1 Hupd].
  unfold eventHandlerWorker. rewrite Hq1.
  remember (emit taskStarted (updateQueue q (Queue_setTasks post) s)) as X eqn:EX.
  assert (HX : resources X = resources s) by (rewrite EX, Hupd; reflexivity).
  assert (HqX : getQueue q X = Some (Queue_setTasks post object))
    by (rewrite EX; exact Hq1).
  pose proof (buildLogEvent_resolved log (queue_handlers object) X handler
                eventName args block transaction) as Hbuilt.
  destruct (buildLogEvent_frame log (queue_handlers object) X) as (lines & Hframe).
  change (queue_handlers (Queue_setTasks post object)) with (queue_handlers object).
  change (queue_context (Queue_setTasks post object)) with (queue_context object).
  destruct (buildLogEvent log (queue_handlers object) X) as [s1 result].
  cbn [fst snd] in Hbuilt, Hframe. subst s1.
  rewrite Hbuilt.
  2:{ apply (resolvesTo_resources s X); [now symmetry | exact Hres]. }
  2:{ now rewrite HX. }
  2:{ now rewrite HX. }
  fold event.
  replace (entityStore (resources
             (set_currentLogEventBlockNumber (block_number (event_block event))
                (set_logger lines X))))
    with (entityStore (resources s))
    by (cbn; now rewrite HX).
  rewrite Hthrow.
  assert (Hopt : options (resources
             (set_entityStore store'
                (set_currentLogEventBlockNumber (block_number (event_block event))
                   (set_logger lines X))))
          = options (resources s)) by (cbn; now rewrite HX).
  unfold handlerErrorOf. rewrite <- Hopt.
  destruct (getStackTraceAndCodeFrame error _) as [stackTrace codeFrame].
  unfold reportHandlerError.
  assert (Hq2 : getQueue q
            (set_entityStore store'
               (set_currentLogEventBlockNumber (block_number (event_block event))
                  (set_logger lines X)))
          = Some (Queue_setTasks post object)) by exact HqX.
  unfold_updateQueue Hq2.
  exists (Queue_clear (Queue_setTasks post object)).
  split.
  { eapply getQueue_set_queues_eq; [exact Hq2 | reflexivity]. }
  split; [reflexivity|]. split; [exact Hf|].
  split; [cbn; now rewrite HX|]. split; [reflexivity|].
  cbn -[tasksStarted]. rewrite !tasksStarted_app. rewrite EX, Hupd.
  cbn -[tasksStarted]. rewrite tasksStarted_app. cbn. lia.
Qed.



(** ** [resetEventQueue] *)

Lemma nth_error_app_length {A} (l : list A) (x : A) :
  nth_error (l ++ [x]) (length l) = Some x.
Proof. induction l as [|y l IH]; [reflexivity | exact IH]. Qed.

Lemma nth_app_length {A} (l : list A) (x d : A) :
  nth (length l) (l ++ [x]) d = x.
Proof. induction l as [|y l IH]; [reflexivity | exact IH]. Qed.

Lemma list_update_app_length {A} (l : list A) (x y : A) :
  list_update (length l) y (l ++ [x]) = (l ++ [y])%list.
Proof. induction l as [|z l IH]; cbn; [reflexivity | now rewrite IH]. Qed.

Lemma nth_app_list_update {A} (i : nat) (x y d : A) (l : list A) :
  (i < length l)%nat -> nth i (list_update i x l ++ [y]) d = x.
Proof.
  intros Hi. rewrite app_nth1 by (now rewrite length_list_update).
  now apply nth_list_update_eq.
Qed.

(** Enqueuing the logs of a cycle appends one [LOG] task per log, in order,
    to the queue and changes nothing else. *)
Lemma enqueue_logs (q : nat) (logs : list Log) :
  forall (s : EventHandlerService) (object : Queue),
  getQueue q s = Some object ->
  exists qs,
    fold_left (fun s log => updateQueue q (Queue_addTask (LOG log)) s) logs s
    = set_queues qs s
    /\ nth_error qs q
       = Some (Queue_setTasks (queue_tasks object ++ map LOG logs)%list object)
    /\ length qs = length (queues s).
Proof.
  induction logs as [|log logs IH]; intros s object Hq; cbn [fold_left map].
  - exists (queues s). split; [now destruct s|]. split; [|reflexivity].
    rewrite app_nil_r. unfold getQueue in Hq. rewrite Hq. now destruct object.
  - destruct (getQueue_updateQueue q (Queue_addTask (LOG log)) s object Hq)
      as [Hq1 Hupd].
    destruct (IH _ _ Hq1) as (qs & Hrun & Hnth & Hlen).
    exists qs. rewrite Hrun, Hupd. split; [reflexivity|]. split.
    + rewrite Hnth. cbn. now rewrite <- app_assoc.
    + rewrite Hlen, Hupd. cbn. apply length_list_update.
Qed.

(** The state that [resetEventQueue] leaves when it has both the handlers
    and the schema. *)
Lemma resetEventQueue_state (newHandlers : option Handlers)
    (newSchema : option Schema) (s : EventHandlerService)
    (h : Handlers) (sc : Schema) :
  orElse newHandlers (handlers s) = Some h ->
  orElse newSchema (schema s) = Some sc ->
  resetEventQueue newHandlers newSchema s
  = {| resources := resources s;
       handlers := Some h;
       schema := Some sc;
       queue := Some (length (queues s));
       injectedContracts := injectedContracts s;
       isBackfillStarted := isBackfillStarted s;
       eventProcessingMutex := length (mutexes s);
       eventsHandledToTimestamp := Finite 0;
       currentLogEventBlockNumber := currentLogEventBlockNumber s;
       mutexes := list_update (eventProcessingMutex s)
                    (Mutex_cancel (getMutex (eventProcessingMutex s) s))
                    (mutexes s) ++ [Mutex_new];
       queues := queues s ++ [freshQueue h sc s];
       emitted := emitted s ++ eventQueueReset ::
                    match setup h with
                    | Some _ => [eventsAdded 1 1 (Finite 0) (Finite 0)]
                    | None => []
                    end |}.
Proof.
  intros Hh Hsc. unfold resetEventQueue.
  set (sa := match newHandlers with
             | Some h0 => set_handlers (Some h0) s
             | None => s
             end).
  set (sb := match newSchema with
             | Some sc0 => set_schema (Some sc0) sa
             | None => sa
             end).
  assert (Hhb : handlers sb = Some h).
  { unfold sb, sa. destruct newSchema, newHandlers; exact Hh. }
  assert (Hsb : schema sb = Some sc).
  { unfold sb, sa. destruct newSchema, newHandlers; exact Hsc. }
  assert (Hrest : resources sb = resources s
                  /\ queue sb = queue s
                  /\ injectedContracts sb = injectedContracts s
                  /\ isBackfillStarted sb = isBackfillStarted s
                  /\ eventProcessingMutex sb = eventProcessingMutex s
                  /\ currentLogEventBlockNumber sb = currentLogEventBlockNumber s
                  /\ mutexes sb = mutexes s
                  /\ queues sb = queues s
                  /\ emitted sb = emitted s).
  { unfold sb, sa. destruct newSchema, newHandlers; repeat split. }
  destruct Hrest as (Hr & Hq & Hi & Hb & Hm & Hn & Hms & Hqs & He).
  clearbody sb. clear sa.
  destruct sb as [r0 h0 sc0 q0 i0 b0 m0 w0 n0 ms0 qs0 e0].
  cbn in Hhb, Hsb, Hr, Hq, Hi, Hb, Hm, Hn, Hms, Hqs, He. subst.
  unfold updateMutex, getMutex, emit. cbn -[freshQueue].
  rewrite length_list_update.
  destruct (setup h) as [setupHandler|] eqn:Hsetup.
  - unfold updateQueue, getQueue. cbn -[freshQueue].
    rewrite nth_error_app_length. cbn -[freshQueue].
    rewrite list_update_app_length.
    unfold freshQueue, createEventQueue, buildContext, Queue_addTask.
    cbn. rewrite Hsetup, <- app_assoc. reflexivity.
  - unfold freshQueue, createEventQueue, buildContext.
    cbn. rewrite Hsetup. reflexivity.
Qed.

Lemma existsb_eqb_In (ticket : nat) (l : list nat) :
  In ticket l -> existsb (Nat.eqb ticket) l = true.
Proof.
  intros Hin. apply existsb_exists. exists ticket.
  split; [exact Hin | apply Nat.eqb_refl].
Qed.

(** C5 (as amended).  When the handlers and the schema are both available,
    [resetEventQueue] cancels the mutex, which ends every cycle that is
    waiting for the lock: such a cycle completes without an error (the
    cancellation is swallowed) and without emitting anything, in particular
    no [eventsProcessed].  The reset sets the watermark to 0, replaces the
    mutex by a fresh one, builds a new queue whose worker is bound to the
    handlers and to the context of the schema, and puts a single [SETUP] task
    on it when there is a setup handler.  A cycle started in that state calls
    [getNewEvents] with [fromTimestamp = 0], and the [LOG] tasks it enqueues
    come after the [SETUP] task. *)
Theorem resetEventQueue_restarts
    (newHandlers : option Handlers) (newSchema : option Schema)
    (s : EventHandlerService) (h : Handlers) (sc : Schema) :
  (eventProcessingMutex s < length (mutexes s))%nat ->
  orElse newHandlers (handlers s) = Some h ->
  orElse newSchema (schema s) = Some sc ->
  let s' := resetEventQueue newHandlers newSchema s in
  let m := eventProcessingMutex s in
  let m' := eventProcessingMutex s' in
  let q' := length (queues s) in
  (forall ticket,
      In ticket (mutex_waiting (getMutex m s)) ->
      resume (AwaitingLock m ticket) s' = (Completed (Returned tt), s'))
  /\ eventsHandledToTimestamp s' = Finite 0
  /\ handlers s' = Some h
  /\ schema s' = Some sc
  /\ queue s' = Some q'
  /\ queues s' = (queues s ++ [freshQueue h sc s])%list
  /\ getQueue q' s' = Some (freshQueue h sc s)
  /\ m' = length (mutexes s)
  /\ getMutex m' s' = Mutex_new
  /\ emitsEventsProcessed (skipn (length (emitted s)) (emitted s')) = false
  /\ (isBackfillStarted s = true ->
      isHandlerError (errors (resources s)) = false ->
      exists s1,
        (let '(cycle, s1) := processEvents_call s' in resume cycle s1)
        = (AwaitingNewEvents m' (Finite 0), s1)
        /\ getNewEvents (Finite 0) s1 = getNewEvents (Finite 0) s'
        /\ forall newEvents,
            getNewEvents (Finite 0) s1 = Returned newEvents ->
            hasNewLogs newEvents = true ->
            exists s2 object,
              resume (AwaitingNewEvents m' (Finite 0)) s1
              = (AwaitingQueueEmpty m' q' (logs newEvents) (toTimestamp newEvents), s2)
              /\ getQueue q' s2 = Some object
              /\ queue_tasks object
                 = (queue_tasks (freshQueue h sc s) ++ map LOG (logs newEvents))%list
              /\ queue_handlers object = h
              /\ queue_context object = buildContext sc s).
Proof.
  intros Hm Hh Hsc s' m m' q'.
  pose proof (resetEventQueue_state newHandlers newSchema s h sc Hh Hsc) as Hs'.
  fold s' in Hs'.
  assert (Hmutexes : mutexes s'
            = (list_update m (Mutex_cancel (getMutex m s)) (mutexes s) ++ [Mutex_new])%list)
    by now rewrite Hs'.
  assert (Hm' : m' = length (mutexes s)) by (unfold m'; now rewrite Hs').
  assert (Hqueue : queue s' = Some q') by now rewrite Hs'.
  assert (Hqueues : queues s' = (queues s ++ [freshQueue h sc s])%list) by now rewrite Hs'.
  assert (Hq' : getQueue q' s' = Some (freshQueue h sc s)).
  { unfold getQueue. rewrite Hqueues. apply nth_error_app_length. }
  assert (Hnew : getMutex m' s' = Mutex_new).
  { unfold getMutex. rewrite Hm', Hmutexes.
    rewrite <- (length_list_update m (Mutex_cancel (getMutex m s)) (mutexes s)).
    apply nth_app_length. }
  split.
  { intros ticket Hwait. unfold resume.
    replace (getMutex m s') with (Mutex_cancel (getMutex m s)).
    2:{ unfold getMutex at 2. rewrite Hmutexes. symmetry.
        now apply nth_app_list_update. }
    cbn [Mutex_cancel mutex_cancelled].
    rewrite existsb_eqb_In; [reflexivity|]. apply in_or_app. now right. }
  split; [now rewrite Hs'|]. split; [now rewrite Hs'|]. split; [now rewrite Hs'|].
  split; [exact Hqueue|]. split; [exact Hqueues|]. split; [exact Hq'|].
  split; [exact Hm'|]. split; [exact Hnew|].
  split.
  { rewrite Hs'. cbn [emitted]. rewrite skipn_app, Nat.sub_diag, skipn_all.
    destruct (setup h); reflexivity. }
  intros Hstarted Hnoerr.
  assert (Hlen : (m' < length (mutexes s'))%nat).
  { rewrite Hm', Hmutexes, length_app, length_list_update. cbn. lia. }
  unfold processEvents_call.
  replace (isBackfillStarted s') with true by now rewrite Hs'.
  replace (isHandlerError (errors (resources s'))) with false by now rewrite Hs'.
  cbn [negb]. fold m'. rewrite Hnew. cbn [Mutex_acquire Mutex_new mutex_holder mutex_issued].
  set (held := {| mutex_holder := Some 0%nat; mutex_waiting := mutex_waiting Mutex_new;
                  mutex_cancelled := mutex_cancelled Mutex_new; mutex_issued := 1 |}).
  set (s1 := updateMutex m' (fun _ => held) s').
  assert (Hheld : getMutex m' s1 = held).
  { unfold s1. now rewrite getMutex_updateMutex. }
  exists s1. split.
  { rewrite resume_lock_granted; [| now rewrite Hheld | now rewrite Hheld].
    change (queue s1) with (queue s'). rewrite Hqueue.
    change (eventsHandledToTimestamp s1) with (eventsHandledToTimestamp s').
    now rewrite Hs'. }
  split; [now apply getNewEvents_frame|].
  intros newEvents Hrun Hnewlogs.
  assert (Hq1 : getQueue q' s1 = Some (freshQueue h sc s)) by exact Hq'.
  destruct (enqueue_logs q' (logs newEvents) s1 _ Hq1) as (qs & Hfold & Hnth & _).
  unfold resume. rewrite Hrun, Hnewlogs. cbn [negb].
  change (queue s1) with (queue s'). rewrite Hqueue, Hfold.
  set (s1' := emit _ (set_queues qs s1)).
  assert (Hq1' : getQueue q' s1'
                 = Some (Queue_setTasks
                           (queue_tasks (freshQueue h sc s) ++ map LOG (logs newEvents))%list
                           (freshQueue h sc s))) by exact Hnth.
  destruct (getQueue_updateQueue q' Queue_start s1' _ Hq1') as [Hq2 _].
  eexists. eexists. split; [reflexivity|]. split; [exact Hq2|].
  repeat split.
Qed.

(** ** [buildLogEvent] *)


(** ** [getNewEvents]: order and determinism *)

(** C3.  The logs that [getNewEvents] returns are in non-decreasing order of
    [logSortKey]: of two positions [i < j] the log at [i] has a key no greater
    than the log at [j]. *)
Theorem getNewEvents_logs_sorted
    (fromTimestamp : JsNumber) (s : EventHandlerService) (newEvents : NewEvents) :
  getNewEvents fromTimestamp s = Returned newEvents ->
  forall i j a b,
    (i < j)%nat ->
    nth_error (logs newEvents) i = Some a ->
    nth_error (logs newEvents) j = Some b ->
    logSortKey a <= logSortKey b.
Proof.
  intros Hrun. apply StronglySorted_nth_error.
  unfold getNewEvents in Hrun.
  destruct (Array_includes _ _).
  { injection Hrun as <-. constructor. }
  destruct (JsNumber_leb _ _).
  { injection Hrun as <-. constructor. }
  destruct (Promise_all _) as [rawLogs|]; [|discriminate].
  cbn in Hrun. injection Hrun as <-. cbn [logs].
  apply Array_sort_sorted, compareLogSortKey_comparesBy.
Qed.

(** The logs returned are the logs fetched for the contracts, rearranged. *)
Lemma getNewEvents_logs_permutation
    (fromTimestamp : JsNumber) (s : EventHandlerService) (newEvents : NewEvents) :
  getNewEvents fromTimestamp s = Returned newEvents ->
  hasNewLogs newEvents = true ->
  exists rawLogs,
    Promise_all (map (contractLogs s fromTimestamp (toTimestamp newEvents))
                     (indexedContracts s)) = Returned rawLogs
    /\ Permutation (logs newEvents) (concat (map fst rawLogs)).
Proof.
  unfold getNewEvents, indexedContracts. intros Hrun Hnew.
  destruct (Array_includes _ _).
  { injection Hrun as <-. discriminate. }
  destruct (JsNumber_leb _ _).
  { injection Hrun as <-. discriminate. }
  destruct (Promise_all _) as [rawLogs|] eqn:Hraw; [|discriminate].
  cbn in Hrun. injection Hrun as <-. cbn [logs toTimestamp].
  exists rawLogs. split; [exact Hraw|]. apply Array_sort_permutation.
Qed.

(** C8.  [getNewEvents] reads the contracts, the cache store and the
    handlers and nothing else, and it writes nothing: called again with the
    same [fromTimestamp], in any state of the service with the same cache and
    configuration, it gives the same result, that is the same [hasNewLogs],
    [toTimestamp] and logs. *)
Theorem getNewEvents_deterministic
    (fromTimestamp : JsNumber) (s1 s2 : EventHandlerService) :
  contracts (resources s1) = contracts (resources s2) ->
  cacheStore (resources s1) = cacheStore (resources s2) ->
  handlers s1 = handlers s2 ->
  getNewEvents fromTimestamp s1 = getNewEvents fromTimestamp s2.
Proof. apply getNewEvents_frame. Qed.

End Service.

(** ** Concrete runs on the sample deployment *)

Lemma sample_cacheWellFormed (logs : list Log) :
  cacheWellFormed (sampleService sampleIntervals logs).
Proof.
  intros contract Hin. cbn in Hin. destruct Hin as [<-|[]].
  split.
  - repeat constructor.
  - repeat constructor. cbn. lia.
Qed.

Lemma sample_minimumBound (s : EventHandlerService (ext := sampleExternals)) :
  contracts (resources s) = [pairContract] ->
  getCachedIntervals (cacheStore (resources s)) "0xpair" = sampleIntervals ->
  minimumBound s 5000.
Proof.
  intros Hc Hi.
  assert (Hb : sourceBound s pairContract 5000).
  { unfold sourceBound, cachedIntervalsOf. cbn [contract_address pairContract].
    rewrite Hi. eexists. split; [left; reflexivity|].
    split; [unfold covers; cbn; lia | reflexivity]. }
  unfold minimumBound, indexedContracts. rewrite Hc. cbn. split.
  - exists pairContract. split; [now left | exact Hb].
  - intros contract [<-|[]]. exists 5000. split; [exact Hb | lia].
Qed.

Lemma sample_handledEventsEncode (logs : list Log) :
  handledEventsEncode (sampleService sampleIntervals logs).
Proof.
  intros contract Hin. cbn in Hin. destruct Hin as [<-|[]].
  intros eventName Hname. cbn in Hname. destruct Hname as [<-|[]].
  eexists. reflexivity.
Qed.

Lemma getNewEvents_watermark_witness :
  cacheWellFormed (sampleService sampleIntervals sampleLogs)
  /\ minimumBound (sampleService sampleIntervals sampleLogs) 5000
  /\ (exists newEvents,
        getNewEvents (Finite 0) (sampleService sampleIntervals sampleLogs)
        = Returned newEvents
        /\ hasNewLogs newEvents = true
        /\ toTimestamp newEvents = Finite 5000)
  /\ getNewEvents (Finite 5000) (sampleService sampleIntervals sampleLogs)
     = Returned (noNewEvents (Finite 5000)).
Proof.
  pose proof (sample_cacheWellFormed sampleLogs) as Hwf.
  assert (Hmin : minimumBound (sampleService sampleIntervals sampleLogs) 5000)
    by (apply sample_minimumBound; reflexivity).
  split; [exact Hwf|]. split; [exact Hmin|].
  destruct (getNewEvents_watermark (Finite 0)
              (sampleService sampleIntervals sampleLogs) Hwf) as [_ Hcovered].
  destruct (getNewEvents_watermark (Finite 5000)
              (sampleService sampleIntervals sampleLogs) Hwf) as [_ Hbehind].
  split.
  - apply (proj1 (Hcovered 5000 Hmin)); [reflexivity|].
    apply sample_handledEventsEncode.
  - apply (proj2 (Hbehind 5000 Hmin)). reflexivity.
Defined.

(** With the watermark at 6000 and the only source cached up to 5000, the
    minimum of the bounds is 5000 and [getNewEvents] returns
    [toTimestamp = 6000]. *)
Lemma getNewEvents_watermark_counterexample :
  cacheWellFormed (sampleService sampleIntervals sampleLogs)
  /\ minimumBound (sampleService sampleIntervals sampleLogs) 5000
  /\ getNewEvents (Finite 6000) (sampleService sampleIntervals sampleLogs)
     = Returned (noNewEvents (Finite 6000))
  /\ ~ (exists newEvents,
          getNewEvents (Finite 6000) (sampleService sampleIntervals sampleLogs)
          = Returned newEvents
          /\ toTimestamp newEvents = Finite 5000).
Proof.
  split; [apply sample_cacheWellFormed|].
  split; [apply sample_minimumBound; reflexivity|].
  split; [reflexivity|].
  intros (newEvents & Hrun & Hto).
  assert (Hrun' : getNewEvents (Finite 6000) (sampleService sampleIntervals sampleLogs)
                  = Returned (noNewEvents (Finite 6000))) by reflexivity.
  rewrite Hrun' in Hrun. injection Hrun as <-. discriminate Hto.
Qed.

Lemma getNewEvents_logs_sorted_witness :
  getNewEvents (Finite 0) (sampleService sampleIntervals sampleLogs)
  = Returned {| hasNewLogs := true; toTimestamp := Finite 5000;
                logs := sortedSampleLogs; totalLogCount := Some 5%nat |}
  /\ logSortKey (swapLog 20 "0x02" "0xb2") <= logSortKey (swapLog 50 "0x05" "0xb5").
Proof.
  assert (Hrun : getNewEvents (Finite 0) (sampleService sampleIntervals sampleLogs)
                 = Returned {| hasNewLogs := true; toTimestamp := Finite 5000;
                               logs := sortedSampleLogs;
                               totalLogCount := Some 5%nat |}) by reflexivity.
  split; [exact Hrun|].
  apply (getNewEvents_logs_sorted _ _ _ Hrun 1 4); [lia | reflexivity | reflexivity].
Defined.

Lemma getNewEvents_deterministic_witness :
  contracts (resources (sampleService sampleIntervals calmLogs))
  = contracts (resources sampleSettled)
  /\ cacheStore (resources (sampleService sampleIntervals calmLogs))
     = cacheStore (resources sampleSettled)
  /\ handlers (sampleService sampleIntervals calmLogs) = handlers sampleSettled
  /\ getNewEvents (Finite 0) (sampleService sampleIntervals calmLogs)
     = getNewEvents (Finite 0) sampleSettled.
Proof.
  assert (H1 : contracts (resources (sampleService sampleIntervals calmLogs))
               = contracts (resources sampleSettled)) by reflexivity.
  assert (H2 : cacheStore (resources (sampleService sampleIntervals calmLogs))
               = cacheStore (resources sampleSettled)) by reflexivity.
  assert (H3 : handlers (sampleService sampleIntervals calmLogs)
               = handlers sampleSettled) by reflexivity.
  repeat (split; [assumption|]).
  exact (getNewEvents_deterministic (Finite 0) _ _ H1 H2 H3).
Defined.

Lemma sampleSettled_mutexIdle : mutexIdle sampleSettled.
Proof.
  vm_compute. repeat constructor.
Qed.

Lemma processEvents_without_new_data_witness :
  cacheWellFormed sampleSettled
  /\ mutexIdle sampleSettled
  /\ minimumBound sampleSettled 5000
  /\ JsNumber_leb (Finite 5000) (eventsHandledToTimestamp sampleSettled) = true
  /\ (exists newEvents,
        getNewEvents (eventsHandledToTimestamp sampleSettled) sampleSettled
        = Returned newEvents
        /\ hasNewLogs newEvents = false)
  /\ exists s',
      processEvents sampleSettled = (Completed (Returned tt), s')
      /\ queues s' = queues sampleSettled
      /\ emitted s' = emitted sampleSettled
      /\ eventsHandledToTimestamp s' = eventsHandledToTimestamp sampleSettled
      /\ resources s' = resources sampleSettled
      /\ queue s' = queue sampleSettled
      /\ handlers s' = handlers sampleSettled
      /\ schema s' = schema sampleSettled
      /\ currentLogEventBlockNumber s' = currentLogEventBlockNumber sampleSettled
      /\ mutexIdle s'.
Proof.
  assert (Hwf : cacheWellFormed sampleSettled).
  { intros contract Hin. exact (sample_cacheWellFormed calmLogs contract Hin). }
  assert (Hmin : minimumBound sampleSettled 5000)
    by (apply sample_minimumBound; reflexivity).
  assert (Hle : JsNumber_leb (Finite 5000) (eventsHandledToTimestamp sampleSettled)
                = true) by reflexivity.
  split; [exact Hwf|]. split; [exact sampleSettled_mutexIdle|].
  split; [exact Hmin|]. split; [exact Hle|].
  apply (processEvents_without_new_data sampleSettled Hwf sampleSettled_mutexIdle).
  right. exists 5000. split; [exact Hmin | exact Hle].
Defined.

(** The log of the sample whose handler throws, its event, and a log
    whose block is not in the cache. *)
Lemma sample_resolvesTo (s : EventHandlerService (ext := sampleExternals))
    (key : Z) (data blockHash : Hex) :
  contracts (resources s) = [pairContract] ->
  resolvesTo s sampleHandlers (swapLog key data blockHash) swapHandler "Swap" data.
Proof.
  intros Hc. exists pairContract, [("Swap", swapHandler)].
  rewrite Hc. repeat split.
Qed.




Lemma resetEventQueue_restarts_witness :
  let s := sampleContended in
  let s' := resetEventQueue (Some sampleHandlers) None s in
  (forall ticket,
      In ticket (mutex_waiting (getMutex (eventProcessingMutex s) s)) ->
      resume (AwaitingLock (eventProcessingMutex s) ticket) s'
      = (Completed (Returned tt), s'))
  /\ In 1%nat (mutex_waiting (getMutex (eventProcessingMutex s) s))
  /\ eventsHandledToTimestamp s' = Finite 0
  /\ handlers s' = Some sampleHandlers
  /\ queue s' = Some 1%nat
  /\ getQueue 1 s' = Some (freshQueue sampleHandlers sampleSchema s)
  /\ getMutex (eventProcessingMutex s') s' = Mutex_new.
Proof.
  intros s s'.
  destruct (resetEventQueue_restarts (Some sampleHandlers) None s
              sampleHandlers sampleSchema)
    as (Hwait & Hwater & Hh & _ & Hq & _ & Hfresh & _ & Hmutex & _).
  - cbn. lia.
  - reflexivity.
  - reflexivity.
  - split; [exact Hwait|]. split; [now left|].
    split; [exact Hwater|]. split; [exact Hh|]. split; [exact Hq|].
    split; [exact Hfresh | exact Hmutex].
Defined.

(** A reset while a cycle holds the lock.  The cycle has taken the lock and
    awaits [getNewEvents]; [resetEventQueue] runs; the cycle goes on: it puts
    its logs on the new queue, runs it, sets the watermark to 5000 and emits
    [eventsProcessed].  So the cycle in flight is not ended by the reset, and
    the next cycle starts from 5000, not from 0. *)
Lemma resetEventQueue_lock_holder_counterexample :
  let s0 := sampleService sampleIntervals calmLogs in
  let held := let '(cycle, s) := processEvents_call s0 in resume cycle s in
  let s3 := resetEventQueue (Some sampleHandlers) None (snd held) in
  let queued := resume (fst held) s3 in
  let s5 := Queue_drain 1 (snd queued) in
  let done := resume (fst queued) s5 in
  fst held = AwaitingNewEvents 1 (Finite 0)
  /\ eventsHandledToTimestamp s3 = Finite 0
  /\ fst done = Completed (Returned tt)
  /\ emitsEventsProcessed (skipn (length (emitted s3)) (emitted (snd done))) = true
  /\ eventsHandledToTimestamp (snd done) = Finite 5000
  /\ fst (let '(cycle, s) := processEvents_call (snd done) in resume cycle s)
     = AwaitingNewEvents 2 (Finite 5000).
Proof.
  vm_compute. repeat split.
Qed.

End EventHandlerServiceFacts.

(* ===================================================================== *)
(** * The conversion utilities: what they write and what they accept      *)
(* ===================================================================== *)

Module ConversionLaws.
Import Conversion ConversionFacts.

Local Open Scope string_scope.

Lemma length_append (a b : string) :
  String.length (a ++ b) = String.length a + String.length b.
Proof. induction a as [|x a IH]; simpl; [reflexivity | now rewrite IH]. Qed.

Lemma list_ascii_of_string_append (a b : string) :
  list_ascii_of_string (a ++ b)
  = (list_ascii_of_string a ++ list_ascii_of_string b)%list.
Proof. induction a as [|x a IH]; simpl; [reflexivity | now rewrite IH]. Qed.

Lemma hexOfByte_lower_digits (b : Byte.byte) :
  String.length (hexOfByte b) = 2
  /\ forallb isLowerHexDigit (list_ascii_of_string (hexOfByte b)) = true.
Proof. destruct b; split; vm_compute; reflexivity. Qed.

Lemma digits_shape (bytes : Uint8Array) :
  String.length (fold_right (fun byte str => hexOfByte byte ++ str) "" bytes)
  = 2 * length bytes
  /\ forallb isLowerHexDigit
       (list_ascii_of_string
          (fold_right (fun byte str => hexOfByte byte ++ str) "" bytes))
     = true.
Proof.
  induction bytes as [|b bytes [IHlen IHdigits]]; [split; reflexivity|].
  destruct (hexOfByte_lower_digits b) as [Hlen Hdigits].
  cbn [fold_right length]. split.
  - rewrite length_append, Hlen, IHlen. lia.
  - rewrite list_ascii_of_string_append, forallb_app, Hdigits, IHdigits.
    reflexivity.
Qed.

(** X1.  [bytesToHex] writes ["0x"] and then exactly two characters for
    each byte, every one of them a digit [0-9] or a lower-case letter [a-f]:
    the text is as long as [2 + 2 * bytes.length], for the empty array it is
    ["0x"], and no byte is written with one digit only. *)
Theorem bytesToHex_two_digits_per_byte (bytes : Uint8Array) :
  exists digits,
    bytesToHex bytes = "0x" ++ digits
    /\ String.length digits = 2 * length bytes
    /\ String.length (bytesToHex bytes) = 2 + 2 * length bytes
    /\ forallb isLowerHexDigit (list_ascii_of_string digits) = true.
Proof.
  destruct (digits_shape bytes) as [Hlen Hdigits].
  exists (fold_right (fun byte str => hexOfByte byte ++ str) "" bytes).
  rewrite bytesToHex_digits.
  split; [reflexivity|]. split; [exact Hlen|]. split; [|exact Hdigits].
  rewrite length_append, Hlen. reflexivity.
Qed.

Lemma matchAll_digits_then (bytes : Uint8Array) (rest : string) :
  matchAll_dot_1_2
    (fold_right (fun byte str => hexOfByte byte ++ str) "" bytes ++ rest)
  = (map hexOfByte bytes ++ matchAll_dot_1_2 rest)%list.
Proof.
  induction bytes as [|b bytes IH]; [reflexivity|].
  cbn [fold_right map]. rewrite append_assoc, matchAll_hexOfByte, IH.
  reflexivity.
Qed.

(** [hexToBytes] on the text of [bytesToHex] followed by more text. *)
Lemma hexToBytes_digits_then (bytes : Uint8Array) (rest : string) :
  hexToBytes (bytesToHex bytes ++ rest)
  = match (map hexOfByte bytes ++ matchAll_dot_1_2 rest)%list with
    | [] => Threw (TypeError "Cannot read properties of null (reading 'map')")
    | ms => Returned (Uint8Array_from (map (fun byte => parseInt16 byte) ms))
    end.
Proof.
  rewrite bytesToHex_digits, append_assoc. unfold hexToBytes.
  cbv beta zeta. rewrite startsWith_0x.
  change (String_slice 2 ("0x" ++ ?s)) with s.
  unfold String_match_dot_1_2. rewrite matchAll_digits_then.
  destruct (map hexOfByte bytes ++ matchAll_dot_1_2 rest)%list; reflexivity.
Qed.

Lemma Uint8Array_from_digits (bytes : Uint8Array) :
  Uint8Array_from (map (fun byte => parseInt16 byte) (map hexOfByte bytes))
  = bytes.
Proof.
  unfold Uint8Array_from. rewrite !map_map.
  rewrite <- (map_id bytes) at 2.
  apply map_ext. intros a. apply ToUint8_parseInt16_hexOfByte.
Qed.

(** X2.  [bytesToString] does not decode its bytes as text: it returns the
    same hexadecimal text as [bytesToHex], for every array, so that
    [hexToBytes] reads a non-empty array back from it. *)
Theorem bytesToString_writes_hex (bytes : Uint8Array) :
  bytesToString bytes = bytesToHex bytes
  /\ (bytes <> [] -> hexToBytes (bytesToString bytes) = Returned bytes).
Proof.
  split; [reflexivity|]. intros Hne.
  change (bytesToString bytes) with (bytesToHex bytes).
  rewrite <- (append_empty_r (bytesToHex bytes)), hexToBytes_digits_then.
  cbn [matchAll_dot_1_2]. rewrite app_nil_r.
  destruct bytes as [|b bytes]; [congruence|].
  cbn [map]. f_equal.
  exact (Uint8Array_from_digits (b :: bytes)).
Qed.

Lemma parseInt16_single_digit (d : ascii) (v : Z) :
  hexDigitValue d = Some v ->
  isLineTerminator d = false
  /\ parseInt16 (String d "") = Some v
  /\ (0 <= v < 16)%Z.
Proof.
  destruct d as [[] [] [] [] [] [] [] []]; intros H; vm_compute in H;
    try discriminate H; injection H as <-;
    (split; [reflexivity|]; split; [reflexivity | lia]).
Qed.

(** X3.  A hexadecimal text with an odd number of digits is not padded on
    the left: [hexToBytes] reads the digits in pairs from the left, and the
    digit left over at the end becomes a byte of its own, with the value of
    that digit.  So the text of [bytesToHex(bytes)] followed by one more
    digit [d] reads as the bytes followed by the byte [d], also for the empty
    array. *)
Theorem hexToBytes_odd_length (bytes : Uint8Array) (d : ascii) (v : Z) :
  hexDigitValue d = Some v ->
  hexToBytes (bytesToHex bytes ++ String d "")
  = Returned (bytes ++ [ToUint8 (Some v)])%list
  /\ (0 <= v < 16)%Z.
Proof.
  intros Hd. destruct (parseInt16_single_digit d v Hd) as (Hlt & Hparse & Hv).
  split; [|exact Hv].
  rewrite hexToBytes_digits_then. cbn [matchAll_dot_1_2]. rewrite Hlt.
  destruct (map hexOfByte bytes ++ [String d ""])%list as [|m ms] eqn:Hms.
  { now destruct (map hexOfByte bytes). }
  rewrite <- Hms. f_equal.
  unfold Uint8Array_from. rewrite !map_app. cbn [map]. rewrite Hparse.
  f_equal. exact (Uint8Array_from_digits bytes).
Qed.

Lemma matchAll_line_terminators (s : string) :
  forallb isLineTerminator (list_ascii_of_string s) = true ->
  matchAll_dot_1_2 s = [].
Proof.
  induction s as [|c s IH]; [reflexivity|].
  cbn [list_ascii_of_string forallb matchAll_dot_1_2].
  intros H. apply andb_prop in H. destruct H as [Hc Hs].
  rewrite Hc. now apply IH.
Qed.

Lemma matchAll_length (s : string) :
  (forallb (fun c => negb (isLineTerminator c)) (list_ascii_of_string s) = true ->
   length (matchAll_dot_1_2 s) = Nat.div2 (S (String.length s)))
  /\ (forall c,
        forallb (fun c => negb (isLineTerminator c))
          (list_ascii_of_string (String c s)) = true ->
        length (matchAll_dot_1_2 (String c s))
        = Nat.div2 (S (String.length (String c s)))).
Proof.
  induction s as [|c2 s [IH1 IH2]].
  - split; [reflexivity|]. intros c H.
    cbn [list_ascii_of_string forallb] in H.
    apply andb_prop in H. destruct H as [Hc _].
    apply negb_true_iff in Hc. cbn [matchAll_dot_1_2]. now rewrite Hc.
  - split; [apply IH2|]. intros c1 H.
    cbn [list_ascii_of_string forallb] in H.
    apply andb_prop in H. destruct H as [Hc1 H].
    apply andb_prop in H. destruct H as [Hc2 Hs].
    apply negb_true_iff in Hc1. apply negb_true_iff in Hc2.
    cbn [matchAll_dot_1_2]. rewrite Hc1, Hc2.
    cbn [length String.length]. rewrite (IH1 Hs). reflexivity.
Qed.

Lemma matchAll_nil (s : string) :
  matchAll_dot_1_2 s = [] ->
  forallb isLineTerminator (list_ascii_of_string s) = true.
Proof.
  induction s as [|c1 s IH]; [reflexivity|].
  cbn [list_ascii_of_string forallb matchAll_dot_1_2].
  destruct (isLineTerminator c1); [exact IH|].
  destruct s as [|c2 s]; [discriminate|].
  destruct (isLineTerminator c2); discriminate.
Qed.

(** X4.  [hexToBytes] checks nothing about its text.  It throws, a
    [TypeError], exactly when the regular expression finds no match, that is
    when the text after an optional ["0x"] is empty or made of line
    terminators only; on every other text it returns.  On a text without
    line terminators it returns, whatever the characters are, one byte for
    every two characters and one more for a character left over. *)
Theorem hexToBytes_accepts_any_text (hexString : string) :
  (forallb isLineTerminator (list_ascii_of_string (hexBody hexString)) = true
   <-> hexToBytes hexString
       = Threw (TypeError "Cannot read properties of null (reading 'map')"))
  /\ (forallb isLineTerminator (list_ascii_of_string (hexBody hexString)) = false
      <-> exists bytes, hexToBytes hexString = Returned bytes)
  /\ (hexBody hexString <> "" ->
      forallb (fun c => negb (isLineTerminator c))
        (list_ascii_of_string (hexBody hexString)) = true ->
      exists bytes,
        hexToBytes hexString = Returned bytes
        /\ length bytes = Nat.div2 (S (String.length (hexBody hexString)))).
Proof.
  change (hexToBytes hexString)
    with (match String_match_dot_1_2 (hexBody hexString) with
          | None => Threw (TypeError "Cannot read properties of null (reading 'map')")
          | Some ms =>
              Returned (Uint8Array_from (map (fun byte => parseInt16 byte) ms))
          end).
  unfold String_match_dot_1_2.
  pose proof (matchAll_line_terminators (hexBody hexString)) as Hnone.
  pose proof (matchAll_nil (hexBody hexString)) as Hall.
  pose proof (proj1 (matchAll_length (hexBody hexString))) as Hlen.
  destruct (matchAll_dot_1_2 (hexBody hexString)) as [|m ms].
  - rewrite (Hall eq_refl). split; [|split].
    + split; reflexivity.
    + split; [discriminate | intros [bytes H]; discriminate H].
    + intros Hne H. specialize (Hlen H).
      destruct (hexBody hexString); [congruence | discriminate Hlen].
  - destruct (forallb isLineTerminator _).
    + discriminate (Hnone eq_refl).
    + split; [|split].
      * split; discriminate.
      * split; [intros _; eexists; reflexivity | reflexivity].
      * intros _ H. eexists. split; [reflexivity|].
        unfold Uint8Array_from. rewrite !length_map. exact (Hlen H).
Qed.

Lemma bytesToString_writes_hex_witness :
  hexToBytes (bytesToString [Byte.x01; Byte.xff]) = Returned [Byte.x01; Byte.xff].
Proof.
  apply (proj2 (bytesToString_writes_hex [Byte.x01; Byte.xff])). discriminate.
Defined.

Lemma hexToBytes_odd_length_witness :
  hexToBytes (bytesToHex [Byte.xab] ++ "c") = Returned [Byte.xab; Byte.x0c].
Proof.
  exact (proj1 (hexToBytes_odd_length [Byte.xab] "c"%char 12 eq_refl)).
Defined.

Lemma hexToBytes_accepts_any_text_witness :
  hexToBytes "0x"
  = Threw (TypeError "Cannot read properties of null (reading 'map')")
  /\ exists bytes, hexToBytes "0xzz1" = Returned bytes /\ length bytes = 2.
Proof.
  split.
  - apply (proj1 (proj1 (hexToBytes_accepts_any_text "0x"))). reflexivity.
  - apply (proj2 (proj2 (hexToBytes_accepts_any_text "0xzz1")));
      [discriminate | reflexivity].
Defined.

End ConversionLaws.

(* ===================================================================== *)
(** * The event decoder: errors, composition and the shape of the args    *)
(* ===================================================================== *)

Module EventDecoderWorkerLaws.
Import EventDecoderWorker EventDecoderWorkerFacts.

Local Open Scope string_scope.

Section Decoder.
Context {viem : Viem}.

(** ** [processEvents] *)

(** An iteration throws only for a row without a source. *)
Lemma processEvent_throws sources decodedEvents ev e :
  processEvent sources decodedEvents ev = Threw e ->
  length sources <= sourceIndex ev
  /\ e = TypeError "Cannot read properties of undefined (reading 'type')".
Proof.
  unfold processEvent.
  destruct (nth_error sources (sourceIndex ev))
    as [[name|name [|] abiEvents abiFunctions]|] eqn:Hsrc.
  - discriminate.
  - destruct (decodeLogRow name abiEvents ev); discriminate.
  - destruct (decodeTraceRow name abiFunctions ev); discriminate.
  - intros [= <-]. split; [now apply nth_error_None | reflexivity].
Qed.

Lemma processEvents_loop_throws sources events :
  forall decodedEvents e,
  processEvents_loop sources events decodedEvents = Threw e ->
  Exists (fun ev => length sources <= sourceIndex ev) events
  /\ e = TypeError "Cannot read properties of undefined (reading 'type')".
Proof.
  induction events as [|ev events IH]; intros d e; cbn [processEvents_loop].
  - discriminate.
  - destruct (processEvent sources d ev) as [d'|e'] eqn:Hstep; cbn [bindO].
    + intros Hloop. destruct (IH d' e Hloop) as [Hex He].
      split; [now apply Exists_cons_tl | exact He].
    + intros [= <-]. destruct (processEvent_throws _ _ _ _ Hstep) as [Hbad He].
      split; [now apply Exists_cons_hd | exact He].
Qed.

(** X5.  [processEvents] throws exactly when some row of the batch carries a
    [sourceIndex] outside the source list, wherever the row stands and
    whatever the other rows are; the events decoded before it are lost with
    it.  The value thrown is then the [TypeError] of reading [type] of
    [undefined]: an error of a decoding library never leaves
    [processEvents]. *)
Theorem processEvents_throws_on_unknown_source
    (events : list RawEvent) (sources : list Source) :
  (Exists (fun ev => length sources <= sourceIndex ev) events
   <-> exists e, processEvents events sources = Threw e)
  /\ (forall e,
        processEvents events sources = Threw e ->
        e = TypeError "Cannot read properties of undefined (reading 'type')").
Proof.
  split; [split|].
  - apply processEvents_missing_source.
  - intros [e He]. exact (proj1 (processEvents_loop_throws _ _ _ _ He)).
  - intros e He. exact (proj2 (processEvents_loop_throws _ _ _ _ He)).
Qed.

(** X6.  Decoding is done row by row and keeps no state between rows: the
    events of a batch are the events of its first part followed by the events
    of the rest, for every way of cutting the batch, and the batch throws when
    one of the parts does. *)
Theorem processEvents_of_concatenation
    (sources : list Source) (events1 events2 : list RawEvent) :
  processEvents (events1 ++ events2) sources
  = (let* decoded1 := processEvents events1 sources in
     let* decoded2 := processEvents events2 sources in
     Returned (decoded1 ++ decoded2)%list).
Proof.
  unfold processEvents. rewrite processEvents_loop_app.
  destruct (processEvents_loop sources events1 []) as [decoded1|];
    cbn [bindO]; [|reflexivity].
  apply processEvents_loop_acc.
Qed.

(** ** [decodeEventLog] *)

Lemma decodeIndexed_missing_topic isUnnamed argTopics indexedInputs :
  forall i args,
  i <= length argTopics ->
  length argTopics < i + length indexedInputs ->
  (exists e, decodeIndexed isUnnamed argTopics indexedInputs i args = Threw e)
  /\ ((forall param topic,
         In param indexedInputs -> In topic argTopics ->
         exists decoded, decodeAbiParameters [param] topic = Returned decoded) ->
      decodeIndexed isUnnamed argTopics indexedInputs i args
      = Threw (Error "Missing topic")).
Proof.
  induction indexedInputs as [|param rest IH]; intros i args Hi Hlen.
  - cbn [length] in Hlen. lia.
  - cbn [decodeIndexed].
    destruct (nth_error argTopics i) as [topic|] eqn:Htopic.
    2:{ split; [eexists|]; reflexivity. }
    destruct (String.eqb topic "").
    { split; [eexists|]; reflexivity. }
    assert (Hrest : length argTopics < S i + length rest)
      by (cbn [length] in Hlen; lia).
    assert (Hnext : S i <= length argTopics)
      by (apply nth_error_Some; congruence).
    destruct (decodeTopic param topic) as [v|e] eqn:Hdec; cbn [bindO].
    + destruct (IH (S i)
                  (Args_set
                     (if isUnnamed then KeyIndex i
                      else if hasName param
                           then KeyName match param_name param with
                                        | Some n => n
                                        | None => ""
                                        end
                           else KeyIndex i) i v args) Hnext Hrest)
        as [Hthrows Hmissing].
      split; [exact Hthrows|]. intros Hlib. apply Hmissing.
      intros p t Hp Ht. apply Hlib; [now right | exact Ht].
    + split; [now exists e|]. intros Hlib. exfalso.
      unfold decodeTopic in Hdec.
      destruct (_ || _); [discriminate|].
      destruct (Hlib param topic) as [decoded Hret];
        [now left | now apply (nth_error_In argTopics i) |].
      rewrite Hret in Hdec. discriminate.
Qed.

(** X7.  A log with fewer argument topics than its ABI item has indexed
    inputs does not decode: [decodeEventLog] throws, whatever the data are,
    and it throws ["Missing topic"] when the topics that are there decode. *)
Theorem decodeEventLog_missing_topic
    (abiItem : AbiItem) (abiInputs : list AbiParameter)
    (topics : list Hex) (data : Hex) :
  inputs abiItem = Some abiInputs ->
  length (tl topics) < length (filter isIndexed abiInputs) ->
  (exists e, decodeEventLog abiItem topics data = Threw e)
  /\ ((forall param topic,
         In param (filter isIndexed abiInputs) -> In topic (tl topics) ->
         exists decoded, decodeAbiParameters [param] topic = Returned decoded) ->
      decodeEventLog abiItem topics data = Threw (Error "Missing topic")).
Proof.
  intros Hin Hlen. unfold decodeEventLog. rewrite Hin.
  destruct (decodeIndexed_missing_topic
              (existsb (fun x => negb (hasName x)) abiInputs) (tl topics)
              (filter isIndexed abiInputs) 0
              (if existsb (fun x => negb (hasName x)) abiInputs
               then ArgsArray [] else ArgsObject []) (Nat.le_0_l _) Hlen)
    as [[e He] Hmissing].
  split.
  - exists e. now rewrite He.
  - intros Hlib. now rewrite (Hmissing Hlib).
Qed.

Lemma Array_set_length (v : Value) (l : list Value) :
  Array_set (length l) v l = (l ++ [v])%list.
Proof.
  unfold Array_set.
  rewrite firstn_all, Nat.sub_diag, skipn_all2 by lia. reflexivity.
Qed.

(** The loop over the indexed inputs, when some input has no name: it
    writes the decoded topics one after the other at the end of the array. *)
Lemma decodeIndexed_unnamed (indexedInputs : list AbiParameter) :
  forall (before argTopics : list Hex) (elements values : list Value),
  length elements = length before ->
  length indexedInputs <= length argTopics ->
  Forall2 (fun input v =>
             snd input <> "" /\ decodeTopic (fst input) (snd input) = Returned v)
    (combine indexedInputs argTopics) values ->
  decodeIndexed true (before ++ argTopics) indexedInputs (length before)
    (ArgsArray elements)
  = Returned (ArgsArray (elements ++ values)).
Proof.
  induction indexedInputs as [|param rest IH];
    intros before argTopics elements values Hl Hlen Hvalues.
  - cbn [combine] in Hvalues. inversion Hvalues. cbn [decodeIndexed].
    now rewrite app_nil_r.
  - destruct argTopics as [|topic argTopics]; [cbn [length] in Hlen; lia|].
    cbn [combine] in Hvalues.
    inversion Hvalues as [|input v inputs values' [Hne Hdec] Hrest]; subst.
    cbn [fst snd] in *. cbn [decodeIndexed].
    rewrite nth_error_app2, Nat.sub_diag by lia. cbn [nth_error].
    destruct (String.eqb topic "") eqn:Hempty.
    { apply String.eqb_eq in Hempty. congruence. }
    rewrite Hdec. cbn [bindO Args_set].
    rewrite <- Hl, Array_set_length, Hl.
    specialize (IH (before ++ [topic])%list argTopics (elements ++ [v])%list values').
    rewrite !length_app in IH. cbn [length] in IH.
    rewrite Hl, <- app_assoc in IH. cbn [app] in IH.
    replace (length before + 1) with (S (length before)) in IH by lia.
    rewrite IH, <- app_assoc; [reflexivity | reflexivity | | exact Hrest].
    cbn [length] in Hlen. lia.
Qed.

(** X8.  When some input of the ABI item has no name, the args are an array
    that holds the indexed inputs first, decoded from the topics in their
    order, and then the values decoded from the data: the position of an
    argument is not the position of its input in the ABI item as soon as a
    non-indexed input stands before an indexed one.  The result is
    [undefined] when the array is empty. *)
Theorem decodeEventLog_unnamed_positions
    (abiItem : AbiItem) (abiInputs : list AbiParameter)
    (topics : list Hex) (data : Hex) (values : list Value) :
  inputs abiItem = Some abiInputs ->
  existsb (fun x => negb (hasName x)) abiInputs = true ->
  length (filter isIndexed abiInputs) <= length (tl topics) ->
  Forall2 (fun input v =>
             snd input <> "" /\ decodeTopic (fst input) (snd input) = Returned v)
    (combine (filter isIndexed abiInputs) (tl topics)) values ->
  (forall decodedData,
      filter (fun x => negb (isIndexed x)) abiInputs <> [] ->
      data <> "" -> data <> "0x" ->
      decodeAbiParameters (filter (fun x => negb (isIndexed x)) abiInputs) data
      = Returned (Some decodedData) ->
      decodeEventLog abiItem topics data
      = Returned
          (if (0 <? length (values ++ map VAbi decodedData))%nat
           then Some (ArgsArray (values ++ map VAbi decodedData))
           else None))
  /\ (filter (fun x => negb (isIndexed x)) abiInputs = []
      \/ data = "" \/ data = "0x" ->
      decodeEventLog abiItem topics data
      = Returned (if (0 <? length values)%nat
                  then Some (ArgsArray values) else None)).
Proof.
  intros Hin Hunnamed Hlen Hvalues.
  pose proof (decodeIndexed_unnamed (filter isIndexed abiInputs) [] (tl topics)
                [] values eq_refl Hlen Hvalues) as Hloop.
  cbn [app length] in Hloop.
  unfold decodeEventLog. rewrite Hin, Hunnamed, Hloop. cbn [bindO].
  split.
  - intros decodedData Hsome Hdata Hdata' Hdecoded.
    destruct (filter (fun x => negb (isIndexed x)) abiInputs) as [|x xs] eqn:Hrest;
      [congruence|].
    cbn [length Nat.ltb Nat.leb andb].
    apply String.eqb_neq in Hdata. apply String.eqb_neq in Hdata'.
    rewrite Hdata, Hdata'. cbn [negb andb].
    rewrite Hdecoded. reflexivity.
  - intros Hnone.
    destruct (filter (fun x => negb (isIndexed x)) abiInputs) as [|x xs] eqn:Hrest.
    + reflexivity.
    + cbn [length Nat.ltb Nat.leb andb].
      destruct Hnone as [Hnone|[->| ->]]; [discriminate Hnone | reflexivity|].
      destruct (String.eqb "0x" ""); reflexivity.
Qed.

(** ** [decodeTopic] *)

Lemma dropDigits_digits (digits rest : list ascii) :
  forallb isDigit digits = true ->
  dropDigits (digits ++ "["%char :: rest) = "["%char :: rest.
Proof.
  induction digits as [|c digits IH]; [reflexivity|].
  cbn [forallb app dropDigits]. intros H.
  apply andb_prop in H. destruct H as [Hc Hdigits].
  rewrite Hc. now apply IH.
Qed.

Lemma forallb_rev {A} (p : A -> bool) (l : list A) :
  forallb p (rev l) = forallb p l.
Proof.
  induction l as [|x l IH]; [reflexivity|].
  cbn [rev forallb]. rewrite forallb_app, IH. cbn [forallb].
  rewrite andb_true_r. apply andb_comm.
Qed.

Lemma matchesArrayType_brackets (base digits : string) :
  forallb (fun c => negb (Conversion.isLineTerminator c))
    (list_ascii_of_string base) = true ->
  forallb isDigit (list_ascii_of_string digits) = true ->
  matchesArrayType (base ++ "[" ++ digits ++ "]") = true.
Proof.
  intros Hbase Hdigits. unfold matchesArrayType.
  rewrite !ConversionLaws.list_ascii_of_string_append.
  cbn [list_ascii_of_string].
  rewrite !rev_app_distr. cbn [rev app]. rewrite <- app_assoc. cbn [app].
  rewrite dropDigits_digits by now rewrite forallb_rev.
  now rewrite forallb_rev.
Qed.

(** X9.  An indexed input of a type that a topic holds only the hash of is
    not decoded: for the types [string], [bytes] and [tuple], and for every
    array type, written as an element type followed by brackets with or
    without a length, [decodeTopic] returns the topic as it is and does not
    call the decoding library. *)
Theorem decodeTopic_keeps_hashed_types
    (param : AbiParameter) (value : Hex) :
  param_type param = "string" \/ param_type param = "bytes"
  \/ param_type param = "tuple"
  \/ (exists base digits,
         param_type param = base ++ "[" ++ digits ++ "]"
         /\ forallb (fun c => negb (Conversion.isLineTerminator c))
              (list_ascii_of_string base) = true
         /\ forallb isDigit (list_ascii_of_string digits) = true) ->
  decodeTopic param value = Returned (VTopic value).
Proof.
  unfold decodeTopic.
  intros [-> | [-> | [-> | (base & digits & -> & Hbase & Hdigits)]]];
    try reflexivity.
  rewrite (matchesArrayType_brackets base digits Hbase Hdigits).
  now rewrite !orb_true_r.
Qed.

(** ** Call traces *)

Lemma toLowerChar_idempotent (c : ascii) :
  toLowerChar (toLowerChar c) = toLowerChar c.
Proof. destruct c as [[] [] [] [] [] [] [] []]; reflexivity. Qed.

Lemma toLowerCase_idempotent (s : string) :
  toLowerCase (toLowerCase s) = toLowerCase s.
Proof.
  induction s as [|c s IH]; [reflexivity|].
  cbn [toLowerCase]. now rewrite toLowerChar_idempotent, IH.
Qed.

Lemma lookupSelector_In (selector : Hex) (bySelector : BySelector) (entry : AbiEntry) :
  lookupSelector selector bySelector = Some entry -> In (selector, entry) bySelector.
Proof.
  induction bySelector as [|[k v] rest IH]; [discriminate|].
  cbn [lookupSelector]. destruct (String.eqb k selector) eqn:Hk.
  - apply String.eqb_eq in Hk. intros [= <-]. left. now rewrite Hk.
  - intros H. right. now apply IH.
Qed.

(** X10.  The selector of a call trace is put in lower case before it is
    looked up, and the keys of [bySelector] are compared as they are.  So a
    trace row only ever decodes through an entry whose key is in lower case,
    the first ten characters of its input in lower case; and when no key of
    [bySelector] is in lower case, as for functions registered under
    selectors with capital letters, no trace row decodes at all. *)
Theorem decodeTraceRow_uses_lower_case_selectors
    (sourceName : string) (abiFunctions : BySelector) (ev : RawEvent) :
  (forall decoded,
      decodeTraceRow sourceName abiFunctions ev = Returned decoded ->
      exists trace selector entry,
        raw_trace ev = Some trace
        /\ selector = toLowerCase (substring 0 10 (input trace))
        /\ toLowerCase selector = selector
        /\ In (selector, entry) abiFunctions
        /\ name decoded = sourceName ++ "." ++ safeName entry)
  /\ (Forall (fun entry => toLowerCase (fst entry) <> fst entry) abiFunctions ->
      exists e, decodeTraceRow sourceName abiFunctions ev = Threw e).
Proof.
  assert (Hused : forall decoded,
             decodeTraceRow sourceName abiFunctions ev = Returned decoded ->
             exists trace selector entry,
               raw_trace ev = Some trace
               /\ selector = toLowerCase (substring 0 10 (input trace))
               /\ toLowerCase selector = selector
               /\ In (selector, entry) abiFunctions
               /\ name decoded = sourceName ++ "." ++ safeName entry).
  { unfold decodeTraceRow.
    destruct (raw_trace ev) as [trace|]; [|discriminate].
    destruct (lookupSelector _ abiFunctions) as [entry|] eqn:Hentry; [|discriminate].
    destruct (decodeFunctionData _ _) as [[args functionName]|];
      cbn [bindO]; [|discriminate].
    destruct (decodeFunctionResult _ _ _); cbn [bindO]; [|discriminate].
    intros decoded [= <-].
    exists trace, (toLowerCase (substring 0 10 (input trace))), entry.
    split; [reflexivity|]. split; [reflexivity|].
    split; [apply toLowerCase_idempotent|].
    split; [now apply lookupSelector_In | reflexivity]. }
  split; [exact Hused|]. intros Hkeys.
  destruct (decodeTraceRow sourceName abiFunctions ev) as [decoded|e] eqn:Hrow;
    [|now exists e].
  destruct (Hused decoded eq_refl) as (trace & selector & entry & _ & _ & Hlower & Hin & _).
  rewrite Forall_forall in Hkeys. destruct (Hkeys _ Hin Hlower).
Qed.

End Decoder.

Lemma processEvents_throws_on_unknown_source_witness :
  Exists (fun ev => length sampleSources <= sourceIndex ev)
    (sampleBatch ++ [sampleRow 7 "g" None None])
  /\ processEvents (viem := viemZ)
       (sampleBatch ++ [sampleRow 7 "g" None None]) sampleSources
     = Threw (TypeError "Cannot read properties of undefined (reading 'type')").
Proof.
  assert (Hbad : Exists (fun ev => length sampleSources <= sourceIndex ev)
                   (sampleBatch ++ [sampleRow 7 "g" None None])).
  { apply Exists_app. right. constructor. cbn. lia. }
  split; [exact Hbad|].
  destruct (processEvents_throws_on_unknown_source (viem := viemZ)
              (sampleBatch ++ [sampleRow 7 "g" None None]) sampleSources)
    as [[Hthrows _] Hvalue].
  destruct (Hthrows Hbad) as [e He].
  rewrite He. f_equal. exact (Hvalue e He).
Defined.

Lemma decodeEventLog_missing_topic_witness :
  decodeEventLog (viem := viemZ) transferItem ["0xddf2"] "0x1234"
  = Threw (Error "Missing topic").
Proof.
  refine (proj2 (decodeEventLog_missing_topic (viem := viemZ) transferItem
                   [ {| param_name := Some "from"; param_indexed := Some true;
                        param_type := "address" |};
                     {| param_name := Some "value"; param_indexed := None;
                        param_type := "uint256" |} ]
                   ["0xddf2"] "0x1234" eq_refl _) _).
  - cbn. lia.
  - intros param topic _ [].
Defined.

Lemma decodeTopic_keeps_hashed_types_witness :
  decodeTopic (viem := viemZ)
    {| param_name := Some "ids"; param_indexed := Some true;
       param_type := "uint256[3]" |} "0xabcd"
  = Returned (VTopic "0xabcd").
Proof.
  apply decodeTopic_keeps_hashed_types. right. right. right.
  exists "uint256", "3". repeat split.
Defined.

Lemma decodeEventLog_unnamed_positions_witness :
  decodeEventLog (viem := viemZ) unnamedItem ["0xsig"; "0x01"] "0x1234"
  = Returned (Some (ArgsArray [@VAbi viemZ 4%Z; @VAbi viemZ 6%Z])).
Proof.
  refine (proj1 (decodeEventLog_unnamed_positions (viem := viemZ) unnamedItem
                   [ {| param_name := None; param_indexed := None;
                        param_type := "uint256" |};
                     {| param_name := None; param_indexed := Some true;
                        param_type := "address" |} ]
                   ["0xsig"; "0x01"] "0x1234" [@VAbi viemZ 4%Z] eq_refl eq_refl _ _)
            [6%Z] _ _ _ eq_refl).
  - cbn. lia.
  - repeat constructor. discriminate.
  - discriminate.
  - discriminate.
  - discriminate.
Defined.

Lemma decodeTraceRow_uses_lower_case_selectors_witness :
  let row := sampleRow 2 "e" None
               (Some {| input := "0xA9059CBB0000"; output := "0x01" |}) in
  (exists decoded trace selector entry,
      decodeTraceRow "Pair"
        [("0xa9059cbb", {| safeName := "transfer()"; item := transferItem |})] row
      = Returned decoded
      /\ raw_trace row = Some trace
      /\ selector = toLowerCase (substring 0 10 (input trace))
      /\ toLowerCase selector = selector
      /\ In (selector, entry)
           [("0xa9059cbb", {| safeName := "transfer()"; item := transferItem |})]
      /\ name decoded = "Pair" ++ "." ++ safeName entry)
  /\ exists e,
      decodeTraceRow "Pair"
        [("0xA9059CBB", {| safeName := "transfer()"; item := transferItem |})] row
      = Threw e.
Proof.
  intros row. split.
  - eexists.
    destruct (proj1 (decodeTraceRow_uses_lower_case_selectors (viem := viemZ) "Pair"
                       [("0xa9059cbb",
                         {| safeName := "transfer()"; item := transferItem |})] row)
                _ eq_refl) as (trace & selector & entry & H).
    exists trace, selector, entry. split; [reflexivity | exact H].
  - apply (proj2 (decodeTraceRow_uses_lower_case_selectors (viem := viemZ) "Pair"
                    [("0xA9059CBB",
                      {| safeName := "transfer()"; item := transferItem |})] row)).
    repeat constructor. discriminate.
Defined.

End EventDecoderWorkerLaws.

(* ===================================================================== *)
(** * The worker pool seen from its caller                                *)
(* ===================================================================== *)

Module WorkerPoolLaws.
Import EventDecoderWorker WorkerPool WorkerPoolFacts.

Section Pool.
Context {viem : Viem}.

(** X11.  With at least one worker the split is invisible to the caller:
    [execute] resolves to an event list exactly when one call of the
    decoder's [processEvents] on the whole batch returns that list, in the
    same order, for every number of workers and every batch length; and it
    rejects exactly when that call throws. *)
Theorem execute_decodes_the_whole_batch
    (coreCount : nat) (message : WorkerMessage) :
  1 <= coreCount ->
  (forall events,
      execute coreCount message = Returned events
      <-> processEvents (chunk message) (sources message) = Returned events)
  /\ ((exists e, execute coreCount message = Threw e)
      <-> exists e, processEvents (chunk message) (sources message) = Threw e).
Proof.
  intros Hcores. unfold execute.
  rewrite Promise_all_processEvents, (workerChunks_concat _ _ Hcores).
  split; [intros events|]; reflexivity.
Qed.

(** X12.  Without work, [execute] posts no message and resolves to the
    empty list: for an empty batch, whatever the number of workers, and for
    every batch when the pool has no worker, since the sub-chunks are built
    one per worker.  A pool created on a machine that reports no CPU core
    drops every row without an error. *)
Theorem execute_without_work (coreCount : nat) (message : WorkerMessage) :
  coreCount = 0 \/ chunk message = [] ->
  workerChunks coreCount (chunk message) = []
  /\ execute coreCount message = Returned [].
Proof.
  intros Hnone.
  assert (Hchunks : workerChunks coreCount (chunk message) = []).
  { unfold workerChunks. destruct Hnone as [-> | ->].
    - reflexivity.
    - apply filter_slices_nil. }
  split; [exact Hchunks|]. unfold execute. now rewrite Hchunks.
Qed.

End Pool.

Lemma execute_decodes_the_whole_batch_witness :
  exists events,
    processEvents (viem := viemZ) sampleBatch sampleSources = Returned events
    /\ execute 4 {| chunk := sampleBatch; sources := sampleSources |}
       = Returned events
    /\ length events = 3.
Proof.
  eexists. split; [reflexivity|]. split; [|reflexivity].
  apply (proj1 (execute_decodes_the_whole_batch (viem := viemZ) 4
                  {| chunk := sampleBatch; sources := sampleSources |}
                  ltac:(lia))).
  reflexivity.
Defined.

Lemma execute_without_work_witness :
  execute (viem := viemZ) 0 {| chunk := sampleBatch; sources := sampleSources |}
  = Returned []
  /\ execute (viem := viemZ) 4 {| chunk := []; sources := sampleSources |}
     = Returned [].
Proof.
  split.
  - apply (execute_without_work (viem := viemZ) 0
             {| chunk := sampleBatch; sources := sampleSources |}).
    now left.
  - apply (execute_without_work (viem := viemZ) 4
             {| chunk := []; sources := sampleSources |}).
    now right.
Defined.

End WorkerPoolLaws.

(* ===================================================================== *)
(** * The handler service: what a cycle keeps and what it cannot do       *)
(* ===================================================================== *)

Module EventHandlerServiceLaws.
Import EventHandlerService EventHandlerServiceFacts.

Local Open Scope string_scope.
Local Open Scope Z_scope.

Section Service.
Context {ext : Externals}.

(** ** What the tasks of a queue leave alone *)

Lemma sameControl_refl (s : EventHandlerService) : sameControl s s.
Proof. repeat split. Qed.

Lemma sameControl_trans (s1 s2 s3 : EventHandlerService) :
  sameControl s1 s2 -> sameControl s2 s3 -> sameControl s1 s3.
Proof.
  unfold sameControl. intros H12 H23.
  decompose [and] H12. decompose [and] H23.
  repeat split; congruence.
Qed.

Lemma sameControl_updateQueue (q : nat) (f : Queue -> Queue)
    (s : EventHandlerService) :
  sameControl s (updateQueue q f s).
Proof.
  unfold updateQueue. destruct (getQueue q s); [|apply sameControl_refl].
  repeat split. cbn. apply length_list_update.
Qed.

Lemma sameControl_set_resources (r : Resources) (s : EventHandlerService) :
  contracts r = contracts (resources s) ->
  cacheStore r = cacheStore (resources s) ->
  sameControl s (set_resources r s).
Proof. intros Hc Hs. repeat split; assumption. Qed.

Lemma sameControl_buildLogEvent (log : Log) (handlers : Handlers)
    (s : EventHandlerService) :
  sameControl s (fst (buildLogEvent log handlers s)).
Proof.
  destruct (buildLogEvent_frame log handlers s) as [lines ->].
  now apply sameControl_set_resources.
Qed.

Lemma sameControl_reportHandlerError (q : nat) (error : EventHandlerError)
    (s : EventHandlerService) :
  sameControl s (reportHandlerError q error s).
Proof.
  unfold reportHandlerError.
  apply (sameControl_trans _ (updateQueue q Queue_clear s));
    [apply sameControl_updateQueue|].
  now apply sameControl_set_resources.
Qed.

Lemma sameControl_eventHandlerWorker (q : nat) (task : EventHandlerTask)
    (s : EventHandlerService) :
  sameControl s (fst (eventHandlerWorker q task s)).
Proof.
  unfold eventHandlerWorker.
  destruct (getQueue q s) as [object|]; [|apply sameControl_refl].
  destruct task as [|log].
  - destruct (setup (queue_handlers object)) as [setupHandler|];
      [|repeat split].
    destruct (setupHandler _ _) as [store [error|]]; [|repeat split].
    destruct (getStackTraceAndCodeFrame _ _) as [stackTrace codeFrame].
    cbn [fst].
    match goal with
    | |- sameControl _ (emit _ (reportHandlerError ?q ?e ?s0)) =>
        apply (sameControl_trans _ s0); [repeat split|];
        apply (sameControl_trans _ (reportHandlerError q e s0));
        [apply sameControl_reportHandlerError | repeat split]
    end.
  - pose proof (sameControl_buildLogEvent log (queue_handlers object)
                  (emit taskStarted s)) as Hbuild.
    destruct (buildLogEvent log (queue_handlers object) (emit taskStarted s))
      as [s1 result].
    cbn [fst] in Hbuild.
    assert (Hs1 : sameControl s s1)
      by (apply (sameControl_trans _ (emit taskStarted s));
          [repeat split | exact Hbuild]).
    destruct result as [[[handler event]|]|e]; [|exact Hs1|exact Hs1].
    destruct (handler _ _ _) as [store [error|]].
    + destruct (getStackTraceAndCodeFrame _ _) as [stackTrace codeFrame].
      cbn [fst].
      match goal with
      | |- sameControl _ (emit _ (reportHandlerError ?q ?e ?s0)) =>
          apply (sameControl_trans _ s1); [exact Hs1|];
          apply (sameControl_trans _ s0); [repeat split|];
          apply (sameControl_trans _ (reportHandlerError q e s0));
          [apply sameControl_reportHandlerError | repeat split]
      end.
    + cbn [fst]. apply (sameControl_trans _ s1); [exact Hs1 | repeat split].
Qed.

Lemma sameControl_Queue_runNext (q : nat) (s : EventHandlerService) :
  sameControl s (Queue_runNext q s).
Proof.
  unfold Queue_runNext.
  destruct (getQueue q s) as [object|]; [|apply sameControl_refl].
  destruct (queue_isPaused object); [apply sameControl_refl|].
  destruct (queue_failure object); [apply sameControl_refl|].
  destruct (queue_tasks object) as [|task rest]; [apply sameControl_refl|].
  pose proof (sameControl_eventHandlerWorker q task
                (updateQueue q (Queue_setTasks rest) s)) as Hworker.
  destruct (eventHandlerWorker q task (updateQueue q (Queue_setTasks rest) s))
    as [s1 result].
  cbn [fst] in Hworker.
  assert (Hs1 : sameControl s s1)
    by (eapply sameControl_trans; [apply sameControl_updateQueue | exact Hworker]).
  destruct result; [exact Hs1|].
  eapply sameControl_trans; [exact Hs1 | apply sameControl_updateQueue].
Qed.

Lemma sameControl_Queue_run (n q : nat) (s : EventHandlerService) :
  sameControl s (Queue_run n q s).
Proof.
  revert s. induction n as [|n IH]; intros s; [apply sameControl_refl|].
  cbn [Queue_run].
  eapply sameControl_trans; [apply sameControl_Queue_runNext | apply IH].
Qed.

Lemma sameControl_Queue_drain (q : nat) (s : EventHandlerService) :
  sameControl s (Queue_drain q s).
Proof.
  unfold Queue_drain. destruct (getQueue q s); [|apply sameControl_refl].
  apply sameControl_Queue_run.
Qed.

(** ** The watermark along a cycle *)

Lemma JsNumber_leb_refl (a : JsNumber) : JsNumber_leb a a = true.
Proof. destruct a; cbn; [apply Z.leb_refl | reflexivity]. Qed.

Lemma JsNumber_leb_total (a b : JsNumber) :
  JsNumber_leb a b = false -> JsNumber_leb b a = true.
Proof.
  destruct a, b; cbn; try reflexivity; try discriminate.
  intros H. apply Z.leb_gt in H. apply Z.leb_le. lia.
Qed.

(** New logs are reported only up to a timestamp after [fromTimestamp]. *)
Lemma getNewEvents_new_logs_ahead (fromTimestamp : JsNumber)
    (s : EventHandlerService) (newEvents : NewEvents) :
  getNewEvents fromTimestamp s = Returned newEvents ->
  hasNewLogs newEvents = true ->
  JsNumber_leb (toTimestamp newEvents) fromTimestamp = false.
Proof.
  unfold getNewEvents.
  destruct (Array_includes _ _); [intros [= <-]; discriminate|].
  destruct (JsNumber_leb _ fromTimestamp) eqn:Hleb; [intros [= <-]; discriminate|].
  destruct (Promise_all _); cbn [bindO]; [|discriminate].
  intros [= <-] _. exact Hleb.
Qed.

Lemma sameControl_enqueue (q : nat) (logs : list Log) (s : EventHandlerService) :
  sameControl s
    (fold_left (fun s log => updateQueue q (Queue_addTask (LOG log)) s) logs s).
Proof.
  revert s. induction logs as [|log logs IH]; intros s; [apply sameControl_refl|].
  cbn [fold_left].
  eapply sameControl_trans; [apply sameControl_updateQueue | apply IH].
Qed.

Lemma processEvents_call_step (s : EventHandlerService) :
  eventsHandledToTimestamp (snd (processEvents_call s))
  = eventsHandledToTimestamp s
  /\ (fst (processEvents_call s) = Completed (Returned tt)
      \/ exists m ticket, fst (processEvents_call s) = AwaitingLock m ticket).
Proof.
  unfold processEvents_call.
  destruct (negb (isBackfillStarted s)); [split; [reflexivity | now left]|].
  destruct (isHandlerError _); [split; [reflexivity | now left]|].
  destruct (Mutex_acquire _) as [ticket mutex].
  split; [reflexivity | right; now eexists; eexists].
Qed.

(** A step of a cycle changes the watermark only at the end of a cycle
    that has waited for its queue, and then to the [toTimestamp] of the
    cycle. *)
Lemma resume_watermark (cycle : Cycle) (s : EventHandlerService) :
  match cycle with
  | AwaitingQueueEmpty _ _ _ toTimestamp =>
      eventsHandledToTimestamp (snd (resume cycle s)) = eventsHandledToTimestamp s
      \/ eventsHandledToTimestamp (snd (resume cycle s)) = toTimestamp
  | _ =>
      eventsHandledToTimestamp (snd (resume cycle s)) = eventsHandledToTimestamp s
  end.
Proof.
  destruct cycle as [m ticket|m fromTimestamp|m q logs toTimestamp|result];
    cbn [resume].
  - destruct (existsb _ _); [reflexivity|].
    destruct (mutex_holder _) as [holder|]; [|reflexivity].
    destruct (Nat.eqb holder ticket); [|reflexivity].
    destruct (queue s); reflexivity.
  - destruct (getNewEvents fromTimestamp s) as [newEvents|e]; [|reflexivity].
    destruct (negb (hasNewLogs newEvents)); [reflexivity|].
    destruct (queue s) as [current|]; [|reflexivity].
    cbn [snd].
    pose proof (sameControl_enqueue current (logs newEvents) s) as Hsame.
    unfold updateQueue at 1.
    destruct (getQueue current _); cbn; apply Hsame.
  - destruct (getQueue q s) as [object|]; [|now left].
    destruct (queue_failure object); [now left|].
    destruct (queue_tasks object); [|now left].
    destruct (queue s) as [current|]; [|now left].
    right. reflexivity.
  - reflexivity.
Qed.

(** Where a step of a cycle leads. *)
Lemma resume_next (cycle : Cycle) (s : EventHandlerService) :
  match fst (resume cycle s) with
  | AwaitingLock m ticket => cycle = AwaitingLock m ticket
  | AwaitingNewEvents _ fromTimestamp =>
      fromTimestamp = eventsHandledToTimestamp s
      /\ exists m ticket, cycle = AwaitingLock m ticket
  | AwaitingQueueEmpty m q logs toTimestamp =>
      cycle = AwaitingQueueEmpty m q logs toTimestamp
      \/ exists fromTimestamp,
          cycle = AwaitingNewEvents m fromTimestamp
          /\ JsNumber_leb toTimestamp fromTimestamp = false
  | Completed _ => True
  end.
Proof.
  destruct cycle as [m ticket|m fromTimestamp|m q logs toTimestamp|result];
    cbn [resume].
  - destruct (existsb _ _); [exact I|].
    destruct (mutex_holder _) as [holder|]; [|reflexivity].
    destruct (Nat.eqb holder ticket); [|reflexivity].
    destruct (queue s); [|exact I].
    split; [reflexivity | now eexists; eexists].
  - destruct (getNewEvents fromTimestamp s) as [newEvents|e] eqn:Hnew; [|exact I].
    destruct (hasNewLogs newEvents) eqn:Hhas; [|exact I].
    cbn [negb]. destruct (queue s) as [current|]; [|exact I].
    cbn [fst]. right. exists fromTimestamp.
    split; [reflexivity|].
    exact (getNewEvents_new_logs_ahead _ _ _ Hnew Hhas).
  - destruct (getQueue q s) as [object|]; [|now left].
    destruct (queue_failure object); [exact I|].
    destruct (queue_tasks object); [|now left].
    destruct (queue s); exact I.
  - exact I.
Qed.

(** X13.  A call of [processEvents] never moves the watermark back:
    whatever the state of the service, the cache, the handlers and the
    outcome of the tasks, [eventsHandledToTimestamp] after the call is at
    least what it was before.  Only [resetEventQueue] lowers it. *)
Theorem processEvents_watermark_monotone (s : EventHandlerService) :
  JsNumber_leb (eventsHandledToTimestamp s)
    (eventsHandledToTimestamp (snd (processEvents s))) = true.
Proof.
  unfold processEvents.
  destruct (processEvents_call_step s) as [Hw1 Hc1].
  destruct (processEvents_call s) as [c1 s1]. cbn [fst snd] in Hw1, Hc1.
  pose proof (resume_watermark c1 s1) as Hw2.
  pose proof (resume_next c1 s1) as Hn2.
  destruct (resume c1 s1) as [c2 s2]. cbn [fst snd] in Hw2, Hn2.
  assert (Hw2' : eventsHandledToTimestamp s2 = eventsHandledToTimestamp s).
  { destruct Hc1 as [-> | (m & ticket & ->)]; now rewrite Hw2. }
  pose proof (resume_watermark c2 s2) as Hw3.
  pose proof (resume_next c2 s2) as Hn3.
  destruct (resume c2 s2) as [c3 s3]. cbn [fst snd] in Hw3, Hn3.
  assert (Hc2 : match c2 with AwaitingQueueEmpty _ _ _ _ => False | _ => True end).
  { destruct c2; try exact I.
    destruct Hc1 as [-> | (m' & ticket & ->)];
      destruct Hn2 as [Hn2 | (fromTimestamp & Hn2 & _)]; discriminate Hn2. }
  assert (Hw3' : eventsHandledToTimestamp s3 = eventsHandledToTimestamp s).
  { destruct c2; try contradiction; now rewrite Hw3. }
  destruct c3 as [m ticket|m fromTimestamp|m q logs toTimestamp|result];
    cbn [snd]; try (rewrite Hw3'; apply JsNumber_leb_refl).
  assert (Hahead : JsNumber_leb toTimestamp (eventsHandledToTimestamp s) = false).
  { destruct Hn3 as [-> | (fromTimestamp & -> & Hleb)]; [contradiction|].
    destruct Hn2 as [-> _]. now rewrite <- Hw1. }
  pose proof (sameControl_Queue_drain q s3) as Hdrain.
  pose proof (resume_watermark (AwaitingQueueEmpty m q logs toTimestamp)
                (Queue_drain q s3)) as Hw4.
  cbn beta iota in Hw4.
  assert (Hwd : eventsHandledToTimestamp (Queue_drain q s3)
                = eventsHandledToTimestamp s).
  { destruct Hdrain as (_ & _ & _ & _ & _ & _ & Hwm & _). now rewrite Hwm. }
  destruct Hw4 as [-> | ->].
  - rewrite Hwd. apply JsNumber_leb_refl.
  - now apply JsNumber_leb_total.
Qed.

(** ** The lock along a cycle *)






End Service.


End EventHandlerServiceLaws.

(* ===================================================================== *)
(** * The handler service: resets, edge cases and failures                *)
(* ===================================================================== *)

Module EventHandlerServiceEdges.
Import EventHandlerService EventHandlerServiceFacts EventHandlerServiceLaws.

Local Open Scope string_scope.
Local Open Scope Z_scope.

Section Service.
Context {ext : Externals}.

(** ** [resetEventQueue] and [killQueue] *)


(** X15.  The handlers and the schema may arrive in two calls.  A call of
    [resetEventQueue] after which one of the two is still missing only
    stores what it was given: it cancels nothing, builds no queue, emits no
    event and leaves the watermark alone.  The call that brings the second
    one then does what one call with both does: in either order, two calls
    leave the service in the state that the single call leaves it in. *)
Theorem resetEventQueue_in_two_calls
    (h : Handlers) (sc : Schema) (s : EventHandlerService) :
  handlers s = None ->
  schema s = None ->
  resetEventQueue (Some h) None s = set_handlers (Some h) s
  /\ resetEventQueue None (Some sc) s = set_schema (Some sc) s
  /\ resetEventQueue None None s = s
  /\ resetEventQueue None (Some sc) (resetEventQueue (Some h) None s)
     = resetEventQueue (Some h) (Some sc) s
  /\ resetEventQueue (Some h) None (resetEventQueue None (Some sc) s)
     = resetEventQueue (Some h) (Some sc) s.
Proof.
  destruct s as [r h0 sc0 q ic b m w n ms qs em]. cbn [handlers schema].
  intros -> ->. repeat split.
Qed.





(** ** [getNewEvents] at its edges *)

(** X18.  With no indexed contract there is nothing to take a minimum of:
    [Math.min()] is [Infinity], which is greater than every finite
    watermark, so [getNewEvents] reports new logs, with no log in them and
    [toTimestamp = Infinity]; from the watermark [Infinity] it reports
    nothing new. *)
Theorem getNewEvents_without_indexed_contracts
    (fromTimestamp : Z) (s : EventHandlerService) :
  indexedContracts s = [] ->
  getNewEvents (Finite fromTimestamp) s
  = Returned {| hasNewLogs := true; toTimestamp := Infinity; logs := [];
                totalLogCount := Some 0%nat |}
  /\ getNewEvents Infinity s = Returned (noNewEvents Infinity).
Proof.
  unfold indexedContracts, getNewEvents. intros ->. split; reflexivity.
Qed.

Lemma mapO_throws {A B} (f : A -> Outcome B) (l : list A) (x : A) (e : JsError) :
  In x l -> f x = Threw e -> exists e', mapO f l = Threw e'.
Proof.
  induction l as [|y l IH]; intros Hin Hx; [destruct Hin|].
  cbn [mapO]. destruct (f y) as [b|e'] eqn:Hy; cbn [bindO]; [|now exists e'].
  destruct Hin as [-> | Hin]; [congruence|].
  destruct (IH Hin Hx) as [e' ->]. now exists e'.
Qed.

Lemma Promise_all_throws {A} (ps : list (Outcome A)) (e : JsError) :
  In (Threw e) ps -> exists e', Promise_all ps = Threw e'.
Proof.
  induction ps as [|p ps IH]; intros Hin; [destruct Hin|].
  cbn [Promise_all]. destruct p as [a|e0]; [|now exists e0].
  destruct Hin as [Hin | Hin]; [discriminate Hin|].
  destruct (IH Hin) as [e' ->]. now exists e'.
Qed.

(** X19.  A handler registered under a name that is not an event of the
    ABI of its contract stops every cycle that has something to fetch: when
    the minimum of the bounds is ahead of [fromTimestamp], and
    [encodeEventTopics] throws for the name of a handler of an indexed
    contract, [getNewEvents] throws instead of returning logs. *)
Theorem getNewEvents_throws_on_unknown_event_name
    (fromTimestamp : JsNumber) (s : EventHandlerService) (m : Z)
    (contract : Contract) (h : Handlers)
    (handlersOfContract : list (string * LogHandler))
    (name : string) (e : JsError) :
  cacheWellFormed s ->
  minimumBound s m ->
  JsNumber_leb (Finite m) fromTimestamp = false ->
  In contract (indexedContracts s) ->
  handlers s = Some h ->
  lookup (contract_name contract) (contractHandlers h) = Some handlersOfContract ->
  In name (Object_keys handlersOfContract) ->
  encodeEventTopics (contract_abi contract) name = Threw e ->
  exists e', getNewEvents fromTimestamp s = Threw e'.
Proof.
  intros Hwf Hmin Hahead Hin Hh Hhs Hname Henc.
  destruct (Math_min_cachedToTimestamps s m Hwf Hmin) as [Hm Hpos].
  unfold getNewEvents. fold (indexedContracts s).
  destruct (Array_includes (-1) _) eqn:Hinc.
  { exfalso. apply Array_includes_In in Hinc.
    apply in_map_iff in Hinc. destruct Hinc as (c & Hval & Hc).
    destruct Hmin as [_ Hall]. destruct (Hall c Hc) as (t & Hb & Hle).
    rewrite (cachedToTimestamp_bound s c t (proj1 (Hwf c Hc)) Hb) in Hval. lia. }
  rewrite Hm, Hahead.
  assert (Hthrows : exists e1,
             contractLogs s fromTimestamp (Finite m) contract = Threw e1).
  { unfold contractLogs. rewrite Hh, Hhs.
    destruct (mapO_throws
                (fun eventName =>
                   let* eventTopics :=
                     encodeEventTopics (contract_abi contract) eventName in
                   Returned (hd_error eventTopics))
                (Object_keys handlersOfContract) name e Hname) as [e1 He1].
    { now rewrite Henc. }
    exists e1. now rewrite He1. }
  destruct Hthrows as [e1 He1].
  destruct (Promise_all_throws
              (map (contractLogs s fromTimestamp (Finite m)) (indexedContracts s)) e1)
    as [e' He'].
  { rewrite <- He1. now apply in_map. }
  exists e'. now rewrite He'.
Qed.

(** ** Tasks that do not reach a handler *)

(** X20.  A task that finds no handler starts and does not complete: the
    worker emits [taskStarted], writes one line to the logger and returns; it
    emits no [taskCompleted], runs no user code and touches neither the queue
    nor the error sink.  This holds for a [SETUP] task when there is no setup
    handler, and for a [LOG] task whose log is skipped by [buildLogEvent]. *)
Theorem eventHandlerWorker_skipped_task
    (q : nat) (s : EventHandlerService) (object : Queue) :
  getQueue q s = Some object ->
  (setup (queue_handlers object) = None ->
   eventHandlerWorker q SETUP s
   = (logMessage Warn "Handler not found for event: setup" (emit taskStarted s),
      Returned tt))
  /\ (forall log,
        missesHandler s (queue_handlers object) log ->
        exists level message,
          eventHandlerWorker q (LOG log) s
          = (logMessage level message (emit taskStarted s), Returned tt)).
Proof.
  intros Hq. unfold eventHandlerWorker. rewrite Hq. split.
  - intros ->. reflexivity.
  - intros log. unfold missesHandler, buildLogEvent.
    change (resources (emit taskStarted s)) with (resources s).
    destruct (find _ (contracts (resources s))) as [contract|];
      [|intros _; eexists; eexists; reflexivity].
    destruct (lookup (contract_name contract)
                (contractHandlers (queue_handlers object))) as [hs|];
      [|intros _; eexists; eexists; reflexivity].
    destruct (decodeEventLog _ _ _) as [[[eventName args]|]|e];
      [|intros _; eexists; eexists; reflexivity|contradiction].
    intros ->. eexists. eexists. reflexivity.
Qed.

(** ** Tasks that throw *)



(** X22.  A handler that throws does not stop its cycle from recording
    progress.  The worker catches the error, so the queue does not fail: it is
    left empty, and the cycle that waits for it goes on as after a clean run.
    It completes without an error, sets the watermark to its [toTimestamp]
    and emits [eventsProcessed] with the number of all the logs it had
    fetched, those dropped from the queue included, while the error flag is
    set. *)
Theorem handler_failure_still_advances_the_watermark
    (m q : nat) (s : EventHandlerService) (object : Queue)
    (pre post : list EventHandlerTask) (log : Log)
    (handler : LogHandler) (name : string) (args : Params)
    (block : Block) (transaction : Transaction)
    (store' : EntityStore) (error : JsError)
    (logs : list Log) (toTimestamp : JsNumber) :
  queue s = Some q ->
  getQueue q s = Some object ->
  queue_isPaused object = false ->
  queue_failure object = None ->
  queue_tasks object = (pre ++ LOG log :: post)%list ->
  errors (resources (Queue_run (length pre) q s)) = errors (resources s) ->
  (forall object1,
      getQueue q (Queue_run (length pre) q s) = Some object1 ->
      queue_failure object1 = None) ->
  resolvesTo s (queue_handlers object) log handler name args ->
  getBlock (cacheStore (resources s)) (blockHash log) = Some block ->
  getTransaction (cacheStore (resources s)) (transactionHash log) = Some transaction ->
  handler {| event_name := name; event_params := args; event_log := log;
             event_block := block; event_transaction := transaction |}
    (queue_context object)
    (entityStore (resources (Queue_run (length pre) q s)))
  = (store', Some error) ->
  exists s',
    resume (AwaitingQueueEmpty m q logs toTimestamp) (Queue_drain q s)
    = (Completed (Returned tt), s')
    /\ eventsHandledToTimestamp s' = toTimestamp
    /\ emitted s'
       = (emitted (Queue_drain q s)
          ++ [eventsProcessed (length logs) toTimestamp])%list
    /\ isHandlerError (errors (resources s')) = true
    /\ (exists object', getQueue q s' = Some object' /\ queue_tasks object' = []).
Proof.
  intros Hcurrent Hq Hp Hf Ht Herr Hok Hres Hblock Htx Hthrow.
  destruct (Queue_run_prefix pre (LOG log :: post) q s _ object Hq Hp Hf Ht
              eq_refl Herr Hok)
    as (Hc & Hs & Ho & _ & object1 & Hq1 & Hh1 & Hctx1 & Hp1 & Hf1 & Ht1).
  set (s1 := Queue_run (length pre) q s) in *.
  destruct (Queue_runNext_handler_throws q s1 object1 log post handler name
              args block transaction store' error Hq1 Hp1 Hf1 Ht1)
    as (object2 & Hq2 & Ht2 & Hf2 & Herr2 & _ & _).
  { rewrite Hh1. apply (resolvesTo_contracts s s1); [now symmetry | exact Hres]. }
  { now rewrite Hs. }
  { now rewrite Hs. }
  { rewrite Hctx1. exact Hthrow. }
  assert (Hdrain : Queue_drain q s = Queue_runNext q s1).
  { unfold Queue_drain. rewrite Hq, Ht, length_app. cbn [length].
    replace (length pre + S (length post))%nat
      with (length pre + 1 + length post)%nat by lia.
    rewrite !Queue_run_add. fold s1. cbn [Queue_run].
    apply (Queue_run_idle _ _ _ object2 Hq2). right. now right. }
  rewrite Hdrain.
  set (drained := Queue_runNext q s1) in *.
  assert (Hqueue : queue drained = Some q).
  { pose proof (sameControl_Queue_drain q s) as (_ & _ & Hsame & _).
    rewrite Hdrain in Hsame. now rewrite Hsame. }
  destruct (getQueue_updateQueue q Queue_pause drained object2 Hq2)
    as [Hq3 Hupd3].
  cbn [resume]. rewrite Hq2, Hf2, Ht2, Hqueue. unfold leaveExclusive.
  eexists. split; [reflexivity|].
  rewrite Hupd3. cbn.
  split; [reflexivity|]. split; [reflexivity|].
  split; [now rewrite Herr2|].
  exists (Queue_pause object2). split.
  - rewrite <- Hq3, Hupd3. reflexivity.
  - exact Ht2.
Qed.

End Service.

Lemma resetEventQueue_in_two_calls_witness :
  resetEventQueue None (Some sampleSchema)
    (resetEventQueue (Some sampleHandlers) None sampleFresh)
  = sampleService sampleIntervals sampleLogs
  /\ resetEventQueue (Some sampleHandlers) None sampleFresh
     = set_handlers (Some sampleHandlers) sampleFresh.
Proof.
  destruct (resetEventQueue_in_two_calls sampleHandlers sampleSchema sampleFresh
              eq_refl eq_refl) as (Hfirst & _ & _ & Hboth & _).
  split; [exact Hboth | exact Hfirst].
Defined.



Lemma getNewEvents_without_indexed_contracts_witness :
  getNewEvents (Finite 0) sampleWithoutContracts
  = Returned {| hasNewLogs := true; toTimestamp := Infinity; logs := [];
                totalLogCount := Some 0%nat |}
  /\ eventsHandledToTimestamp (snd (processEvents sampleWithoutContracts))
     = Infinity.
Proof.
  split.
  - exact (proj1 (getNewEvents_without_indexed_contracts 0
                    sampleWithoutContracts eq_refl)).
  - reflexivity.
Defined.

Lemma getNewEvents_throws_on_unknown_event_name_witness :
  exists e, getNewEvents (Finite 0) sampleStray = Threw e.
Proof.
  apply (getNewEvents_throws_on_unknown_event_name (Finite 0) sampleStray 5000
           pairContract strayHandlers
           [("Swap", swapHandler); ("Burn", swapHandler)] "Burn"
           (Error "AbiEventNotFoundError")).
  - intros contract Hin. cbn in Hin. destruct Hin as [<-|[]].
    split; [repeat constructor | repeat constructor; cbn; lia].
  - apply sample_minimumBound; reflexivity.
  - reflexivity.
  - now left.
  - reflexivity.
  - reflexivity.
  - right. now left.
  - reflexivity.
Defined.

Lemma eventHandlerWorker_skipped_task_witness :
  exists level message,
    eventHandlerWorker 0
      (LOG {| logSortKey := 60; log_address := "0xother"; log_data := "0x06";
              topic0 := Some "0xSwap"; topic1 := None; topic2 := None;
              topic3 := None; blockHash := "0xb9"; transactionHash := "0xt9" |})
      sampleStarted
    = (logMessage level message (emit taskStarted sampleStarted), Returned tt).
Proof.
  refine (proj2 (eventHandlerWorker_skipped_task 0 sampleStarted _ eq_refl) _ _).
  exact I.
Defined.


Lemma handler_failure_still_advances_the_watermark_witness :
  exists s',
    resume (AwaitingQueueEmpty 1 0 sortedSampleLogs (Finite 5000))
      (Queue_drain 0 sampleStarted)
    = (Completed (Returned tt), s')
    /\ eventsHandledToTimestamp s' = Finite 5000
    /\ emitted s'
       = (emitted (Queue_drain 0 sampleStarted)
          ++ [eventsProcessed 5 (Finite 5000)])%list
    /\ isHandlerError (errors (resources s')) = true
    /\ (exists object', getQueue 0 s' = Some object' /\ queue_tasks object' = []).
Proof.
  refine (handler_failure_still_advances_the_watermark 1 0 sampleStarted
            {| queue_handlers := sampleHandlers;
               queue_context := {| context_contracts := ["Pair"];
                                   context_entities := ["Trade"] |};
               queue_tasks := SETUP :: map LOG sortedSampleLogs;
               queue_isPaused := false;
               queue_failure := None |}
            [SETUP; LOG (swapLog 10 "0x01" "0xb1"); LOG (swapLog 20 "0x02" "0xb2")]
            [LOG (swapLog 40 "0x04" "0xb4"); LOG (swapLog 50 "0x05" "0xb5")]
            (swapLog 30 "0xboom" "0xb3") swapHandler "Swap" "0xboom"
            {| block_hash := "0xb3"; block_number := 103; block_timestamp := 1103 |}
            {| transaction_hash := "0xtx" |}
            ["setup"; "0x01"; "0x02"; "0xboom"] (Error "boom")
            sortedSampleLogs (Finite 5000)
            _ _ _ _ _ _ _ _ _ _ _).
  - reflexivity.
  - reflexivity.
  - reflexivity.
  - reflexivity.
  - reflexivity.
  - reflexivity.
  - intros object1 Hq. vm_compute in Hq. injection Hq as <-. reflexivity.
  - apply sample_resolvesTo. reflexivity.
  - reflexivity.
  - reflexivity.
  - reflexivity.
Defined.

End EventHandlerServiceEdges.
